(** * swr-catalyst: a shallow embedding of the key codec, the key
    stabilizer, the mutation error, the optimistic-update protocol and the
    batch invalidators, with the properties of the specification.

    JavaScript values are modelled by the inductive type [JsVal]; objects
    carry the address they were allocated at, so that [===] on objects is
    address equality.  Code that allocates or throws lives in a small
    state-and-exception monad. *)

From Stdlib Require Import String Ascii Bool ZArith NArith Lia List.
Import ListNotations.

Set Implicit Arguments.
Set Warnings "-register-all".

(* ================================================================= *)
(** ** JavaScript strings: sequences of UTF-16 code units *)

Definition jsstring := list N.

Definition lit (s : string) : jsstring :=
  map N_of_ascii (list_ascii_of_string s).

(** The two characters the key patterns are built around. *)
Definition dq : N := 34.        (* the double quote *)
Definition bslash : N := 92.    (* the backslash *)

Definition jsstring_eq_dec : forall a b : jsstring, {a = b} + {a <> b} :=
  list_eq_dec N.eq_dec.

Definition str_eqb (a b : jsstring) : bool :=
  if jsstring_eq_dec a b then true else false.

(** [s.startsWith(p)], returning the rest of [s] after [p]. *)
Fixpoint strip_prefix (p s : jsstring) : option jsstring :=
  match p with
  | [] => Some s
  | c :: p' =>
      match s with
      | [] => None
      | d :: s' => if N.eqb c d then strip_prefix p' s' else None
      end
  end.

Definition startsWith (s p : jsstring) : bool :=
  match strip_prefix p s with Some _ => true | None => false end.

(** ASCII letters and digits. *)
Definition alnum (c : N) : bool :=
  ((48 <=? c) && (c <=? 57) || (65 <=? c) && (c <=? 90)
   || (97 <=? c) && (c <=? 122))%N.

(** Decimal rendering of a non-negative integer, most significant digit
    first; [fuel] bounds the number of digits. *)
Fixpoint digits (fuel : nat) (n : N) (acc : jsstring) : jsstring :=
  match fuel with
  | O => acc
  | S fuel' =>
      let acc' := (48 + n mod 10)%N :: acc in
      if (n <? 10)%N then acc' else digits fuel' (n / 10)%N acc'
  end.

(** The digits without the zeros they end in. *)
Definition strip_zeros (d : jsstring) : jsstring :=
  rev ((fix drop (l : jsstring) : jsstring :=
          match l with
          | c :: l' => if N.eqb c 48 then drop l' else l
          | [] => []
          end) (rev d)).

(** Number::toString on an integer: all the digits up to 21 of them,
    and from 10^21 on the exponent form, one digit, the further
    significant digits after a point, and the power of ten. *)
Definition Z_to_string (z : Z) : jsstring :=
  let n := Z.abs_N z in
  let all := digits (S (N.to_nat (N.log2 n))) n [] in
  let body :=
    if (length all <=? 21)%nat then all
    else
      match strip_zeros all with
      | [] => all
      | d :: more =>
          let e := N.of_nat (length all - 1) in
          d :: (match more with [] => [] | _ => 46%N :: more end)
            ++ [101%N; 43%N] ++ digits (S (N.to_nat (N.log2 e))) e []
      end in
  if (z <? 0)%Z then 45%N :: body else body.

(* ================================================================= *)
(** ** JavaScript values *)

Definition Ref := N.

(** Numbers are the integers (no fractions, no NaN), each standing for
    the number that JavaScript prints with its digits: every integer
    below 2^53, and beyond it the integers whose decimal digits, up to
    the zeros they end in, are the shortest that identify a double.
    Functions are not values of this model, closures are passed as Rocq
    functions. *)
Inductive JsVal : Type :=
| JUndefined
| JNull
| JBool (b : bool)
| JNum (n : Z)
| JStr (s : jsstring)
| JObj (r : Ref) (props : list (jsstring * JsVal))
| JArr (r : Ref) (elems : list JsVal)
| JError (r : Ref) (name message : jsstring)
| JMutationError (r : Ref) (message : jsstring)
                 (context originalError : JsVal).

Inductive JsType := TUndefined | TObject | TBoolean | TNumber | TString.

Definition typeof (v : JsVal) : JsType :=
  match v with
  | JUndefined => TUndefined
  | JNull => TObject
  | JBool _ => TBoolean
  | JNum _ => TNumber
  | JStr _ => TString
  | JObj _ _ | JArr _ _ | JError _ _ _ | JMutationError _ _ _ _ => TObject
  end.

Definition is_object_type (v : JsVal) : bool :=
  match typeof v with TObject => true | _ => false end.

Definition is_string_type (v : JsVal) : bool :=
  match typeof v with TString => true | _ => false end.

(** ToBoolean *)
Definition truthy (v : JsVal) : bool :=
  match v with
  | JUndefined | JNull => false
  | JBool b => b
  | JNum n => negb (n =? 0)%Z
  | JStr s => match s with [] => false | _ => true end
  | _ => true
  end.

Definition ref_of (v : JsVal) : option Ref :=
  match v with
  | JObj r _ | JArr r _ | JError r _ _ | JMutationError r _ _ _ => Some r
  | _ => None
  end.

(** [a === b]: primitives by value, objects by address. *)
Definition strict_eq (a b : JsVal) : bool :=
  match a, b with
  | JUndefined, JUndefined => true
  | JNull, JNull => true
  | JBool x, JBool y => Bool.eqb x y
  | JNum x, JNum y => (x =? y)%Z
  | JStr x, JStr y => str_eqb x y
  | _, _ =>
      match ref_of a, ref_of b with
      | Some r, Some r' => (r =? r')%N
      | _, _ => false
      end
  end.

(** [a == null] *)
Definition is_nullish (v : JsVal) : bool :=
  match v with JUndefined | JNull => true | _ => false end.

Fixpoint lookup (name : jsstring) (props : list (jsstring * JsVal))
  : option JsVal :=
  match props with
  | [] => None
  | (k, v) :: rest => if str_eqb k name then Some v else lookup name rest
  end.

(** [v.name] on a non-nullish value, for the properties this library
    reads. *)
Definition get_prop (v : JsVal) (name : jsstring) : JsVal :=
  match v with
  | JObj _ props =>
      match lookup name props with Some x => x | None => JUndefined end
  | JError _ n m =>
      if str_eqb name (lit "name") then JStr n
      else if str_eqb name (lit "message") then JStr m
      else JUndefined
  | JMutationError _ m ctx orig =>
      if str_eqb name (lit "name") then JStr (lit "MutationError")
      else if str_eqb name (lit "message") then JStr m
      else if str_eqb name (lit "context") then ctx
      else if str_eqb name (lit "originalError") then orig
      else JUndefined
  | _ => JUndefined
  end.

(** [v?.name] *)
Definition opt_prop (v : JsVal) (name : jsstring) : JsVal :=
  if is_nullish v then JUndefined else get_prop v name.

(** [a || b], [a ?? b] *)
Definition js_or (a b : JsVal) : JsVal := if truthy a then a else b.
Definition js_nullish_or (a b : JsVal) : JsVal :=
  if is_nullish a then b else a.

(** [err instanceof Error] *)
Definition instanceof_Error (v : JsVal) : bool :=
  match v with
  | JError _ _ _ | JMutationError _ _ _ _ => true
  | _ => false
  end.

(** [list.join(sep)] on strings. *)
Fixpoint join (sep : jsstring) (l : list jsstring) : jsstring :=
  match l with
  | [] => []
  | [x] => x
  | x :: rest => x ++ sep ++ join sep rest
  end.

(** ToString, as used by [String(v)] and template literals.  Array
    elements that are null or undefined render as the empty string. *)
Fixpoint to_string (v : JsVal) : jsstring :=
  match v with
  | JUndefined => lit "undefined"
  | JNull => lit "null"
  | JBool true => lit "true"
  | JBool false => lit "false"
  | JNum n => Z_to_string n
  | JStr s => s
  | JObj _ _ => lit "[object Object]"
  | JArr _ elems =>
      join (lit ",")
        (map (fun e => if is_nullish e then [] else to_string e) elems)
  | JError _ n m =>
      match n, m with
      | [], _ => m
      | _, [] => n
      | _, _ => n ++ lit ": " ++ m
      end
  | JMutationError _ m _ _ =>
      match m with
      | [] => lit "MutationError"
      | _ => lit "MutationError: " ++ m
      end
  end.

(* ================================================================= *)
(** ** Computations: state passing with exceptions *)

Inductive Outcome (A : Type) : Type :=
| Ok (a : A)
| Throw (e : JsVal).
Arguments Ok {A} a.
Arguments Throw {A} e.

Definition Comp (S A : Type) : Type := S -> Outcome A * S.

Definition ret {S A} (a : A) : Comp S A := fun s => (Ok a, s).

Definition throw {S A} (e : JsVal) : Comp S A := fun s => (Throw e, s).

Definition bind {S A B} (c : Comp S A) (k : A -> Comp S B) : Comp S B :=
  fun s =>
    match c s with
    | (Ok a, s') => k a s'
    | (Throw e, s') => (Throw e, s')
    end.

(** [try { c } catch (e) { h e }] *)
Definition try_catch {S A} (c : Comp S A) (h : JsVal -> Comp S A)
  : Comp S A :=
  fun s =>
    match c s with
    | (Ok a, s') => (Ok a, s')
    | (Throw e, s') => h e s'
    end.

(** [try { c } finally { f }], for a [finally] block that does not
    return. *)
Definition try_finally {S A} (c : Comp S A) (f : Comp S unit) : Comp S A :=
  fun s =>
    match c s with
    | (r, s') =>
        match f s' with
        | (Ok _, s'') => (r, s'')
        | (Throw e, s'') => (Throw e, s'')
        end
    end.

Declare Scope comp_scope.
Delimit Scope comp_scope with comp.
Notation "x <- c ;; k" := (bind c (fun x => k))
  (at level 61, c at next level, right associativity) : comp_scope.
Notation "c ;;; k" := (bind c (fun _ => k))
  (at level 61, right associativity) : comp_scope.
Open Scope comp_scope.

(** The allocator: the state of code that only creates objects is the
    next free address. *)
Definition H (A : Type) : Type := Comp Ref A.

Definition alloc : H Ref := fun h => (Ok h, N.succ h).

Definition new_object (props : list (jsstring * JsVal)) : H JsVal :=
  r <- alloc ;; ret (JObj r props).

Definition new_Error (name message : jsstring) : H JsVal :=
  r <- alloc ;; ret (JError r name message).

(** ["name" in v]: a TypeError when [v] is not an object. *)
Definition js_in (name : jsstring) (v : JsVal) : H bool :=
  match v with
  | JObj _ props =>
      ret (match lookup name props with Some _ => true | None => false end)
  | JArr _ _ => ret (str_eqb name (lit "length"))
  | JError _ _ _ =>
      ret (str_eqb name (lit "name") || str_eqb name (lit "message")
           || str_eqb name (lit "stack"))
  | JMutationError _ _ _ _ =>
      ret (str_eqb name (lit "name") || str_eqb name (lit "message")
           || str_eqb name (lit "stack") || str_eqb name (lit "context")
           || str_eqb name (lit "originalError"))
  | _ =>
      e <- new_Error (lit "TypeError")
             (lit "Cannot use 'in' operator to search for a key") ;;
      throw e
  end.

(* ================================================================= *)
(** ** Regular expressions: a backtracking matcher

    The three key patterns are regular-expression literals.  They are
    translated constructor by constructor into [Regex] and run by a
    backtracking matcher with the priorities of the JavaScript engine:
    alternatives left to right, [*] greedy, an iteration of [*] must
    consume input.  There is one capturing group; none of the patterns
    puts it under a [*]. *)

Inductive Regex : Type :=
| RLit (l : jsstring)
| RClass (p : N -> bool)
| RSeq (a b : Regex)
| RAlt (a b : Regex)
| RStar (a : Regex)
| RGroup (a : Regex).

(** A continuation receives the remaining input and the capture. *)
Definition Cont (R : Type) : Type := jsstring -> option jsstring -> option R.

Fixpoint star_loop {R}
         (step : jsstring -> option jsstring -> Cont R -> option R)
         (k : Cont R) (fuel : nat) (s : jsstring) (cap : option jsstring)
  : option R :=
  match fuel with
  | O => k s cap
  | S fuel' =>
      match step s cap
              (fun s' cap' =>
                 if (length s' <? length s)%nat
                 then star_loop step k fuel' s' cap' else None) with
      | Some x => Some x
      | None => k s cap
      end
  end.

Fixpoint rmatch {R} (r : Regex) (s : jsstring) (cap : option jsstring)
         (k : Cont R) : option R :=
  match r with
  | RLit l =>
      match strip_prefix l s with Some s' => k s' cap | None => None end
  | RClass p =>
      match s with
      | c :: s' => if p c then k s' cap else None
      | [] => None
      end
  | RSeq a b => rmatch a s cap (fun s' cap' => rmatch b s' cap' k)
  | RAlt a b =>
      match rmatch a s cap k with
      | Some x => Some x
      | None => rmatch b s cap k
      end
  | RStar a => star_loop (rmatch a) k (length s) s cap
  | RGroup a =>
      rmatch a s cap
        (fun s' _ => k s' (Some (firstn (length s - length s') s)))
  end.

(** A match anchored at the start of [s]: the rest of the input and the
    capture. *)
Definition match_here (r : Regex) (s : jsstring)
  : option (jsstring * option jsstring) :=
  rmatch r s None (fun s' cap => Some (s', cap)).

(** [s.match(r)] for a pattern without the [g] flag: the leftmost match;
    the result is element 1 of the match array, the capture. *)
Fixpoint js_match (r : Regex) (s : jsstring) : option (option jsstring) :=
  match match_here r s with
  | Some (_, cap) => Some cap
  | None =>
      match s with
      | [] => None
      | _ :: s' => js_match r s'
      end
  end.

(** [s.replace(r, "$1")] for a pattern with the [g] flag: every match,
    left to right, is replaced by its capture. *)
Fixpoint replace_loop (fuel : nat) (r : Regex) (s : jsstring) : jsstring :=
  match fuel with
  | O => s
  | S fuel' =>
      match s with
      | [] => []
      | c :: s' =>
          match match_here r s with
          | Some (rest, cap) =>
              let out := match cap with Some x => x | None => [] end in
              if (length rest <? length s)%nat
              then out ++ replace_loop fuel' r rest
              else out ++ c :: replace_loop fuel' r s'
          | None => c :: replace_loop fuel' r s'
          end
      end
  end.

Definition replace_dollar1 (r : Regex) (s : jsstring) : jsstring :=
  replace_loop (length s) r s.

(** The character classes of the patterns. *)
Definition not_quote_or_backslash (c : N) : bool :=
  negb (N.eqb c dq) && negb (N.eqb c bslash).

(** [.] : anything but a line terminator. *)
Definition dot (c : N) : bool :=
  negb (N.eqb c 10) && negb (N.eqb c 13)
  && negb (N.eqb c 8232) && negb (N.eqb c 8233).

(** The quoted segment shared by the three patterns: a capturing group
    around a greedy repetition of either one character that is neither a
    quote nor a backslash, or a backslash followed by any character that
    [.] accepts; then the closing quote. *)
Definition quoted_body : Regex :=
  RSeq
    (RGroup
       (RStar (RAlt (RClass not_quote_or_backslash)
                    (RSeq (RLit [bslash]) (RClass dot)))))
    (RLit [dq]).

Definition ID_PATTERN : Regex := RSeq (RLit (lit "#id:" ++ [dq])) quoted_body.
Definition GROUP_PATTERN : Regex :=
  RSeq (RLit (lit "group:" ++ [dq])) quoted_body.
Definition DATA_PATTERN : Regex :=
  RSeq (RLit (lit "data:" ++ [dq])) quoted_body.

(** The pattern of unescapeString: a backslash, then one captured
    character accepted by [.]; used with the g flag. *)
Definition ESCAPE_PATTERN : Regex :=
  RSeq (RLit [bslash]) (RGroup (RClass dot)).

Definition unescapeString (str : jsstring) : jsstring :=
  replace_dollar1 ESCAPE_PATTERN str.

(* ================================================================= *)
(** ** extractSWRKey *)

Definition TypeError (msg : string) : H JsVal :=
  new_Error (lit "TypeError") (lit msg).

(** [unescapeString(m[1])]: calling [replace] on an absent capture is a
    TypeError. *)
Definition unescape_capture (cap : option jsstring) : H JsVal :=
  match cap with
  | Some c => ret (JStr (unescapeString c))
  | None =>
      e <- TypeError "Cannot read properties of undefined" ;; throw e
  end.

Definition tryCurrentFormat (key : jsstring) : H JsVal :=
  if negb (startsWith key (lit "#id:")) then ret JNull
  else
    match js_match ID_PATTERN key with
    | None => ret JNull
    | Some idCap =>
        let groupMatch := js_match GROUP_PATTERN key in
        let dataMatch := js_match DATA_PATTERN key in
        id <- unescape_capture idCap ;;
        group <- match groupMatch with
                 | Some c => unescape_capture c
                 | None => ret JUndefined
                 end ;;
        data <- match dataMatch with
                | Some c => unescape_capture c
                | None => ret JUndefined
                end ;;
        new_object [(lit "id", id); (lit "group", group); (lit "data", data)]
    end.

(** What the library takes from its environment: the JavaScript host's
    [JSON.parse] and [JSON.stringify] (each may allocate and may throw),
    and the serializer by which the external cache indexes its entries
    (a key that serializes to the empty string is ignored by the cache). *)
Record Host : Type := {
  JSON_parse : jsstring -> H JsVal;
  JSON_stringify : JsVal -> H JsVal;
  unstable_serialize : JsVal -> jsstring
}.

Section Codec.

Variable host : Host.

Definition tryJSONFormat (key : jsstring) : H JsVal :=
  try_catch
    (parsed <- JSON_parse host key ;;
     if truthy parsed && is_object_type parsed then
       has <- js_in (lit "id") parsed ;;
       if has then ret parsed else ret JNull
     else ret JNull)
    (fun _ => ret JNull).

Definition extractSWRKey (cacheKey : JsVal) : H JsVal :=
  direct <- (if is_object_type cacheKey
                && negb (strict_eq cacheKey JNull)
             then js_in (lit "id") cacheKey
             else ret false) ;;
  if direct then ret cacheKey
  else
    match cacheKey with
    | JStr s =>
        currentFormat <- tryCurrentFormat s ;;
        if truthy currentFormat then ret currentFormat
        else
          jsonFormat <- tryJSONFormat s ;;
          if truthy jsonFormat then ret jsonFormat else ret JNull
    | _ => ret JNull
    end.

(* =============================================================== *)
(** ** deepEqual *)

Definition deepEqual (a b : JsVal) : H bool :=
  if strict_eq a b then ret true
  else if is_nullish a || is_nullish b then ret (strict_eq a b)
  else if negb (is_object_type a) || negb (is_object_type b)
  then ret false
  else
    try_catch
      (sa <- JSON_stringify host a ;;
       sb <- JSON_stringify host b ;;
       ret (strict_eq sa sb))
      (fun _ => ret false).

End Codec.

(* ================================================================= *)
(** ** The world of one hook instance

    The external cache (a store from serialized keys to the original key
    and its data), the record of the calls made to the cache's [mutate]
    and to the remote function, the clock, the allocator, and the React
    state of the hook: the mounted flag, [isMutating], [error] and the
    ref cell of [useStableKey]. *)

Inductive MutateTarget : Type :=
| ByKey (key : JsVal)
| ByFilter (matcher : JsVal -> H bool).

Inductive MutateData : Type :=
| DataValue (v : JsVal)
| DataUpdater (f : JsVal -> JsVal).

Record MutateCall : Type := {
  mc_target : MutateTarget;
  mc_data : MutateData;
  mc_options : JsVal
}.

Record CacheEntry : Type := {
  ce_index : jsstring;
  ce_key : JsVal;
  ce_data : JsVal
}.

Record World : Type := {
  heap : Ref;
  clock : Z;
  cache : list CacheEntry;
  mutateFault : MutateCall -> option JsVal;
  mutateLog : list MutateCall;
  remoteLog : list (list JsVal);
  isMounted : bool;
  isMutating : bool;
  error : JsVal;
  stableKeyRef : JsVal
}.

Definition M (A : Type) : Type := Comp World A.

Definition with_heap (h : Ref) (w : World) : World :=
  {| heap := h; clock := clock w; cache := cache w;
     mutateFault := mutateFault w; mutateLog := mutateLog w;
     remoteLog := remoteLog w; isMounted := isMounted w;
     isMutating := isMutating w; error := error w;
     stableKeyRef := stableKeyRef w |}.

Definition with_cache (c : list CacheEntry) (w : World) : World :=
  {| heap := heap w; clock := clock w; cache := c;
     mutateFault := mutateFault w; mutateLog := mutateLog w;
     remoteLog := remoteLog w; isMounted := isMounted w;
     isMutating := isMutating w; error := error w;
     stableKeyRef := stableKeyRef w |}.

Definition with_mutateLog (l : list MutateCall) (w : World) : World :=
  {| heap := heap w; clock := clock w; cache := cache w;
     mutateFault := mutateFault w; mutateLog := l;
     remoteLog := remoteLog w; isMounted := isMounted w;
     isMutating := isMutating w; error := error w;
     stableKeyRef := stableKeyRef w |}.

Definition with_remoteLog (l : list (list JsVal)) (w : World) : World :=
  {| heap := heap w; clock := clock w; cache := cache w;
     mutateFault := mutateFault w; mutateLog := mutateLog w;
     remoteLog := l; isMounted := isMounted w;
     isMutating := isMutating w; error := error w;
     stableKeyRef := stableKeyRef w |}.

Definition with_isMounted (b : bool) (w : World) : World :=
  {| heap := heap w; clock := clock w; cache := cache w;
     mutateFault := mutateFault w; mutateLog := mutateLog w;
     remoteLog := remoteLog w; isMounted := b;
     isMutating := isMutating w; error := error w;
     stableKeyRef := stableKeyRef w |}.

Definition with_isMutating (b : bool) (w : World) : World :=
  {| heap := heap w; clock := clock w; cache := cache w;
     mutateFault := mutateFault w; mutateLog := mutateLog w;
     remoteLog := remoteLog w; isMounted := isMounted w;
     isMutating := b; error := error w;
     stableKeyRef := stableKeyRef w |}.

Definition with_error (e : JsVal) (w : World) : World :=
  {| heap := heap w; clock := clock w; cache := cache w;
     mutateFault := mutateFault w; mutateLog := mutateLog w;
     remoteLog := remoteLog w; isMounted := isMounted w;
     isMutating := isMutating w; error := e;
     stableKeyRef := stableKeyRef w |}.

Definition with_stableKeyRef (k : JsVal) (w : World) : World :=
  {| heap := heap w; clock := clock w; cache := cache w;
     mutateFault := mutateFault w; mutateLog := mutateLog w;
     remoteLog := remoteLog w; isMounted := isMounted w;
     isMutating := isMutating w; error := error w;
     stableKeyRef := k |}.

Definition gets {A} (f : World -> A) : M A := fun w => (Ok (f w), w).
Definition modify (f : World -> World) : M unit := fun w => (Ok tt, f w).

(** Run allocating code on the world's heap. *)
Definition liftH {A} (c : H A) : M A :=
  fun w => match c (heap w) with (r, h') => (r, with_heap h' w) end.

Definition setIsMutating (b : bool) : M unit := modify (with_isMutating b).
Definition setError (e : JsVal) : M unit := modify (with_error e).

(** [Date.now()] *)
Definition Date_now : M JsVal := gets (fun w => JNum (clock w)).

(* ================================================================= *)
(** ** The external cache and its [mutate]

    The store is a map from strings, the serialized keys.  An entry holds
    its data and the original key, which the useSWR hook that reads the
    entry records there; an entry that only [mutate] has written has no
    original key.

    This library always calls [mutate(target, data, options)] with its
    three arguments.  The call is recorded; it rejects when the
    environment makes it fail, and otherwise writes [data], undefined
    included, to the entry of a key, or to every entry whose original
    key the matcher accepts, unless the options turn [populateCache]
    off.  The revalidation that the call then starts (unless
    [revalidate] is false) is not awaited: when the call returns the
    store is as the write left it.  No caller looks at the value the
    call resolves to, which is left out. *)

Definition find_entry (i : jsstring) (c : list CacheEntry)
  : option CacheEntry :=
  find (fun e => str_eqb (ce_index e) i) c.

Definition next_data (d : MutateData) (current : JsVal) : JsVal :=
  match d with
  | DataValue v => v
  | DataUpdater f => f current
  end.

Fixpoint write_entry (i : jsstring) (d : MutateData)
         (c : list CacheEntry) : list CacheEntry :=
  match c with
  | [] => [{| ce_index := i; ce_key := JUndefined;
              ce_data := next_data d JUndefined |}]
  | e :: c' =>
      if str_eqb (ce_index e) i
      then {| ce_index := i; ce_key := ce_key e;
              ce_data := next_data d (ce_data e) |} :: c'
      else e :: write_entry i d c'
  end.

(** The entries of useSWRInfinite and of useSWRSubscription, which a
    call with a filter passes over. *)
Definition special_index (i : jsstring) : bool :=
  startsWith i (lit "$inf$") || startsWith i (lit "$sub$").

(** The matcher is run on the original key of every entry but the
    special ones; the entries it accepts are written when the call
    writes at all. *)
Fixpoint write_matching (matcher : JsVal -> H bool) (writes : bool)
         (d : MutateData) (c : list CacheEntry) : H (list CacheEntry) :=
  match c with
  | [] => ret []
  | e :: c' =>
      hit <- (if special_index (ce_index e) then ret false
              else matcher (ce_key e)) ;;
      rest <- write_matching matcher writes d c' ;;
      ret ((if hit && writes
            then {| ce_index := ce_index e; ce_key := ce_key e;
                    ce_data := next_data d (ce_data e) |}
            else e) :: rest)
  end.

(** The third argument is a boolean, which stands for the [revalidate]
    option alone, or an options object; [populateCache] is on unless
    the object has the property with a falsy value. *)
Definition populates (options : JsVal) : bool :=
  match options with
  | JObj _ props =>
      match lookup (lit "populateCache") props with
      | Some v => truthy v
      | None => true
      end
  | _ => true
  end.

Definition when (b : bool) (c : M unit) : M unit :=
  if b then c else ret tt.

Section Library.

Variable host : Host.

Definition mutate (call : MutateCall) : M JsVal :=
  modify (fun w => with_mutateLog (mutateLog w ++ [call]) w) ;;;
  fault <- gets (fun w => mutateFault w call) ;;
  match fault with
  | Some e => throw e
  | None =>
      let writes := populates (mc_options call) in
      match mc_target call with
      | ByKey k =>
          match unstable_serialize host k with
          | [] => ret tt
          | i =>
              when writes
                (modify (fun w =>
                   with_cache (write_entry i (mc_data call) (cache w)) w))
          end
      | ByFilter matcher =>
          c <- gets cache ;;
          c' <- liftH (write_matching matcher writes (mc_data call) c) ;;
          modify (with_cache c')
      end ;;;
      ret JUndefined
  end.

(** [cache.get(key)]: the store finds an entry under a key that is the
    same value as its index, a string; no other value is serialized on
    the way in, so that an object finds nothing. *)
Definition cache_get (key : JsVal) : M (option CacheEntry) :=
  gets (fun w => match key with
                 | JStr i => find_entry i (cache w)
                 | _ => None
                 end).

Definition swrGetCache (key : JsVal) : M (option CacheEntry) :=
  if negb (truthy key) then ret None else cache_get key.

Definition swrMutate (key data shouldRevalidate : JsVal) : M JsVal :=
  mutate {| mc_target := ByKey key; mc_data := DataValue data;
            mc_options := shouldRevalidate |}.

(* =============================================================== *)
(** ** useStableKey *)

(** [a && b] *)
Definition js_and (a b : JsVal) : JsVal := if truthy a then b else a.

Definition useStableKey (key : JsVal) : M JsVal :=
  let id := opt_prop key (lit "id") in
  let group := opt_prop key (lit "group") in
  let data := opt_prop key (lit "data") in
  if negb (truthy key) then
    modify (with_stableKeyRef JNull) ;;; gets stableKeyRef
  else if negb (truthy (js_and id data)) then
    modify (with_stableKeyRef JNull) ;;; gets stableKeyRef
  else
    currentKey <- gets stableKeyRef ;;
    changed <-
      (if negb (truthy currentKey) then ret true
       else if negb (strict_eq (get_prop currentKey (lit "id")) id)
       then ret true
       else if negb (strict_eq (get_prop currentKey (lit "group")) group)
       then ret true
       else
         same <- liftH (deepEqual host
                          (get_prop currentKey (lit "data")) data) ;;
         ret (negb same)) ;;
    (if changed : bool then
       fresh <- liftH (new_object [(lit "id", id); (lit "group", group);
                                   (lit "data", data)]) ;;
       modify (with_stableKeyRef fresh)
     else ret tt) ;;;
    gets stableKeyRef.

(* =============================================================== *)
(** ** MutationError *)

Inductive MutationOperation := OpCreate | OpUpdate | OpDelete.

Definition operation_name (op : MutationOperation) : jsstring :=
  match op with
  | OpCreate => lit "create"
  | OpUpdate => lit "update"
  | OpDelete => lit "delete"
  end.

(** [new MutationError(message, context, originalError)] *)
Definition new_MutationError (message : jsstring)
           (context originalError : JsVal) : H JsVal :=
  r <- alloc ;; ret (JMutationError r message context originalError).

Fixpoint set_prop (name : jsstring) (v : JsVal)
         (props : list (jsstring * JsVal)) : list (jsstring * JsVal) :=
  match props with
  | [] => [(name, v)]
  | (k, x) :: rest =>
      if str_eqb k name then (k, v) :: rest
      else (k, x) :: set_prop name v rest
  end.

(** The properties of an object literal after [...source]: the own
    properties of a plain object are copied in order; null and
    undefined contribute nothing. *)
Definition spread (props : list (jsstring * JsVal)) (source : JsVal)
  : list (jsstring * JsVal) :=
  match source with
  | JObj _ extra =>
      fold_left (fun acc kv => set_prop (fst kv) (snd kv) acc) extra props
  | _ => props
  end.

(** The [this.context] destructuring of getUserMessage fails on a
    nullish context. *)
Definition getUserMessage (this : JsVal) : H JsVal :=
  let context := get_prop this (lit "context") in
  if is_nullish context then
    e <- TypeError "Cannot destructure property of context" ;; throw e
  else
    let operation := get_prop context (lit "operation") in
    let key := get_prop context (lit "key") in
    let resource := js_or (opt_prop key (lit "id")) (JStr (lit "resource")) in
    table <- new_object [(lit "create", JStr (lit "add"));
                         (lit "update", JStr (lit "update"));
                         (lit "delete", JStr (lit "delete"))] ;;
    let operationText := get_prop table (to_string operation) in
    ret (JStr (lit "Failed to " ++ to_string operationText ++ lit " "
               ++ to_string resource ++ lit ". Please try again.")).

(** [err instanceof Error ? err.message : String(err)] *)
Definition error_text (err : JsVal) : jsstring :=
  if instanceof_Error err then to_string (get_prop err (lit "message"))
  else to_string err.

Definition createMutationError (operation : MutationOperation)
           (stableKey err additionalContext : JsVal) : M JsVal :=
  let resource := js_or (opt_prop stableKey (lit "id"))
                        (JStr (lit "unknown")) in
  let idPart :=
    if truthy (opt_prop additionalContext (lit "id"))
    then lit " with ID " ++ to_string (get_prop additionalContext (lit "id"))
    else [] in
  let message :=
    lit "Failed to " ++ operation_name operation ++ lit " resource "
    ++ [dq] ++ to_string resource ++ [dq] ++ idPart ++ lit ". "
    ++ error_text err in
  timestamp <- Date_now ;;
  context <- liftH (new_object
               (set_prop (lit "timestamp") timestamp
                  (spread [(lit "operation",
                            JStr (operation_name operation));
                           (lit "key", stableKey)] additionalContext))) ;;
  liftH (new_MutationError message context err).

(* =============================================================== *)
(** ** Optimistic update and rollback *)

Definition applyOptimisticUpdate (stableKey data : JsVal)
           (optimisticUpdateFn : JsVal -> JsVal -> JsVal) : M JsVal :=
  entry <- swrGetCache stableKey ;;
  let originalData :=
    match entry with Some e => ce_data e | None => JUndefined end in
  let optimisticData := optimisticUpdateFn originalData data in
  swrMutate stableKey optimisticData (JBool false) ;;;
  ret originalData.

Definition rollbackOptimisticUpdate (stableKey originalData : JsVal)
  : M unit :=
  swrMutate stableKey originalData (JBool false) ;;; ret tt.

(* =============================================================== *)
(** ** executeMutation

    The options object is taken apart into its fields; [mutationFn] is
    the computation that awaiting its promise runs, [onError] the
    callback of the caller. *)

Definition executeMutation (mutationFn : M JsVal) (stableKey : JsVal)
           (shouldRollback : bool) (originalData : JsVal)
           (onError : JsVal -> M unit) : M JsVal :=
  try_catch
    (result <- mutationFn ;;
     swrMutate stableKey JUndefined JUndefined ;;;
     ret result)
    (fun err =>
       when (shouldRollback && negb (strict_eq originalData JUndefined))
            (rollbackOptimisticUpdate stableKey originalData) ;;;
       onError err ;;;
       throw err).

(* =============================================================== *)
(** ** The mutation hooks

    The remote function is the caller's: what it answers is given by
    its reply, a fulfilment or a rejection; the component may be torn
    down while the call is pending.  The optimistic transform is a
    pure total function. *)

Record RemoteReply : Type := {
  reply : Outcome JsVal;
  unmounts : bool
}.

Definition Remote : Type := list JsVal -> RemoteReply.

Definition call_remote (f : Remote) (args : list JsVal) : M JsVal :=
  fun w =>
    let r := f args in
    let w1 := with_remoteLog (remoteLog w ++ [args]) w in
    (reply r, if unmounts r then with_isMounted false w1 else w1).

Record MutateOptions : Type := {
  optimisticUpdate : option (JsVal -> JsVal -> JsVal);
  rollbackOnError : option bool
}.

(** [rollbackOnError = true] in the destructuring of the options. *)
Definition rollback_enabled (options : MutateOptions) : bool :=
  match rollbackOnError options with Some b => b | None => true end.

Definition is_some {A} (o : option A) : bool :=
  match o with Some _ => true | None => false end.

Definition useSWRCreate_trigger (stableKey : JsVal)
           (createFunction : Remote) (options : MutateOptions)
           (data : JsVal) : M JsVal :=
  mounted <- gets isMounted ;;
  if negb mounted then ret JUndefined
  else
    setIsMutating true ;;;
    setError JNull ;;;
    originalData <-
      match optimisticUpdate options with
      | Some f => applyOptimisticUpdate stableKey data f
      | None => ret JUndefined
      end ;;
    try_finally
      (try_catch
         (newData <- call_remote createFunction [data] ;;
          mounted <- gets isMounted ;;
          if negb mounted then ret newData
          else swrMutate stableKey JUndefined JUndefined ;;; ret newData)
         (fun err =>
            when (rollback_enabled options
                  && is_some (optimisticUpdate options))
                 (rollbackOptimisticUpdate stableKey originalData) ;;;
            extra <- liftH (new_object [(lit "data", data)]) ;;
            mutationError <-
              createMutationError OpCreate stableKey err extra ;;
            mounted <- gets isMounted ;;
            when mounted (setError mutationError) ;;;
            throw mutationError))
      (mounted <- gets isMounted ;; when mounted (setIsMutating false)).

Definition useSWRUpdate_trigger (stableKey : JsVal)
           (updateFunction : Remote) (options : MutateOptions)
           (id data : JsVal) : M JsVal :=
  mounted <- gets isMounted ;;
  if negb mounted then ret JUndefined
  else
    setIsMutating true ;;;
    setError JNull ;;;
    originalData <-
      match optimisticUpdate options with
      | Some f =>
          payload <- liftH (new_object [(lit "id", id);
                                        (lit "data", data)]) ;;
          applyOptimisticUpdate stableKey payload f
      | None => ret JUndefined
      end ;;
    try_finally
      (try_catch
         (newData <- call_remote updateFunction [id; data] ;;
          mounted <- gets isMounted ;;
          if negb mounted then ret newData
          else swrMutate stableKey JUndefined JUndefined ;;; ret newData)
         (fun err =>
            when (rollback_enabled options
                  && is_some (optimisticUpdate options))
                 (rollbackOptimisticUpdate stableKey originalData) ;;;
            extra <- liftH (new_object [(lit "data", data);
                                        (lit "id", id)]) ;;
            mutationError <-
              createMutationError OpUpdate stableKey err extra ;;
            mounted <- gets isMounted ;;
            when mounted (setError mutationError) ;;;
            throw mutationError))
      (mounted <- gets isMounted ;; when mounted (setIsMutating false)).

Definition useSWRDelete_trigger (stableKey : JsVal)
           (deleteFunction : Remote) (options : MutateOptions)
           (id : JsVal) : M JsVal :=
  mounted <- gets isMounted ;;
  if negb mounted then ret JUndefined
  else
    setIsMutating true ;;;
    setError JNull ;;;
    originalData <-
      match optimisticUpdate options with
      | Some f => applyOptimisticUpdate stableKey id f
      | None => ret JUndefined
      end ;;
    try_finally
      (try_catch
         (result <- call_remote deleteFunction [id] ;;
          mounted <- gets isMounted ;;
          if negb mounted then ret result
          else swrMutate stableKey JUndefined JUndefined ;;; ret result)
         (fun err =>
            when (rollback_enabled options
                  && is_some (optimisticUpdate options))
                 (rollbackOptimisticUpdate stableKey originalData) ;;;
            extra <- liftH (new_object [(lit "id", id)]) ;;
            mutationError <-
              createMutationError OpDelete stableKey err extra ;;
            mounted <- gets isMounted ;;
            when mounted (setError mutationError) ;;;
            throw mutationError))
      (mounted <- gets isMounted ;; when mounted (setIsMutating false)).

(* =============================================================== *)
(** ** Batch invalidation *)

(** [list.includes(v)] on a list of strings. *)
Definition includes (l : list jsstring) (v : JsVal) : bool :=
  existsb (fun s => strict_eq (JStr s) v) l.

Definition idMatcher (idList : list jsstring) (cacheKey : JsVal) : H bool :=
  extractedKey <- extractSWRKey host cacheKey ;;
  if truthy extractedKey
  then ret (includes idList (opt_prop extractedKey (lit "id")))
  else ret false.

Definition groupMatcher (groups : list jsstring) (key : JsVal) : H bool :=
  extracted <- extractSWRKey host key ;;
  if truthy (opt_prop extracted (lit "group"))
  then ret (includes groups (get_prop extracted (lit "group")))
  else ret false.

(** [newData ? () => newData : undefined] *)
Definition updaterFor (newData : JsVal) : MutateData :=
  if truthy newData then DataUpdater (fun _ => newData)
  else DataValue JUndefined.

(** [{ revalidate: options?.revalidate ?? !newData, ...options }] *)
Definition batchOptions (newData options : JsVal) : H JsVal :=
  new_object
    (spread [(lit "revalidate",
              js_nullish_or (opt_prop options (lit "revalidate"))
                            (JBool (negb (truthy newData))))]
            options).

Definition batchError (operation : MutationOperation) (message : jsstring)
           (extra : list (jsstring * JsVal)) (cause : JsVal) : M JsVal :=
  timestamp <- Date_now ;;
  context <- liftH (new_object
               ([(lit "operation", JStr (operation_name operation));
                 (lit "key", JNull)] ++ extra
                ++ [(lit "timestamp", timestamp)])) ;;
  liftH (new_MutationError message context cause).

Definition mutateById (ids : jsstring + list jsstring)
           (newData options : JsVal) : M JsVal :=
  let idList := match ids with inl one => [one] | inr many => many end in
  try_catch
    (opts <- liftH (batchOptions newData options) ;;
     mutate {| mc_target := ByFilter (idMatcher idList);
               mc_data := updaterFor newData;
               mc_options := opts |} ;;;
     ret JUndefined)
    (fun error =>
       e <- batchError OpUpdate
              (lit "Failed to mutate cache by ID(s): "
               ++ join (lit ", ") idList ++ lit ". " ++ error_text error)
              [(lit "data", newData)] error ;;
       throw e).

Definition mutateByGroup (group : jsstring + list jsstring)
           (newData options : JsVal) : M JsVal :=
  let groups := match group with inl one => [one] | inr many => many end in
  try_catch
    (opts <- liftH (batchOptions newData options) ;;
     mutate {| mc_target := ByFilter (groupMatcher groups);
               mc_data := updaterFor newData;
               mc_options := opts |} ;;;
     ret JUndefined)
    (fun error =>
       e <- batchError OpUpdate
              (lit "Failed to mutate cache by group(s): "
               ++ join (lit ", ") groups ++ lit ". " ++ error_text error)
              [(lit "data", newData)] error ;;
       throw e).

(** The argument of resetCache: [string | string[] | null | undefined]. *)
Inductive CacheKeyInput : Type :=
| KeyString (s : jsstring)
| KeyArray (l : list jsstring)
| KeyNull
| KeyUndefined.

(** The default parameter [= []] and the normalisation into
    [keys : string[] | null]. *)
Definition preservedList (preservedKeys : CacheKeyInput)
  : option (list jsstring) :=
  match preservedKeys with
  | KeyUndefined => Some []
  | KeyArray l => Some l
  | KeyString s => if truthy (JStr s) then Some [s] else None
  | KeyNull => None
  end.

Definition resetMatcher (keys : option (list jsstring)) (key : JsVal)
  : H bool :=
  match keys with
  | None => ret true
  | Some l =>
      extracted <- extractSWRKey host key ;;
      if truthy extracted
      then ret (negb (includes l (get_prop extracted (lit "id"))))
      else ret true
  end.

Definition resetCache (preservedKeys : CacheKeyInput) : M JsVal :=
  let keys := preservedList preservedKeys in
  try_catch
    (mutate {| mc_target := ByFilter (resetMatcher keys);
               mc_data := DataValue JUndefined;
               mc_options := JBool false |} ;;;
     ret JUndefined)
    (fun error =>
       e <- batchError OpDelete
              (lit "Failed to reset cache"
               ++ match keys with
                  | Some l => lit " (preserving: " ++ join (lit ", ") l
                              ++ lit ")"
                  | None => []
                  end
               ++ lit ". " ++ error_text error)
              [] error ;;
       throw e).

(* =============================================================== *)
(** ** to

    A promise is the computation that awaiting it runs: it settles with
    a value or with a rejection. *)

Definition to (promise : M JsVal) : M JsVal :=
  try_catch
    (data <- promise ;;
     r <- liftH alloc ;; ret (JArr r [data; JNull]))
    (fun error =>
       r <- liftH alloc ;; ret (JArr r [JNull; error])).

End Library.

(* ================================================================= *)
(** ** A reference host

    The theorems below hold for every [Host].  To run the library on
    concrete inputs, this module gives one: a [JSON.stringify] and a
    [JSON.parse] for the values of this model (integers are the only
    numbers, object keys keep their order), and a serializer in the
    manner of the cache's stable hash. *)

Module SampleHost.

Definition hex_digit (n : N) : N :=
  if (n <? 10)%N then (48 + n)%N else (87 + n)%N.

Definition escape_char (c : N) : jsstring :=
  if N.eqb c dq then [bslash; dq]
  else if N.eqb c bslash then [bslash; bslash]
  else if N.eqb c 8 then bslash :: lit "b"
  else if N.eqb c 12 then bslash :: lit "f"
  else if N.eqb c 10 then bslash :: lit "n"
  else if N.eqb c 13 then bslash :: lit "r"
  else if N.eqb c 9 then bslash :: lit "t"
  else if (c <? 32)%N
  then bslash :: lit "u00" ++ [hex_digit (c / 16); hex_digit (c mod 16)]
  else [c].

Definition quote (s : jsstring) : jsstring :=
  [dq] ++ flat_map escape_char s ++ [dq].

(** [this.toJSON()] of a MutationError, without the stack traces. *)
Definition toJSON_props (message : jsstring) (context originalError : JsVal)
  : list (jsstring * JsVal) :=
  [(lit "name", JStr (lit "MutationError"));
   (lit "message", JStr message);
   (lit "context", context);
   (lit "originalError",
    if instanceof_Error originalError
    then JObj 0%N [(lit "name", get_prop originalError (lit "name"));
                 (lit "message", get_prop originalError (lit "message"))]
    else JStr (to_string originalError))].

(** Serialization of a value in value position; [None] stands for
    undefined, which an object omits and an array renders as null. *)
Fixpoint stringify (fuel : nat) (v : JsVal) : option jsstring :=
  match fuel with
  | O => None
  | S fuel' =>
      let member (kv : jsstring * JsVal) : list jsstring :=
        match stringify fuel' (snd kv) with
        | Some t => [quote (fst kv) ++ lit ":" ++ t]
        | None => []
        end in
      match v with
      | JUndefined => None
      | JNull => Some (lit "null")
      | JBool true => Some (lit "true")
      | JBool false => Some (lit "false")
      | JNum n => Some (Z_to_string n)
      | JStr s => Some (quote s)
      | JObj _ props =>
          Some (lit "{" ++ join (lit ",") (flat_map member props)
                ++ lit "}")
      | JArr _ elems =>
          Some (lit "[" ++
                join (lit ",")
                  (map (fun e => match stringify fuel' e with
                                 | Some t => t
                                 | None => lit "null"
                                 end) elems)
                ++ lit "]")
      | JError _ _ _ => Some (lit "{}")
      | JMutationError _ m ctx orig =>
          Some (lit "{" ++
                join (lit ",") (flat_map member (toJSON_props m ctx orig))
                ++ lit "}")
      end
  end.

(** The nesting depth of a value bounds the fuel [stringify] needs. *)
Fixpoint depth (v : JsVal) : nat :=
  match v with
  | JObj _ props =>
      S (fold_right (fun kv acc => Nat.max (depth (snd kv)) acc) 0 props)
  | JArr _ elems =>
      S (fold_right (fun e acc => Nat.max (depth e) acc) 0 elems)
  | JMutationError _ _ ctx orig => S (S (Nat.max (depth ctx) (depth orig)))
  | _ => 1
  end.

Definition JSON_stringify (v : JsVal) : H JsVal :=
  ret (match stringify (S (depth v)) v with
       | Some t => JStr t
       | None => JUndefined
       end).

(* --------------------------------------------------------------- *)

Fixpoint skip_ws (s : jsstring) : jsstring :=
  match s with
  | c :: s' =>
      if N.eqb c 32 || N.eqb c 9 || N.eqb c 10 || N.eqb c 13
      then skip_ws s' else s
  | [] => []
  end.

Definition is_digit (c : N) : bool := ((48 <=? c) && (c <=? 57))%N.

Fixpoint read_digits (s : jsstring) (acc : N) : N * jsstring :=
  match s with
  | c :: s' =>
      if is_digit c then read_digits s' (10 * acc + (c - 48))%N
      else (acc, s)
  | [] => (acc, [])
  end.

(** An integer literal; a fraction or an exponent is outside this
    model and refused. *)
Definition read_number (s : jsstring) : option (Z * jsstring) :=
  let '(neg, s1) := match s with
                    | 45%N :: r => (true, r)
                    | _ => (false, s)
                    end in
  match s1 with
  | c :: r =>
      if is_digit c then
        let '(n, rest) := if N.eqb c 48 then (0%N, r)
                          else read_digits s1 0 in
        match rest with
        | d :: _ =>
            if is_digit d || N.eqb d 46 || N.eqb d 101 || N.eqb d 69
            then None
            else Some (if neg then (- Z.of_N n)%Z else Z.of_N n, rest)
        | [] => Some (if neg then (- Z.of_N n)%Z else Z.of_N n, rest)
        end
      else None
  | [] => None
  end.

Definition hex_value (c : N) : option N :=
  if is_digit c then Some (c - 48)%N
  else if ((97 <=? c) && (c <=? 102))%N then Some (c - 87)%N
  else if ((65 <=? c) && (c <=? 70))%N then Some (c - 55)%N
  else None.

(** The characters of a string literal after its opening quote. *)
Fixpoint read_string (fuel : nat) (s acc : jsstring)
  : option (jsstring * jsstring) :=
  match fuel with
  | O => None
  | S fuel' =>
      match s with
      | [] => None
      | c :: r =>
          if N.eqb c dq then Some (rev acc, r)
          else if N.eqb c bslash then
            match r with
            | e :: r' =>
                if N.eqb e dq || N.eqb e bslash || N.eqb e 47
                then read_string fuel' r' (e :: acc)
                else if N.eqb e 98 then read_string fuel' r' (8%N :: acc)
                else if N.eqb e 102 then read_string fuel' r' (12%N :: acc)
                else if N.eqb e 110 then read_string fuel' r' (10%N :: acc)
                else if N.eqb e 114 then read_string fuel' r' (13%N :: acc)
                else if N.eqb e 116 then read_string fuel' r' (9%N :: acc)
                else if N.eqb e 117 then
                  match r' with
                  | a :: b :: c' :: d :: r'' =>
                      match hex_value a, hex_value b,
                            hex_value c', hex_value d with
                      | Some x, Some y, Some z, Some t =>
                          read_string fuel' r''
                            ((4096 * x + 256 * y + 16 * z + t)%N :: acc)
                      | _, _, _, _ => None
                      end
                  | _ => None
                  end
                else None
            | [] => None
            end
          else if (c <? 32)%N then None
          else read_string fuel' r (c :: acc)
      end
  end.

Fixpoint parse_value (fuel : nat) (s : jsstring) (h : Ref)
  : option (JsVal * jsstring * Ref) :=
  match fuel with
  | O => None
  | S fuel' =>
      match skip_ws s with
      | [] => None
      | c :: r =>
          if N.eqb c dq then
            match read_string (S (length r)) r [] with
            | Some (t, rest) => Some (JStr t, rest, h)
            | None => None
            end
          else if N.eqb c 91 then
            match skip_ws r with
            | 93%N :: rest => Some (JArr h [], rest, N.succ h)
            | _ =>
                (fix elements (n : nat) (r : jsstring) (h' : Ref)
                     (acc : list JsVal) {struct n} :=
                   match n with
                   | O => None
                   | S n' =>
                       match parse_value fuel' r h' with
                       | Some (v, r1, h1) =>
                           match skip_ws r1 with
                           | 44%N :: r2 => elements n' r2 h1 (v :: acc)
                           | 93%N :: r2 =>
                               Some (JArr h (rev (v :: acc)), r2, h1)
                           | _ => None
                           end
                       | None => None
                       end
                   end) (S (length r)) r (N.succ h) []
            end
          else if N.eqb c 123 then
            match skip_ws r with
            | 125%N :: rest => Some (JObj h [], rest, N.succ h)
            | _ =>
                (fix members (n : nat) (r : jsstring) (h' : Ref)
                     (acc : list (jsstring * JsVal)) {struct n} :=
                   match n with
                   | O => None
                   | S n' =>
                       match skip_ws r with
                       | 34%N :: r0 =>
                           match read_string (S (length r0)) r0 [] with
                           | Some (k, r1) =>
                               match skip_ws r1 with
                               | 58%N :: r2 =>
                                   match parse_value fuel' r2 h' with
                                   | Some (v, r3, h1) =>
                                       let acc' := set_prop k v acc in
                                       match skip_ws r3 with
                                       | 44%N :: r4 => members n' r4 h1 acc'
                                       | 125%N :: r4 =>
                                           Some (JObj h acc', r4, h1)
                                       | _ => None
                                       end
                                   | None => None
                                   end
                               | _ => None
                               end
                           | None => None
                           end
                       | _ => None
                       end
                   end) (S (length r)) r (N.succ h) []
            end
          else
            match strip_prefix (lit "null") (c :: r),
                  strip_prefix (lit "true") (c :: r),
                  strip_prefix (lit "false") (c :: r) with
            | Some rest, _, _ => Some (JNull, rest, h)
            | _, Some rest, _ => Some (JBool true, rest, h)
            | _, _, Some rest => Some (JBool false, rest, h)
            | _, _, _ =>
                match read_number (c :: r) with
                | Some (n, rest) => Some (JNum n, rest, h)
                | None => None
                end
            end
      end
  end.

Definition JSON_parse (text : jsstring) : H JsVal :=
  fun h =>
    match parse_value (S (length text)) text h with
    | Some (v, rest, h') =>
        match skip_ws rest with
        | [] => (Ok v, h')
        | _ => (e <- new_Error (lit "SyntaxError")
                     (lit "Unexpected non-whitespace character") ;;
                throw e) h
        end
    | None =>
        (e <- new_Error (lit "SyntaxError") (lit "Unexpected token") ;;
         throw e) h
    end.

(* --------------------------------------------------------------- *)

Fixpoint stableHash (v : JsVal) : jsstring :=
  match v with
  | JStr s => quote s
  | JObj _ props =>
      lit "#" ++
      flat_map (fun kv => if strict_eq (snd kv) JUndefined then []
                          else fst kv ++ lit ":" ++ stableHash (snd kv)
                               ++ lit ",") props
  | JArr _ elems =>
      lit "@" ++ flat_map (fun e => stableHash e ++ lit ",") elems
  | JError r _ _ | JMutationError r _ _ _ =>
      Z_to_string (Z.of_N r) ++ lit "~"
  | other => to_string other
  end.

(** A string key is its own index; a falsy key and an empty array
    have none. *)
Definition unstable_serialize (key : JsVal) : jsstring :=
  match key with
  | JStr s => s
  | JArr _ [] => []
  | _ => if truthy key then stableHash key else []
  end.

Definition host : Host :=
  Build_Host JSON_parse JSON_stringify unstable_serialize.

End SampleHost.

(* ================================================================= *)
(** * The vocabulary of the properties

    The predicates and functions in which the theorems are stated, and
    the concrete inputs on which they are run. *)

(** Every result of the continuation [k] satisfies [P]. *)
Definition yields {R : Type} (P : R -> Prop) (k : Cont R) : Prop :=
  forall s cap x, k s cap = Some x -> P x.

(** The three strategies, as the specification names them. *)
Definition direct_strategy (v : JsVal) : Prop :=
  is_object_type v = true /\ strict_eq v JNull = false
  /\ forall h, fst (js_in (lit "id") v h) = Ok true.

Definition legacy_strategy (v : JsVal) : Prop :=
  exists s, v = JStr s /\ startsWith s (lit "#id:") = true
            /\ js_match ID_PATTERN s <> None.

Definition json_strategy (host : Host) (v : JsVal) : Prop :=
  exists s h o h', v = JStr s /\ JSON_parse host s h = (Ok o, h')
                   /\ direct_strategy o.

(** One optional segment of the legacy string form, before [rest]: a
    comma, the name, a colon and the quoted value. *)
Definition segment (name : jsstring) (o : option jsstring) (rest : jsstring)
  : jsstring :=
  match o with
  | Some v => lit "," ++ name ++ lit ":" ++ [dq] ++ v ++ dq :: rest
  | None => rest
  end.

(** Modelled from the spec: the legacy serialized form of a structured
    key, which the library decodes and never produces: the marker with
    the quoted id, then the quoted group and the quoted data, each
    introduced by its name and separated by a comma; a segment that is
    absent from the key is absent from the string. *)
Definition encodeLegacy (id : jsstring) (group data : option jsstring)
  : jsstring :=
  lit "#id:" ++ [dq] ++ id ++ dq
  :: segment (lit "group") group (segment (lit "data") data []).

Definition alnum_string (s : jsstring) : Prop :=
  Forall (fun c => alnum c = true) s.

Definition alnum_segment (o : option jsstring) : Prop :=
  match o with Some s => alnum_string s | None => True end.

(** The value of an optional segment in the decoded key. *)
Definition segment_value (o : option jsstring) : JsVal :=
  match o with Some s => JStr s | None => JUndefined end.

(** [mismatch l u]: the literal [l] and the text [u] differ at a position
    that both have. *)
Fixpoint mismatch (l u : jsstring) : bool :=
  match l, u with
  | c :: l', d :: u' => if N.eqb c d then mismatch l' u' else true
  | _, _ => false
  end.

(** The literal [l] starts at no position of [pre], whatever follows
    [pre]. *)
Fixpoint starts_nowhere (l pre : jsstring) : bool :=
  match pre with
  | [] => true
  | _ :: pre' => mismatch l pre && starts_nowhere l pre'
  end.

(** The properties of a structured key object, in the order in which the
    library writes them. *)
Definition key_props (id group data : JsVal) : list (jsstring * JsVal) :=
  [(lit "id", id); (lit "group", group); (lit "data", data)].

(** The host's serializer never hands back an allocator below the one
    it was given: addresses in use stay in use. *)
Definition heap_monotone (host : Host) : Prop :=
  forall v h, (h <= snd (JSON_stringify host v h))%N.

(** What the ref cell of the hook holds between renders: null, or a key
    that the stabilizer built, with a truthy id and data, at an address
    already handed out. *)
Definition stable_ref (w : World) : Prop :=
  stableKeyRef w = JNull
  \/ exists r i g d,
       stableKeyRef w = JObj r (key_props i g d)
       /\ truthy i = true /\ truthy d = true /\ (r < heap w)%N.

(** The test the stabilizer makes: the previous key exists and has the
    id and the group of the new key, and deepEqual accepts the two
    data. *)
Definition same_key_as (host : Host) (previous key : JsVal) (h : Ref)
  : Prop :=
  truthy previous = true
  /\ strict_eq (get_prop previous (lit "id")) (opt_prop key (lit "id")) = true
  /\ strict_eq (get_prop previous (lit "group"))
               (opt_prop key (lit "group")) = true
  /\ fst (deepEqual host (get_prop previous (lit "data"))
                    (opt_prop key (lit "data")) h) = Ok true.

(** Deep equality as the specification defines it: the same reference
    or, for values that are not objects, the same value; and two
    objects, neither of them null, are deep-equal when both serialize
    and the two serializations are equal.  Nothing else is deep-equal: a
    serialization that fails makes the two objects unequal. *)
Definition deep_equal (host : Host) (a b : JsVal) (h : Ref) : Prop :=
  strict_eq a b = true
  \/ (is_nullish a = false /\ is_nullish b = false
      /\ is_object_type a = true /\ is_object_type b = true
      /\ exists sa h1 sb h2,
           JSON_stringify host a h = (Ok sa, h1)
           /\ JSON_stringify host b h1 = (Ok sb, h2)
           /\ strict_eq sa sb = true).

(** The previous key exists and has strictly equal id and group and
    deep-equal data. *)
Definition same_key (host : Host) (previous key : JsVal) (h : Ref) : Prop :=
  truthy previous = true
  /\ strict_eq (get_prop previous (lit "id")) (opt_prop key (lit "id")) = true
  /\ strict_eq (get_prop previous (lit "group"))
               (opt_prop key (lit "group")) = true
  /\ deep_equal host (get_prop previous (lit "data"))
                (opt_prop key (lit "data")) h.

(** The key is null, or its id or its data is falsy. *)
Definition unusable (key : JsVal) : Prop :=
  truthy key = false
  \/ truthy (opt_prop key (lit "id")) = false
  \/ truthy (opt_prop key (lit "data")) = false.

Definition user_verb (op : MutationOperation) : jsstring :=
  match op with
  | OpCreate => lit "add"
  | OpUpdate => lit "update"
  | OpDelete => lit "delete"
  end.

(** The message as the specification words it: the id of the key when
    it is neither null nor undefined. *)
Definition spec_user_message (op : MutationOperation) (key : JsVal)
  : jsstring :=
  lit "Failed to " ++ user_verb op ++ lit " "
  ++ to_string (js_nullish_or (opt_prop key (lit "id"))
                              (JStr (lit "resource")))
  ++ lit ". Please try again.".

(** The resource part as the method computes it: the id of the key when
    it is truthy. *)
Definition resource_text (key : JsVal) : jsstring :=
  if truthy (opt_prop key (lit "id"))
  then to_string (opt_prop key (lit "id"))
  else lit "resource".

(** A create error on a key whose id is the empty string. *)
Definition empty_id_key : JsVal :=
  JObj 1%N (key_props (JStr []) JUndefined (JStr (lit "/api/todos"))).

Definition empty_id_error : JsVal :=
  JMutationError 3%N (lit "Failed to create resource")
    (JObj 2%N [(lit "operation", JStr (lit "create"));
               (lit "key", empty_id_key);
               (lit "timestamp", JNum 1698345600000%Z)])
    (JError 0%N (lit "Error") (lit "Network request failed")).

(** A world for running examples: an empty cache that accepts every
    call, a mounted component. *)
Definition quiet_world : World :=
  {| heap := 100%N; clock := 1698345600000%Z; cache := [];
     mutateFault := fun _ => None; mutateLog := []; remoteLog := [];
     isMounted := true; isMutating := false; error := JNull;
     stableKeyRef := JNull |}.

Definition is_constant_updater (d : MutateData) (v : JsVal) : Prop :=
  match d with
  | DataUpdater f => forall current, f current = v
  | DataValue _ => False
  end.

Definition is_no_updater (d : MutateData) : Prop :=
  match d with
  | DataValue JUndefined => True
  | _ => False
  end.

(** The data and the options of the calls made to [mutate]. *)
Definition call_arguments (w : World) : list (MutateData * JsVal) :=
  map (fun call => (mc_data call, mc_options call)) (mutateLog w).

(** The ids that a call of resetCache is asked to preserve: the
    elements of an array, or the single id given as a string; null and
    undefined name none. *)
Definition preserved_ids (preservedKeys : CacheKeyInput) : list jsstring :=
  match preservedKeys with
  | KeyArray l => l
  | KeyString s => [s]
  | KeyNull | KeyUndefined => []
  end.

Definition cleared (e : CacheEntry) : CacheEntry :=
  {| ce_index := ce_index e; ce_key := ce_key e; ce_data := JUndefined |}.

(** The call resetCache makes to [mutate]. *)
Definition reset_call (host : Host) (preservedKeys : CacheKeyInput)
  : MutateCall :=
  {| mc_target := ByFilter (resetMatcher host (preservedList preservedKeys));
     mc_data := DataValue JUndefined;
     mc_options := JBool false |}.

(** The two calls a trigger makes to the cache: a write that suppresses
    revalidation (the optimistic write and the rollback), and the
    revalidation after a success. *)
Definition write_call (key data : JsVal) : MutateCall :=
  {| mc_target := ByKey key; mc_data := DataValue data;
     mc_options := JBool false |}.

Definition revalidate_call (key : JsVal) : MutateCall :=
  {| mc_target := ByKey key; mc_data := DataValue JUndefined;
     mc_options := JUndefined |}.

(** The cache accepts every write to a key that suppresses
    revalidation. *)
Definition writes_accepted (w : World) : Prop :=
  forall key data, mutateFault w (write_call key data) = None.

Definition logged (call : MutateCall) (w : World) : World :=
  with_mutateLog (mutateLog w ++ [call]) w.

(** What the hooks read for a key: the data of the entry that
    swrGetCache finds, undefined when it finds none. *)
Definition cached (w : World) (key : JsVal) : JsVal :=
  match fst (swrGetCache key w) with
  | Ok (Some e) => ce_data e
  | _ => JUndefined
  end.

(** The store after a keyed call that the cache accepts. *)
Definition cache_after (host : Host) (key : JsVal) (data : MutateData)
           (options : JsVal)
           (c : list CacheEntry) : list CacheEntry :=
  match unstable_serialize host key with
  | [] => c
  | i => if populates options then write_entry i data c else c
  end.

(** What the three triggers share: the part that follows the optimistic
    step. *)
Definition attempt (host : Host) (op : MutationOperation)
           (stableKey : JsVal)
           (remote : Remote) (args : list JsVal) (options : MutateOptions)
           (extra : list (jsstring * JsVal)) (originalData : JsVal)
  : M JsVal :=
  try_finally
    (try_catch
       (result <- call_remote remote args ;;
        mounted <- gets isMounted ;;
        if negb mounted then ret result
        else swrMutate host stableKey JUndefined JUndefined ;;; ret result)
       (fun err =>
          when (rollback_enabled options
                && is_some (optimisticUpdate options))
               (rollbackOptimisticUpdate host stableKey originalData) ;;;
          extraContext <- liftH (new_object extra) ;;
          mutationError <-
            createMutationError op stableKey err extraContext ;;
          mounted <- gets isMounted ;;
          when mounted (setError mutationError) ;;;
          throw mutationError))
    (mounted <- gets isMounted ;; when mounted (setIsMutating false)).

(** A trigger: the guard, the state updates, the optimistic step of the
    hook and the attempt. *)
Definition trigger_body (host : Host) (op : MutationOperation)
           (stableKey : JsVal)
           (remote : Remote) (args : list JsVal) (options : MutateOptions)
           (optimistic : (JsVal -> JsVal -> JsVal) -> M JsVal)
           (extra : list (jsstring * JsVal)) : M JsVal :=
  mounted <- gets isMounted ;;
  if negb mounted then ret JUndefined
  else
    setIsMutating true ;;;
    setError JNull ;;;
    originalData <-
      match optimisticUpdate options with
      | Some f => optimistic f
      | None => ret JUndefined
      end ;;
    attempt host op stableKey remote args options extra originalData.

(** The catch block of a trigger. *)
Definition on_failure (host : Host) (op : MutationOperation)
           (stableKey : JsVal)
           (options : MutateOptions) (extra : list (jsstring * JsVal))
           (originalData err : JsVal) : M JsVal :=
  when (rollback_enabled options && is_some (optimisticUpdate options))
       (rollbackOptimisticUpdate host stableKey originalData) ;;;
  extraContext <- liftH (new_object extra) ;;
  mutationError <- createMutationError op stableKey err extraContext ;;
  mounted <- gets isMounted ;;
  when mounted (setError mutationError) ;;;
  throw mutationError.

(** The context a trigger attaches to its error. *)
Definition hook_context (op : MutationOperation) (stableKey : JsVal)
           (extra : list (jsstring * JsVal)) (a : Ref) (now : Z)
  : list (jsstring * JsVal) :=
  set_prop (lit "timestamp") (JNum now)
    (spread [(lit "operation", JStr (operation_name op));
             (lit "key", stableKey)] (JObj a extra)).

Definition rolls_back (options : MutateOptions) : bool :=
  rollback_enabled options && is_some (optimisticUpdate options).

(** The error a trigger throws for a cause. *)
Definition wraps (op : MutationOperation) (stableKey : JsVal)
           (extra : list (jsstring * JsVal)) (t cause : JsVal) : Prop :=
  exists a now message,
    t = JMutationError (N.succ (N.succ a)) message
          (JObj (N.succ a) (hook_context op stableKey extra a now)) cause.

(** The cause of a failed attempt: the rejection of the remote function,
    or, after its fulfilment, the rejection of the revalidation. *)
Definition raw_cause (stableKey : JsVal) (r : RemoteReply) (w : World)
           (cause : JsVal) : Prop :=
  reply r = Throw cause
  \/ (exists v, reply r = Ok v
                /\ mutateFault w (revalidate_call stableKey) = Some cause).

(** The data a store holds for a key: the data of the entry under the
    serialized key, where [mutate] writes it. *)
Definition cached_in (host : Host) (c : list CacheEntry) (key : JsVal)
  : JsVal :=
  match find_entry (unstable_serialize host key) c with
  | Some e => ce_data e
  | None => JUndefined
  end.

(** The optimistic step of a trigger: it answers what swrGetCache found
    for the key and leaves the optimistic value in the store. *)
Definition optimistic_step (host : Host) (stableKey : JsVal)
           (optimistic : (JsVal -> JsVal -> JsVal) -> M JsVal) : Prop :=
  forall f w,
    writes_accepted w ->
    exists optimisticData w1,
      optimistic f w = (Ok (cached w stableKey), w1)
      /\ mutateFault w1 = mutateFault w
      /\ remoteLog w1 = remoteLog w
      /\ cache w1 = cache_after host stableKey (DataValue optimisticData)
                                (JBool false) (cache w).

Inductive ApiCall : Type :=
| CallCreate (stableKey : JsVal) (createFunction : Remote)
             (options : MutateOptions) (data : JsVal)
| CallUpdate (stableKey : JsVal) (updateFunction : Remote)
             (options : MutateOptions) (id data : JsVal)
| CallDelete (stableKey : JsVal) (deleteFunction : Remote)
             (options : MutateOptions) (id : JsVal)
| CallMutateById (ids : jsstring + list jsstring) (newData options : JsVal)
| CallMutateByGroup (group : jsstring + list jsstring)
                    (newData options : JsVal)
| CallResetCache (preservedKeys : CacheKeyInput).

Definition run_call (host : Host) (c : ApiCall) : M JsVal :=
  match c with
  | CallCreate k f o d => useSWRCreate_trigger host k f o d
  | CallUpdate k f o i d => useSWRUpdate_trigger host k f o i d
  | CallDelete k f o i => useSWRDelete_trigger host k f o i
  | CallMutateById ids d o => mutateById host ids d o
  | CallMutateByGroup g d o => mutateByGroup host g d o
  | CallResetCache p => resetCache host p
  end.

Definition call_operation (c : ApiCall) : MutationOperation :=
  match c with
  | CallCreate _ _ _ _ => OpCreate
  | CallUpdate _ _ _ _ _ => OpUpdate
  | CallDelete _ _ _ _ => OpDelete
  | CallMutateById _ _ _ | CallMutateByGroup _ _ _ => OpUpdate
  | CallResetCache _ => OpDelete
  end.

Definition call_key (c : ApiCall) : JsVal :=
  match c with
  | CallCreate k _ _ _ | CallUpdate k _ _ _ _ | CallDelete k _ _ _ => k
  | _ => JNull
  end.

Definition one_or_many (x : jsstring + list jsstring) : list jsstring :=
  match x with inl one => [one] | inr many => many end.

(** The call a batch function makes to [mutate], and the world it makes
    it in. *)
Definition batch_call (host : Host) (target : MutateTarget)
           (newData options : JsVal) (w : World) : MutateCall * World :=
  ({| mc_target := target; mc_data := updaterFor newData;
      mc_options := JObj (heap w)
        (spread [(lit "revalidate",
                  js_nullish_or (opt_prop options (lit "revalidate"))
                                (JBool (negb (truthy newData))))] options) |},
   with_heap (N.succ (heap w)) w).

(** The cause of a failure: for a hook, the rejection of the remote
    function or of the revalidation that follows it; for a batch
    function, the rejection of its call to [mutate]. *)
Definition failure_cause (host : Host) (c : ApiCall) (w : World)
           (cause : JsVal) : Prop :=
  let rejected (cw : MutateCall * World) :=
    fst (mutate host (fst cw) (snd cw)) = Throw cause in
  match c with
  | CallCreate k f _ d => raw_cause k (f [d]) w cause
  | CallUpdate k f _ i d => raw_cause k (f [i; d]) w cause
  | CallDelete k f _ i => raw_cause k (f [i]) w cause
  | CallMutateById ids d o =>
      rejected (batch_call host (ByFilter (idMatcher host (one_or_many ids)))
                           d o w)
  | CallMutateByGroup g d o =>
      rejected (batch_call host
                  (ByFilter (groupMatcher host (one_or_many g))) d o w)
  | CallResetCache p => rejected (reset_call host p, w)
  end.

(** The error delivered for a cause: a MutationError with the operation
    and the key in its context and the cause as originalError. *)
Definition delivers (c : ApiCall) (t cause : JsVal) : Prop :=
  exists r message context,
    t = JMutationError r message context cause
    /\ get_prop context (lit "operation")
       = JStr (operation_name (call_operation c))
    /\ get_prop context (lit "key") = call_key c.

(** A structured key, a cached list, a transform that removes an item,
    and a remote delete function that rejects. *)
Definition todos_key : JsVal :=
  JObj 1%N (key_props (JStr (lit "todos")) JUndefined
                      (JStr (lit "/api/todos"))).

Definition todos_entry : CacheEntry :=
  {| ce_index := unstable_serialize SampleHost.host todos_key;
     ce_key := todos_key;
     ce_data := JArr 5%N [JObj 3%N [(lit "id", JNum 1)];
                          JObj 4%N [(lit "id", JNum 2)]] |}.

Definition remove_item (current id : JsVal) : JsVal :=
  match current with
  | JArr _ items =>
      JArr 6%N (filter (fun item =>
                          negb (strict_eq (get_prop item (lit "id")) id))
                       items)
  | _ => JArr 6%N []
  end.

Definition delete_fails : Remote :=
  fun _ => {| reply := Throw (JError 7%N (lit "Error") (lit "Delete failed"));
              unmounts := false |}.

Definition optimistic_delete : MutateOptions :=
  {| optimisticUpdate := Some remove_item; rollbackOnError := None |}.

Definition todos_world : World := with_cache [todos_entry] quiet_world.

(** A cache with one entry, read by a useSWR hook under a key whose id
    is the empty string. *)
Definition empty_id_entry : CacheEntry :=
  {| ce_index := unstable_serialize SampleHost.host empty_id_key;
     ce_key := empty_id_key;
     ce_data := JArr 5%N [JObj 3%N [(lit "id", JNum 1)]] |}.

Definition empty_id_world : World := with_cache [empty_id_entry] quiet_world.

Definition write_error : JsVal :=
  JError 8%N (lit "Error") (lit "Cache write failed").

(** The same world with a cache that refuses to write undefined: the
    optimistic write passes, the rollback, which writes back what
    swrGetCache had found, does not. *)
Definition rollback_refused : World :=
  {| heap := heap todos_world; clock := clock todos_world;
     cache := cache todos_world;
     mutateFault := fun call =>
       match mc_data call with
       | DataValue JUndefined => Some write_error
       | _ => None
       end;
     mutateLog := []; remoteLog := []; isMounted := true;
     isMutating := false; error := JNull; stableKeyRef := JNull |}.

Definition render_world : World :=
  with_stableKeyRef
    (JObj 1%N (key_props (JStr (lit "t")) JUndefined
                         (JObj 2%N [(lit "u", JNum 1)])))
    quiet_world.

Definition rerender_key : JsVal :=
  JObj 3%N [(lit "id", JStr (lit "t"));
            (lit "data", JObj 4%N [(lit "u", JNum 1)])].

Definition delete_error_context : JsVal :=
  JObj 2%N [(lit "operation", JStr (lit "delete"));
            (lit "key", todos_key);
            (lit "id", JNum 1);
            (lit "timestamp", JNum 1698345600000)].

Definition delete_call : ApiCall :=
  CallDelete todos_key delete_fails optimistic_delete (JNum 1).

Definition delete_error : JsVal :=
  Eval vm_compute in
    match fst (run_call SampleHost.host delete_call todos_world) with
    | Throw t => t
    | Ok v => v
    end.

(* ----------------------------------------------------------------- *)
(** ** Escaped texts and further key forms *)

(** A text as it stands between the quotes of a serialized key: a
    backslash is put before every quote and every backslash. *)
Fixpoint escapeQuoted (s : jsstring) : jsstring :=
  match s with
  | [] => []
  | c :: s' =>
      if not_quote_or_backslash c then c :: escapeQuoted s'
      else bslash :: c :: escapeQuoted s'
  end.

(** The replacement of unescapeString as one scan from left to right: a
    backslash followed by a character that [.] accepts is dropped and
    that character is kept without being looked at again; everything
    else is copied. *)
Fixpoint dropEscapes (s : jsstring) : jsstring :=
  match s with
  | [] => []
  | c :: s' =>
      if N.eqb c bslash then
        match s' with
        | d :: s'' => if dot d then d :: dropEscapes s''
                      else c :: dropEscapes s'
        | [] => [c]
        end
      else c :: dropEscapes s'
  end.

(** The text holds a backslash followed by a character other than a
    line terminator. *)
Fixpoint has_escape (s : jsstring) : bool :=
  match s with
  | [] => false
  | c :: s' =>
      (N.eqb c bslash && match s' with d :: _ => dot d | [] => false end)
      || has_escape s'
  end.

Definition colon_free (s : jsstring) : Prop :=
  Forall (fun c => N.eqb c 58 = false) s.

Definition colon_free_segment (o : option jsstring) : Prop :=
  match o with Some s => colon_free s | None => True end.

(** The legacy string form of a key whose texts are written with their
    quotes and backslashes escaped. *)
Definition encodeQuoted (id : jsstring) (group data : option jsstring)
  : jsstring :=
  encodeLegacy (escapeQuoted id) (option_map escapeQuoted group)
               (option_map escapeQuoted data).

(** What the JSON strategy makes of a parsed value: the value itself
    when it is a non-null object on which the in operator finds id. *)
Definition json_key (parsed : JsVal) : JsVal :=
  if truthy parsed && is_object_type parsed
  then match fst (js_in (lit "id") parsed 0%N) with
       | Ok true => parsed
       | _ => JNull
       end
  else JNull.

(** A value that is not an object: undefined, null, a boolean, a number
    or a string. *)
Definition primitive (v : JsVal) : bool :=
  is_nullish v || negb (is_object_type v).

(* ----------------------------------------------------------------- *)
(** ** The calls of the three hooks *)

(** The key, the remote function, its arguments and the options of a
    call of a trigger. *)
Definition hook_call (c : ApiCall)
  : option (JsVal * Remote * list JsVal * MutateOptions) :=
  match c with
  | CallCreate k f o d => Some (k, f, [d], o)
  | CallUpdate k f o i d => Some (k, f, [i; d], o)
  | CallDelete k f o i => Some (k, f, [i], o)
  | _ => None
  end.

(** What the trigger hands to the optimistic transform beside the
    cached value: the data, the id, or for an update the pair of both,
    an object allocated at [h]. *)
Definition optimistic_payload (c : ApiCall) (h : Ref) : JsVal :=
  match c with
  | CallCreate _ _ _ d => d
  | CallUpdate _ _ _ i d => JObj h [(lit "id", i); (lit "data", d)]
  | CallDelete _ _ _ i => i
  | _ => JUndefined
  end.

(** The additional context a trigger gives to createMutationError. *)
Definition hook_extra (c : ApiCall) : list (jsstring * JsVal) :=
  match c with
  | CallCreate _ _ _ d => [(lit "data", d)]
  | CallUpdate _ _ _ i d => [(lit "data", d); (lit "id", i)]
  | CallDelete _ _ _ i => [(lit "id", i)]
  | _ => []
  end.

(** The value the optimistic write puts in the cache, when the options
    configure a transform. *)
Definition optimistic_value (c : ApiCall) (w : World) : option JsVal :=
  match hook_call c with
  | Some (key, _, _, options) =>
      match optimisticUpdate options with
      | Some f => Some (f (cached w key) (optimistic_payload c (heap w)))
      | None => None
      end
  | None => None
  end.

(** The React state of [w1] is the one a trigger of a component in
    state [w] sets before it does anything else: mutating, no error,
    mounted; the remote function has not been called. *)
Definition in_flight (w w1 : World) : Prop :=
  isMutating w1 = true /\ error w1 = JNull /\ isMounted w1 = true
  /\ remoteLog w1 = remoteLog w /\ mutateFault w1 = mutateFault w.

(** The cache calls of the optimistic write and of the rollback. *)
Definition optimistic_calls (c : ApiCall) (w : World) : list MutateCall :=
  match optimistic_value c w with
  | Some v => [write_call (call_key c) v]
  | None => []
  end.

Definition rollback_calls (c : ApiCall) (w : World) : list MutateCall :=
  match hook_call c with
  | Some (key, _, _, options) =>
      if rolls_back options then [write_call key (cached w key)] else []
  | None => []
  end.

(** A key the cache keeps an entry for: truthy, with a serialized form
    that is not empty. *)
Definition storable (host : Host) (key : JsVal) : Prop :=
  truthy key = true /\ unstable_serialize host key <> [].

(** The rollback of executeMutation: asked for, and for an original
    value other than undefined. *)
Definition restores (shouldRollback : bool) (originalData : JsVal) : bool :=
  shouldRollback && negb (strict_eq originalData JUndefined).



(* ----------------------------------------------------------------- *)
(** ** Further inputs for running the library *)

(** An id with a quote in it and a query string with quoted text. *)
Definition quoted_id : jsstring := lit "user" ++ [dq] ++ lit "admin".

Definition quoted_data : jsstring :=
  lit "/api/todos?filter=" ++ [dq] ++ lit "active" ++ [dq].

(** The JSON text of an object with an id. *)
Definition json_text : jsstring :=
  lit "{" ++ [dq] ++ lit "id" ++ [dq] ++ lit ":" ++ [dq] ++ lit "todos"
  ++ [dq] ++ lit "}".

(** The key of [todos_key] as another render writes it: a new object
    with the same id and data. *)
Definition todos_key_again : JsVal :=
  JObj 8%N [(lit "id", JStr (lit "todos"));
            (lit "data", JStr (lit "/api/todos"))].

(** A transform that puts the new data in place of the cached value. *)
Definition replace_with (current data : JsVal) : JsVal := data.

Definition new_todo : JsVal := JObj 9%N [(lit "title", JStr (lit "New"))].

Definition saved_todo : JsVal :=
  JObj 10%N [(lit "id", JNum 3); (lit "title", JStr (lit "New"))].

Definition request_succeeds : Remote :=
  fun _ => {| reply := Ok saved_todo; unmounts := false |}.

Definition request_fails : Remote :=
  fun _ => {| reply := Throw (JError 7%N (lit "Error")
                                     (lit "Request failed"));
              unmounts := false |}.

(** A remote function during whose call the component is torn down. *)
Definition request_detaches : Remote :=
  fun _ => {| reply := Ok saved_todo; unmounts := true |}.

Definition optimistic_replace : MutateOptions :=
  {| optimisticUpdate := Some replace_with; rollbackOnError := None |}.

Definition optimistic_keep : MutateOptions :=
  {| optimisticUpdate := Some replace_with; rollbackOnError := Some false |}.

Definition create_call : ApiCall :=
  CallCreate todos_key request_succeeds optimistic_replace new_todo.

Definition create_fails_call : ApiCall :=
  CallCreate todos_key request_fails optimistic_replace new_todo.

Definition update_fails_call : ApiCall :=
  CallUpdate todos_key request_fails optimistic_keep (JNum 1) new_todo.

Definition detached_call : ApiCall :=
  CallDelete todos_key request_detaches optimistic_delete (JNum 1).

(** The world of a component that has been unmounted. *)
Definition unmounted_world : World := with_isMounted false todos_world.

(** A cache that refuses every keyed write, and one that refuses every
    call with a filter. *)
Definition write_refused : World :=
  {| heap := heap todos_world; clock := clock todos_world;
     cache := cache todos_world;
     mutateFault := fun call =>
       match mc_target call with
       | ByKey _ => Some write_error
       | ByFilter _ => None
       end;
     mutateLog := []; remoteLog := []; isMounted := true;
     isMutating := false; error := JNull; stableKeyRef := JNull |}.

Definition filter_refused : World :=
  {| heap := heap todos_world; clock := clock todos_world;
     cache := cache todos_world;
     mutateFault := fun call =>
       match mc_target call with
       | ByKey _ => None
       | ByFilter _ => Some write_error
       end;
     mutateLog := []; remoteLog := []; isMounted := true;
     isMutating := false; error := JNull; stableKeyRef := JNull |}.

(** The world in which the remote delete function has been called and
    has rejected. *)
Definition after_delete_fails : World :=
  snd (call_remote delete_fails [JNum 1] todos_world).

Definition after_request_succeeds : World :=
  snd (call_remote request_succeeds [new_todo] todos_world).

(** The pair an update hands to its transform in [todos_world]. *)
Definition update_payload : JsVal :=
  JObj 100%N [(lit "id", JNum 1); (lit "data", new_todo)].

Definition delete_cause : JsVal :=
  JError 7%N (lit "Error") (lit "Delete failed").

(** A cache that accepts every write and refuses to revalidate. *)
Definition revalidation_refused : World :=
  {| heap := heap todos_world; clock := clock todos_world;
     cache := cache todos_world;
     mutateFault := fun call =>
       match mc_options call with
       | JUndefined => Some write_error
       | _ => None
       end;
     mutateLog := []; remoteLog := []; isMounted := true;
     isMutating := false; error := JNull; stableKeyRef := JNull |}.

Definition after_request_refused : World :=
  snd (call_remote request_succeeds [new_todo] revalidation_refused).

(* ================================================================= *)
(** * Properties *)

Lemma str_eqb_eq a b : str_eqb a b = true <-> a = b.
Proof.
  unfold str_eqb. destruct (jsstring_eq_dec a b); split; congruence.
Qed.

Lemma str_eqb_refl a : str_eqb a a = true.
Proof. now apply str_eqb_eq. Qed.

Lemma strict_eq_object_refl v :
  is_object_type v = true -> strict_eq v JNull = false -> strict_eq v v = true.
Proof.
  destruct v; simpl; try discriminate; intros _ _; apply N.eqb_refl.
Qed.

(** The [in] operator answers, and leaves the heap alone, on every value
    whose [typeof] is object and that is not null. *)
Lemma js_in_object name v h :
  is_object_type v = true -> strict_eq v JNull = false ->
  exists b, js_in name v h = (Ok b, h).
Proof.
  destruct v; simpl; try discriminate; intros _ _; eexists; reflexivity.
Qed.

(* ----------------------------------------------------------------- *)
(** ** Running computations step by step *)

Lemma bind_ok {S A B} (c : Comp S A) (k : A -> Comp S B) s a s' :
  c s = (Ok a, s') -> bind c k s = k a s'.
Proof. unfold bind. intros ->. reflexivity. Qed.

Lemma bind_throw {S A B} (c : Comp S A) (k : A -> Comp S B) s e s' :
  c s = (Throw e, s') -> bind c k s = (Throw e, s').
Proof. unfold bind. intros ->. reflexivity. Qed.

Lemma bind_ret {S A B} (a : A) (k : A -> Comp S B) s :
  bind (ret a) k s = k a s.
Proof. reflexivity. Qed.

(* ----------------------------------------------------------------- *)
(** ** The matcher: whatever it returns comes from its continuation *)

Section FromContinuation.

Variable R : Type.
Variable P : R -> Prop.

Lemma star_loop_yields step k :
  (forall s cap k', yields P k' -> forall x, step s cap k' = Some x -> P x) ->
  yields P k ->
  forall fuel s cap x, star_loop step k fuel s cap = Some x -> P x.
Proof.
  intros Hstep Hk. induction fuel as [|fuel IH]; simpl; intros s cap x Hx.
  - eapply Hk; eassumption.
  - destruct (step s cap _) as [y|] eqn:E.
    + inversion Hx; subst y. eapply Hstep; [|exact E].
      intros s' cap' z Hz.
      destruct (length s' <? length s)%nat; [|discriminate].
      eapply IH; eassumption.
    + eapply Hk; eassumption.
Qed.

Lemma rmatch_yields r :
  forall s cap k, yields P k -> forall x, rmatch r s cap k = Some x -> P x.
Proof.
  induction r as [l|p|a IHa b IHb|a IHa b IHb|a IHa|a IHa];
    simpl; intros s cap k Hk x Hx.
  - destruct (strip_prefix l s); [eapply Hk; eassumption|discriminate].
  - destruct s as [|c s']; [discriminate|].
    destruct (p c); [eapply Hk; eassumption|discriminate].
  - eapply IHa; [|exact Hx]. intros s' cap' y Hy. eapply IHb; eassumption.
  - destruct (rmatch a s cap k) as [y|] eqn:E.
    + inversion Hx; subst y. eapply IHa; eassumption.
    + eapply IHb; eassumption.
  - eapply star_loop_yields; [|exact Hk|exact Hx].
    intros s0 cap0 k' Hk' y Hy. eapply IHa; eassumption.
  - eapply IHa; [|exact Hx]. intros s' cap' y Hy. eapply Hk; eassumption.
Qed.

End FromContinuation.

(** A match of a pattern that ends in a group and a literal always
    carries its capture; the key patterns are of this shape. *)
Lemma group_capture l g q s rest cap :
  match_here (RSeq (RLit l) (RSeq (RGroup g) (RLit q))) s = Some (rest, cap) ->
  exists c, cap = Some c.
Proof.
  unfold match_here. simpl.
  destruct (strip_prefix l s) as [s1|]; [|discriminate].
  intros Hm.
  apply (rmatch_yields
           (P := fun x : jsstring * option jsstring =>
                   exists c, snd x = Some c)) in Hm.
  - exact Hm.
  - intros s' cap' x.
    destruct (strip_prefix q s'); [|discriminate].
    intros Hx; inversion Hx; subst x. simpl. eexists; reflexivity.
Qed.

Lemma quoted_capture l s rest cap :
  match_here (RSeq (RLit l) quoted_body) s = Some (rest, cap) ->
  exists c, cap = Some c.
Proof. apply group_capture. Qed.

Lemma js_match_capture l s cap :
  js_match (RSeq (RLit l) quoted_body) s = Some cap -> exists c, cap = Some c.
Proof.
  induction s as [|c s IH]; simpl.
  - destruct (match_here _ []) as [[rest cap']|] eqn:E; [|discriminate].
    intros Hx; inversion Hx; subst cap'. eapply quoted_capture; exact E.
  - destruct (match_here _ (c :: s)) as [[rest cap']|] eqn:E.
    + intros Hx; inversion Hx; subst cap'. eapply quoted_capture; exact E.
    + exact IH.
Qed.

(** tryCurrentFormat never throws: it answers null when the string does
    not start with the marker or the id pattern does not match, and a
    new object otherwise. *)
Lemma tryCurrentFormat_result s h :
  (startsWith s (lit "#id:") = false \/ js_match ID_PATTERN s = None) /\
    tryCurrentFormat s h = (Ok JNull, h)
  \/ (startsWith s (lit "#id:") = true /\ js_match ID_PATTERN s <> None) /\
     exists props, tryCurrentFormat s h = (Ok (JObj h props), N.succ h).
Proof.
  unfold tryCurrentFormat.
  destruct (startsWith s (lit "#id:")) eqn:Hs; simpl.
  2:{ left. split; [left|]; reflexivity. }
  destruct (js_match ID_PATTERN s) as [idCap|] eqn:Hid.
  2:{ left. split; [right|]; reflexivity. }
  right. split; [split; [reflexivity|discriminate]|].
  apply js_match_capture in Hid. destruct Hid as [c ->].
  assert (Hseg : forall l, exists v,
             match js_match (RSeq (RLit l) quoted_body) s with
             | Some cp => unescape_capture cp
             | None => ret JUndefined
             end h = (Ok v, h)).
  { intros l. destruct (js_match (RSeq (RLit l) quoted_body) s) as [cp|] eqn:E.
    - apply js_match_capture in E. destruct E as [x ->].
      eexists; reflexivity.
    - eexists; reflexivity. }
  destruct (Hseg (lit "group:" ++ [dq])) as [g Hg].
  destruct (Hseg (lit "data:" ++ [dq])) as [d Hd].
  unfold GROUP_PATTERN, DATA_PATTERN.
  simpl unescape_capture. rewrite bind_ret.
  rewrite (bind_ok _ _ _ Hg), (bind_ok _ _ _ Hd).
  eexists. reflexivity.
Qed.

Section CodecProperties.

Variable host : Host.

Lemma tryJSONFormat_total s h :
  exists r h', tryJSONFormat host s h = (Ok r, h').
Proof.
  unfold tryJSONFormat, try_catch.
  destruct (bind _ _ h) as [[r|e] h'] eqn:E; eexists; eexists; reflexivity.
Qed.

Lemma js_in_heap_independent name v h h' :
  is_object_type v = true -> strict_eq v JNull = false ->
  fst (js_in name v h) = fst (js_in name v h').
Proof. destruct v; simpl; try discriminate; reflexivity. Qed.

(** C2. Decoding a value that is a non-null object with an [id] field
    returns that very value: the result is the argument, at the same
    address, and nothing is allocated. *)
Theorem extractSWRKey_passthrough (k : JsVal) (h : Ref) :
  is_object_type k = true ->
  strict_eq k JNull = false ->
  fst (js_in (lit "id") k h) = Ok true ->
  extractSWRKey host k h = (Ok k, h)
  /\ (forall r, fst (extractSWRKey host k h) = Ok r -> strict_eq r k = true).
Proof.
  intros Hobj Hnull Hin.
  assert (E : extractSWRKey host k h = (Ok k, h)).
  { unfold extractSWRKey. rewrite Hobj, Hnull. simpl andb. cbv iota.
    destruct (js_in_object (lit "id") k h Hobj Hnull) as [b Hb].
    rewrite Hb in Hin. simpl in Hin. inversion Hin; subst b.
    rewrite (bind_ok _ _ _ Hb). reflexivity. }
  split; [exact E|].
  intros r Hr. rewrite E in Hr. simpl in Hr. inversion Hr; subst r.
  now apply strict_eq_object_refl.
Qed.

(** Decoding returns on every value; it returns null when no strategy
    accepts the value. *)
Lemma extractSWRKey_outcome (v : JsVal) (h : Ref) :
  (exists r h', extractSWRKey host v h = (Ok r, h'))
  /\ (~ direct_strategy v -> ~ legacy_strategy v -> ~ json_strategy host v ->
      exists h', extractSWRKey host v h = (Ok JNull, h')).
Proof.
  unfold extractSWRKey.
  destruct (is_object_type v && negb (strict_eq v JNull)) eqn:Hd.
  - apply andb_prop in Hd. destruct Hd as [Hobj Hnn].
    apply negb_true_iff in Hnn.
    destruct (js_in_object (lit "id") v h Hobj Hnn) as [b Hb].
    rewrite (bind_ok _ _ _ Hb).
    destruct b.
    + split; [eexists; eexists; reflexivity|].
      intros Hdirect _ _. exfalso. apply Hdirect.
      split; [exact Hobj|split; [exact Hnn|]].
      intros h1. rewrite (js_in_heap_independent (lit "id") v h1 h Hobj Hnn).
      rewrite Hb. reflexivity.
    + destruct v; simpl in Hobj; try discriminate;
        (split; [eexists; eexists; reflexivity|intros; eexists; reflexivity]).
  - rewrite bind_ret.
    destruct v; try (split; [eexists; eexists; reflexivity
                            |intros; eexists; reflexivity]).
    destruct (tryCurrentFormat_result s h) as [[Hno E]|[[Hs Hid] [props E]]].
    + rewrite (bind_ok _ _ _ E). cbv beta.
      change (truthy JNull) with false. cbv iota.
      destruct (tryJSONFormat_total s h) as [r [h' Er]].
      rewrite (bind_ok _ _ _ Er).
      split.
      * destruct (truthy r); eexists; eexists; reflexivity.
      * intros _ _ Hjson.
        destruct (truthy r) eqn:Htr; [|eexists; reflexivity].
        exfalso. apply Hjson.
        unfold tryJSONFormat, try_catch in Er.
        unfold bind at 1 in Er.
        destruct (JSON_parse host s h) as [[o|e] h1] eqn:Ep.
        2:{ inversion Er; subst r. discriminate. }
        destruct (truthy o && is_object_type o) eqn:Hto.
        2:{ inversion Er; subst r. discriminate. }
        apply andb_prop in Hto. destruct Hto as [Hto Hoo].
        assert (Hon : strict_eq o JNull = false)
          by (destruct o; simpl in *; try discriminate; reflexivity).
        destruct (js_in_object (lit "id") o h1 Hoo Hon) as [b Hb].
        unfold bind at 1 in Er. rewrite Hb in Er.
        destruct b.
        2:{ inversion Er; subst r. discriminate. }
        exists s, h, o, h1. split; [reflexivity|]. split; [exact Ep|].
        split; [exact Hoo|]. split; [exact Hon|].
        intros h2.
        rewrite (js_in_heap_independent (lit "id") o h2 h1 Hoo Hon).
        rewrite Hb. reflexivity.
    + rewrite (bind_ok _ _ _ E). cbv beta.
      change (truthy (JObj h props)) with true. cbv iota.
      split; [eexists; eexists; reflexivity|].
      intros _ Hlegacy _. exfalso. apply Hlegacy.
      exists s. split; [reflexivity|]. split; assumption.
Qed.

(** C9. extractSWRKey is total: on every value it returns, and it never
    throws; on an input that none of the three strategies accepts it
    returns null. *)
Theorem extractSWRKey_total (v : JsVal) (h : Ref) :
  (exists r h', extractSWRKey host v h = (Ok r, h'))
  /\ (~ direct_strategy v -> ~ legacy_strategy v -> ~ json_strategy host v ->
      exists h', extractSWRKey host v h = (Ok JNull, h')).
Proof. apply extractSWRKey_outcome. Qed.

End CodecProperties.

(* ----------------------------------------------------------------- *)
(** ** The legacy string form: encoding, then decoding *)

Lemma alnum_plain c :
  alnum c = true -> not_quote_or_backslash c = true /\ c <> 58%N.
Proof.
  unfold alnum, not_quote_or_backslash, dq, bslash. intros Hc.
  repeat rewrite orb_true_iff in Hc. repeat rewrite andb_true_iff in Hc.
  repeat rewrite N.leb_le in Hc.
  split.
  - apply andb_true_iff; split; apply negb_true_iff, N.eqb_neq; lia.
  - lia.
Qed.

Lemma strip_prefix_app l s : strip_prefix l (l ++ s) = Some s.
Proof.
  induction l as [|c l IH]; simpl; [reflexivity|].
  now rewrite N.eqb_refl.
Qed.

(** A literal made of a word of letters, a colon and more cannot start
    inside a run of letters and digits that a quote closes. *)
Lemma strip_prefix_word_colon w z t rest :
  alnum_string w -> alnum_string t ->
  strip_prefix (w ++ 58%N :: z) (t ++ dq :: rest) = None.
Proof.
  intros Hw. revert t. induction Hw as [|a w Ha Hw IH]; intros t Ht.
  - destruct Ht as [|c t Hc Ht]; cbn [strip_prefix app]; [reflexivity|].
    apply alnum_plain in Hc. destruct Hc as [_ Hc].
    destruct (N.eqb_spec 58 c); [congruence|reflexivity].
  - destruct Ht as [|c t Hc Ht]; cbn [strip_prefix app].
    + apply alnum_plain in Ha. destruct Ha as [Ha _].
      unfold not_quote_or_backslash in Ha.
      apply andb_true_iff in Ha. destruct Ha as [Ha _].
      apply negb_true_iff in Ha. now rewrite Ha.
    + destruct (a =? c)%N; [|reflexivity]. now apply IH.
Qed.

Section Search.

Variable l : jsstring.
Variable body : Regex.

Lemma match_here_lit_fail s :
  strip_prefix l s = None -> match_here (RSeq (RLit l) body) s = None.
Proof. unfold match_here. simpl. now intros ->. Qed.

Lemma js_match_skip c s :
  match_here (RSeq (RLit l) body) (c :: s) = None ->
  js_match (RSeq (RLit l) body) (c :: s) = js_match (RSeq (RLit l) body) s.
Proof. intros Hm. cbn [js_match]. now rewrite Hm. Qed.

Lemma js_match_hit s rest cap :
  match_here (RSeq (RLit l) body) s = Some (rest, cap) ->
  js_match (RSeq (RLit l) body) s = Some cap.
Proof. intros Hm. destruct s; cbn [js_match]; now rewrite Hm. Qed.

Lemma js_match_end :
  strip_prefix l [] = None -> js_match (RSeq (RLit l) body) [] = None.
Proof.
  intros Hl. cbn [js_match]. now rewrite (match_here_lit_fail _ Hl).
Qed.

(** The search walks over a run of letters and digits. *)
Lemma js_match_run w z t rest :
  l = w ++ 58%N :: z -> alnum_string w -> alnum_string t ->
  js_match (RSeq (RLit l) body) (t ++ dq :: rest)
  = js_match (RSeq (RLit l) body) (dq :: rest).
Proof.
  intros Hl Hw Ht. induction Ht as [|c t Hc Ht IH]; [reflexivity|].
  rewrite <- IH. change ((c :: t) ++ dq :: rest) with (c :: (t ++ dq :: rest)).
  apply js_match_skip, match_here_lit_fail.
  rewrite Hl.
  change (c :: t ++ dq :: rest) with ((c :: t) ++ dq :: rest).
  apply strip_prefix_word_colon; [assumption|now constructor].
Qed.

End Search.

(** The repetition of the quoted segment consumes a run of plain
    characters up to the quote that closes it. *)
Lemma star_run {R} (k : Cont R) (x : R) t rest cap :
  alnum_string t ->
  k (dq :: rest) cap = Some x ->
  forall fuel, (length t <= fuel)%nat ->
    star_loop (rmatch (RAlt (RClass not_quote_or_backslash)
                            (RSeq (RLit [bslash]) (RClass dot))))
              k fuel (t ++ dq :: rest) cap = Some x.
Proof.
  intros Ht Hk. induction Ht as [|c t Hc Ht IH]; intros fuel Hf.
  - destruct fuel; simpl; [exact Hk|]. exact Hk.
  - destruct fuel as [|fuel]; [simpl in Hf; lia|].
    apply alnum_plain in Hc. destruct Hc as [Hc _].
    cbn [star_loop rmatch app]. rewrite Hc.
    assert (Hlt : (length (t ++ dq :: rest)
                   <? length (c :: t ++ dq :: rest))%nat = true)
      by (apply Nat.ltb_lt; simpl; lia).
    rewrite Hlt. rewrite IH by (simpl in Hf; lia). reflexivity.
Qed.

Lemma firstn_run (t rest : jsstring) :
  firstn (length (t ++ dq :: rest) - length (dq :: rest)) (t ++ dq :: rest)
  = t.
Proof.
  rewrite length_app.
  replace (length t + length (dq :: rest) - length (dq :: rest))%nat
    with (length t + 0)%nat by lia.
  rewrite firstn_app_2. simpl. apply app_nil_r.
Qed.

Lemma match_quoted l t rest :
  alnum_string t ->
  match_here (RSeq (RLit l) quoted_body) (l ++ t ++ dq :: rest)
  = Some (rest, Some t).
Proof.
  intros Ht. unfold match_here, quoted_body.
  cbn [rmatch]. rewrite strip_prefix_app.
  apply star_run; [exact Ht| |rewrite length_app; lia].
  cbn [strip_prefix]. unfold dq at 1 2. simpl N.eqb. cbv iota.
  now rewrite firstn_run.
Qed.

Lemma mismatch_strip l u rest :
  mismatch l u = true -> strip_prefix l (u ++ rest) = None.
Proof.
  revert u. induction l as [|c l IH]; intros [|d u]; simpl; try discriminate.
  destruct (N.eqb c d); [apply IH|reflexivity].
Qed.

Lemma js_match_skip_pre l body pre rest :
  starts_nowhere l pre = true ->
  js_match (RSeq (RLit l) body) (pre ++ rest)
  = js_match (RSeq (RLit l) body) rest.
Proof.
  induction pre as [|c pre IH]; [reflexivity|].
  cbn [starts_nowhere]. intros Hs. apply andb_prop in Hs.
  destruct Hs as [Hm Hs]. rewrite <- IH by exact Hs.
  change ((c :: pre) ++ rest) with (c :: (pre ++ rest)).
  apply js_match_skip, match_here_lit_fail.
  change (c :: pre ++ rest) with ((c :: pre) ++ rest).
  now apply mismatch_strip.
Qed.

Lemma unescape_plain t : alnum_string t -> unescapeString t = t.
Proof.
  unfold unescapeString, replace_dollar1.
  induction 1 as [|c t Hc Ht IH]; [reflexivity|].
  cbn [length replace_loop].
  assert (Hm : match_here ESCAPE_PATTERN (c :: t) = None).
  { apply match_here_lit_fail. cbn [strip_prefix].
    apply alnum_plain in Hc. destruct Hc as [Hc _].
    unfold not_quote_or_backslash in Hc.
    apply andb_true_iff in Hc. destruct Hc as [_ Hc].
    apply negb_true_iff in Hc. rewrite N.eqb_sym. now rewrite Hc. }
  rewrite Hm. now rewrite IH.
Qed.

Section Roundtrip.

Variables (id : jsstring) (group data : option jsstring).
Hypothesis Hid : alnum_string id.
Hypothesis Hgroup : alnum_segment group.
Hypothesis Hdata : alnum_segment data.

Lemma alnum_lit_group : alnum_string (lit "group").
Proof. repeat constructor. Qed.

Lemma alnum_lit_data : alnum_string (lit "data").
Proof. repeat constructor. Qed.

Ltac skip_pre p := rewrite (js_match_skip_pre _ _ p) by reflexivity.
Ltac skip_quote :=
  rewrite js_match_skip by (apply match_here_lit_fail; reflexivity).

Lemma encoded_starts :
  startsWith (encodeLegacy id group data) (lit "#id:") = true.
Proof.
  unfold startsWith, encodeLegacy. now rewrite strip_prefix_app.
Qed.

Lemma encoded_id :
  js_match ID_PATTERN (encodeLegacy id group data) = Some (Some id).
Proof.
  eapply js_match_hit.
  exact (match_quoted (lit "#id:" ++ [dq])
           (segment (lit "group") group (segment (lit "data") data []))
           Hid).
Qed.

Lemma encoded_group :
  js_match GROUP_PATTERN (encodeLegacy id group data)
  = match group with Some g => Some (Some g) | None => None end.
Proof.
  unfold GROUP_PATTERN, encodeLegacy.
  skip_pre (lit "#id:"). skip_pre [dq].
  rewrite (js_match_run _ [dq] _ eq_refl alnum_lit_group Hid).
  skip_quote.
  destruct group as [g|]; cbn [segment].
  - skip_pre (lit ",").
    eapply js_match_hit.
    exact (match_quoted (lit "group:" ++ [dq])
             (segment (lit "data") data []) Hgroup).
  - destruct data as [d|]; cbn [segment].
    + skip_pre (lit ","). skip_pre (lit "data"). skip_pre (lit ":").
      skip_pre [dq].
      rewrite (js_match_run _ [dq] _ eq_refl alnum_lit_group Hdata).
      skip_quote. now apply js_match_end.
    + now apply js_match_end.
Qed.

Lemma encoded_data :
  js_match DATA_PATTERN (encodeLegacy id group data)
  = match data with Some d => Some (Some d) | None => None end.
Proof.
  unfold DATA_PATTERN, encodeLegacy.
  skip_pre (lit "#id:"). skip_pre [dq].
  rewrite (js_match_run _ [dq] _ eq_refl alnum_lit_data Hid).
  skip_quote.
  assert (Htail : js_match (RSeq (RLit (lit "data:" ++ [dq])) quoted_body)
                    (segment (lit "data") data [])
                  = match data with Some d => Some (Some d) | None => None end).
  { destruct data as [d|]; cbn [segment].
    - skip_pre (lit ",").
      eapply js_match_hit.
      exact (match_quoted (lit "data:" ++ [dq]) [] Hdata).
    - now apply js_match_end. }
  destruct group as [g|]; cbn [segment]; [|exact Htail].
  skip_pre (lit ","). skip_pre (lit "group"). skip_pre (lit ":").
  skip_pre [dq].
  rewrite (js_match_run _ [dq] _ eq_refl alnum_lit_data Hgroup).
  skip_quote. exact Htail.
Qed.

End Roundtrip.

Lemma key_props_id r i g d : get_prop (JObj r (key_props i g d)) (lit "id") = i.
Proof. reflexivity. Qed.

Lemma key_props_group r i g d :
  get_prop (JObj r (key_props i g d)) (lit "group") = g.
Proof. reflexivity. Qed.

Lemma key_props_data r i g d :
  get_prop (JObj r (key_props i g d)) (lit "data") = d.
Proof. reflexivity. Qed.

Section RoundtripTheorem.

Variable host : Host.

(** C3. A key whose id, group and data are made of ASCII letters and
    digits, written in the legacy string form and decoded by
    extractSWRKey, comes back as a new object with the same id, group
    and data; a segment that is absent decodes to undefined. *)
Theorem legacy_roundtrip (id : jsstring) (group data : option jsstring)
        (h : Ref) :
  alnum_string id -> alnum_segment group -> alnum_segment data ->
  extractSWRKey host (JStr (encodeLegacy id group data)) h
  = (Ok (JObj h (key_props (JStr id) (segment_value group)
                           (segment_value data))),
     N.succ h).
Proof.
  intros Hid Hgroup Hdata.
  assert (E : tryCurrentFormat (encodeLegacy id group data) h
              = (Ok (JObj h (key_props (JStr id) (segment_value group)
                                       (segment_value data))), N.succ h)).
  { unfold tryCurrentFormat.
    rewrite (encoded_starts id group data).
    rewrite (@encoded_id id group data Hid).
    rewrite (@encoded_group id group data Hid Hgroup Hdata).
    rewrite (@encoded_data id group data Hid Hgroup Hdata).
    cbn [negb unescape_capture]. rewrite (unescape_plain Hid).
    rewrite bind_ret.
    destruct group as [g|], data as [d|]; cbn [unescape_capture];
      cbn [alnum_segment] in Hgroup, Hdata;
      rewrite ?(unescape_plain Hgroup), ?(unescape_plain Hdata);
      reflexivity. }
  unfold extractSWRKey.
  change (is_object_type (JStr (encodeLegacy id group data))) with false.
  cbn [andb]. rewrite bind_ret.
  rewrite (bind_ok _ _ _ E). reflexivity.
Qed.

End RoundtripTheorem.

(* ----------------------------------------------------------------- *)
(** ** The key stabilizer *)

Section Stabilizer.

Variable host : Host.

Lemma strict_eq_truthy a b :
  strict_eq a b = true -> truthy a = true -> truthy b = true.
Proof.
  intros Hs Ha.
  destruct a, b; cbn [strict_eq ref_of] in Hs; try discriminate;
    try reflexivity.
  - apply Bool.eqb_prop in Hs. now subst.
  - apply Z.eqb_eq in Hs. now subst.
  - apply str_eqb_eq in Hs. now subst.
Qed.

Lemma deepEqual_result a b h :
  exists r h', deepEqual host a b h = (Ok r, h')
               /\ (heap_monotone host -> (h <= h')%N)
               /\ (r = true -> truthy a = true -> truthy b = true).
Proof.
  unfold deepEqual.
  destruct (strict_eq a b) eqn:Hs.
  { exists true, h. split; [reflexivity|]. split; [intros; lia|].
    intros _ Ha. now apply (strict_eq_truthy a b). }
  destruct (is_nullish a || is_nullish b) eqn:Hn.
  { exists false, h. split; [reflexivity|]. split; [intros; lia|].
    discriminate. }
  destruct (negb (is_object_type a) || negb (is_object_type b)) eqn:Ho.
  { exists false, h. split; [reflexivity|]. split; [intros; lia|].
    discriminate. }
  apply orb_false_iff in Ho. destruct Ho as [_ Hb].
  apply negb_false_iff in Hb.
  apply orb_false_iff in Hn. destruct Hn as [_ Hnb].
  assert (Htb : truthy b = true)
    by (destruct b; simpl in *; try discriminate; reflexivity).
  unfold try_catch, bind.
  pose proof (fun Hm : heap_monotone host => Hm a h) as M1.
  destruct (JSON_stringify host a h) as [[sa|e] h1]; simpl in M1.
  - pose proof (fun Hm : heap_monotone host => Hm b h1) as M2.
    destruct (JSON_stringify host b h1) as [[sb|e] h2]; simpl in M2.
    + eexists; eexists. split; [reflexivity|].
      split; [intros Hm; specialize (M1 Hm); specialize (M2 Hm); lia|].
      intros; exact Htb.
    + eexists; eexists. split; [reflexivity|].
      split; [intros Hm; specialize (M1 Hm); specialize (M2 Hm); lia|].
      intros; exact Htb.
  - eexists; eexists. split; [reflexivity|].
    split; [exact M1|]. intros; exact Htb.
Qed.

(** deepEqual decides deep equality as the specification defines it. *)
Lemma deepEqual_decides a b h :
  fst (deepEqual host a b h) = Ok true <-> deep_equal host a b h.
Proof.
  unfold deepEqual, deep_equal.
  destruct (strict_eq a b) eqn:Hs.
  { split; [intros _; now left|reflexivity]. }
  destruct (is_nullish a || is_nullish b) eqn:Hn.
  { cbn [ret fst]. split; [discriminate|].
    intros [X|(Ha & Hb & _)]; [discriminate|].
    rewrite Ha, Hb in Hn. discriminate. }
  apply orb_false_iff in Hn. destruct Hn as [Hna Hnb].
  destruct (negb (is_object_type a) || negb (is_object_type b)) eqn:Ho.
  { cbn [ret fst]. split; [discriminate|].
    intros [X|(_ & _ & Ha & Hb & _)]; [discriminate|].
    rewrite Ha, Hb in Ho. discriminate. }
  apply orb_false_iff in Ho. destruct Ho as [Hoa Hob].
  apply negb_false_iff in Hoa. apply negb_false_iff in Hob.
  unfold try_catch, bind, ret.
  destruct (JSON_stringify host a h) as [[sa|e] h1] eqn:Ea.
  - destruct (JSON_stringify host b h1) as [[sb|e] h2] eqn:Eb; cbn [fst].
    + split.
      * intros [= Hsab]. right. repeat (split; [assumption|]).
        exists sa, h1, sb, h2. repeat split; assumption.
      * intros [X|(_ & _ & _ & _ & sa' & h1' & sb' & h2' & E1 & E2 & Hsab)];
          [discriminate|].
        injection E1 as <- <-. rewrite Eb in E2. injection E2 as <- <-.
        now rewrite Hsab.
    + split; [discriminate|].
      intros [X|(_ & _ & _ & _ & sa' & h1' & sb' & h2' & E1 & E2 & _)];
        [discriminate|].
      injection E1 as <- <-. rewrite Eb in E2. discriminate.
  - cbn [fst]. split; [discriminate|].
    intros [X|(_ & _ & _ & _ & sa' & h1' & sb' & h2' & E1 & _)];
      [discriminate|discriminate].
Qed.

Lemma opt_prop_falsy key name :
  truthy key = false -> truthy (opt_prop key name) = false.
Proof.
  destruct key; simpl; try discriminate; reflexivity.
Qed.

End Stabilizer.

Lemma bind_gets {A B} (f : World -> A) (k : A -> M B) w :
  bind (gets f) k w = k (f w) w.
Proof. reflexivity. Qed.

Lemma bind_modify {B} (f : World -> World) (k : unit -> M B) w :
  bind (modify f) k w = k tt (f w).
Proof. reflexivity. Qed.

Lemma bind_liftH_ok {A B} (c : H A) (k : A -> M B) w a h' :
  c (heap w) = (Ok a, h') -> bind (liftH c) k w = k a (with_heap h' w).
Proof. unfold bind, liftH. intros ->. reflexivity. Qed.

Lemma bind_liftH_throw {A B} (c : H A) (k : A -> M B) w e h' :
  c (heap w) = (Throw e, h') ->
  bind (liftH c) k w = (Throw e, with_heap h' w).
Proof. unfold bind, liftH. intros ->. reflexivity. Qed.

Lemma truthy_js_and a b :
  truthy (js_and a b) = truthy a && truthy b.
Proof. unfold js_and. destruct (truthy a) eqn:E; [reflexivity|exact E]. Qed.

Section StabilizerTheorem.

Variable host : Host.

Lemma same_key_usable w key h :
  stable_ref w -> same_key_as host (stableKeyRef w) key h -> ~ unusable key.
Proof.
  intros [Hnull|(r & i & g & d & Hprev & Hi & Hd & _)]
         (Hp & Hid & _ & Hdata).
  { rewrite Hnull in Hp. discriminate. }
  rewrite Hprev in Hid, Hdata.
  rewrite key_props_id in Hid. rewrite key_props_data in Hdata.
  apply strict_eq_truthy in Hid; [|exact Hi].
  destruct (deepEqual_result host d (opt_prop key (lit "data")) h)
    as (b & h' & E & _ & Hb).
  rewrite E in Hdata. simpl in Hdata. inversion Hdata; subst b.
  specialize (Hb eq_refl Hd).
  intros [Hk|[Hk|Hk]]; try congruence.
  apply (opt_prop_falsy _ (lit "id")) in Hk. congruence.
Qed.

(** The three ways a render of the stabilizer can go. *)
Lemma useStableKey_cases (key : JsVal) (w : World) :
  stable_ref w ->
  heap_monotone host ->
  exists r w',
    useStableKey host key w = (Ok r, w')
    /\ stableKeyRef w' = r
    /\ (heap w <= heap w')%N
    /\ ((unusable key /\ r = JNull)
        \/ (~ unusable key
            /\ same_key_as host (stableKeyRef w) key (heap w)
            /\ r = stableKeyRef w /\ stableKeyRef w <> JNull
            /\ strict_eq r (stableKeyRef w) = true)
        \/ (~ unusable key
            /\ ~ same_key_as host (stableKeyRef w) key (heap w)
            /\ r <> stableKeyRef w
            /\ strict_eq r (stableKeyRef w) = false
            /\ exists a,
                 r = JObj a (key_props (opt_prop key (lit "id"))
                                       (opt_prop key (lit "group"))
                                       (opt_prop key (lit "data")))
                 /\ (heap w <= a < heap w')%N)).
Proof.
  intros Hstable Hmono.
  assert (Hnull :
    unusable key ->
    exists r w',
      useStableKey host key w = (Ok r, w')
      /\ stableKeyRef w' = r /\ (heap w <= heap w')%N
      /\ unusable key /\ r = JNull).
  { intros Hu. exists JNull, (with_stableKeyRef JNull w).
    split; [|split; [reflexivity|split; [simpl; lia|now split]]].
    unfold useStableKey.
    destruct (truthy key) eqn:Hk; [|reflexivity].
    cbn [negb]. rewrite truthy_js_and.
    destruct Hu as [Hu|[Hu|Hu]]; [congruence| |]; rewrite Hu;
      rewrite ?andb_false_r; reflexivity. }
  assert (Hnull' :
    unusable key ->
    exists r w',
      useStableKey host key w = (Ok r, w')
      /\ stableKeyRef w' = r /\ (heap w <= heap w')%N
      /\ ((unusable key /\ r = JNull)
          \/ (~ unusable key
              /\ same_key_as host (stableKeyRef w) key (heap w)
              /\ r = stableKeyRef w /\ stableKeyRef w <> JNull
              /\ strict_eq r (stableKeyRef w) = true)
          \/ (~ unusable key
              /\ ~ same_key_as host (stableKeyRef w) key (heap w)
              /\ r <> stableKeyRef w
              /\ strict_eq r (stableKeyRef w) = false
              /\ exists a,
                   r = JObj a (key_props (opt_prop key (lit "id"))
                                         (opt_prop key (lit "group"))
                                         (opt_prop key (lit "data")))
                   /\ (heap w <= a < heap w')%N))).
  { intros Hu. destruct (Hnull Hu) as (r & w' & E & Hr & Hh & Hc).
    exists r, w'. repeat (split; [assumption|]). left. exact Hc. }
  destruct (truthy key) eqn:Hk; [|apply Hnull'; left; exact Hk].
  destruct (truthy (opt_prop key (lit "id"))) eqn:Hi;
    [|apply Hnull'; right; left; exact Hi].
  destruct (truthy (opt_prop key (lit "data"))) eqn:Hd;
    [|apply Hnull'; right; right; exact Hd].
  clear Hnull Hnull'.
  assert (Hok : ~ unusable key) by (intros [H1|[H1|H1]]; congruence).
  set (props := key_props (opt_prop key (lit "id"))
                          (opt_prop key (lit "group"))
                          (opt_prop key (lit "data"))).
  (* what a changed key produces *)
  assert (Hfresh : forall h1,
    (heap w <= h1)%N ->
    ~ same_key_as host (stableKeyRef w) key (heap w) ->
    let r := JObj h1 props in
    let w' := with_stableKeyRef r (with_heap (N.succ h1) (with_heap h1 w)) in
    stableKeyRef w' = r /\ (heap w <= heap w')%N
    /\ ((unusable key /\ r = JNull)
        \/ (~ unusable key
            /\ same_key_as host (stableKeyRef w) key (heap w)
            /\ r = stableKeyRef w /\ stableKeyRef w <> JNull
            /\ strict_eq r (stableKeyRef w) = true)
        \/ (~ unusable key
            /\ ~ same_key_as host (stableKeyRef w) key (heap w)
            /\ r <> stableKeyRef w
            /\ strict_eq r (stableKeyRef w) = false
            /\ exists a, r = JObj a props /\ (heap w <= a < heap w')%N))).
  { intros h1 Hh Hns r w'.
    assert (Hne : strict_eq r (stableKeyRef w) = false
                  /\ r <> stableKeyRef w).
    { destruct Hstable as [E|(a & i & g & d & E & _ & _ & Ha)]; rewrite E.
      - split; [reflexivity|discriminate].
      - split.
        + cbn [strict_eq ref_of r]. apply N.eqb_neq. lia.
        + unfold r. intros X. inversion X. lia. }
    split; [reflexivity|]. split; [unfold w'; simpl; lia|].
    right; right. split; [exact Hok|]. split; [exact Hns|].
    split; [apply Hne|]. split; [apply Hne|].
    exists h1. split; [reflexivity|]. unfold w'; simpl; lia. }
  unfold useStableKey. rewrite Hk. cbn [negb].
  rewrite truthy_js_and, Hi, Hd. cbn [andb negb].
  rewrite bind_gets.
  destruct (truthy (stableKeyRef w)) eqn:Hp.
  2:{ cbn [negb]. rewrite bind_ret.
      assert (Hns : ~ same_key_as host (stableKeyRef w) key (heap w))
        by (intros (X & _); congruence).
      eexists; eexists. split; [reflexivity|].
      replace w with (with_heap (heap w) w) at 2 by (destruct w; reflexivity).
      apply (Hfresh (heap w)); [lia|exact Hns]. }
  cbn [negb].
  destruct (strict_eq (get_prop (stableKeyRef w) (lit "id"))
                      (opt_prop key (lit "id"))) eqn:Eid.
  2:{ cbn [negb]. rewrite bind_ret.
      assert (Hns : ~ same_key_as host (stableKeyRef w) key (heap w))
        by (intros (_ & X & _); congruence).
      eexists; eexists. split; [reflexivity|].
      replace w with (with_heap (heap w) w) at 2 by (destruct w; reflexivity).
      apply (Hfresh (heap w)); [lia|exact Hns]. }
  cbn [negb].
  destruct (strict_eq (get_prop (stableKeyRef w) (lit "group"))
                      (opt_prop key (lit "group"))) eqn:Egr.
  2:{ cbn [negb]. rewrite bind_ret.
      assert (Hns : ~ same_key_as host (stableKeyRef w) key (heap w))
        by (intros (_ & _ & X & _); congruence).
      eexists; eexists. split; [reflexivity|].
      replace w with (with_heap (heap w) w) at 2 by (destruct w; reflexivity).
      apply (Hfresh (heap w)); [lia|exact Hns]. }
  cbn [negb].
  destruct (deepEqual_result host (get_prop (stableKeyRef w) (lit "data"))
              (opt_prop key (lit "data")) (heap w))
    as (b & h1 & Edeep & Hh1 & _).
  specialize (Hh1 Hmono).
  rewrite (bind_ok _ _ _ (bind_liftH_ok _ _ _ Edeep)).
  destruct b; cbn [negb].
  - (* unchanged *)
    assert (Hs : same_key_as host (stableKeyRef w) key (heap w)).
    { split; [exact Hp|]. split; [exact Eid|]. split; [exact Egr|].
      rewrite Edeep. reflexivity. }
    assert (Hnn : stableKeyRef w <> JNull)
      by (intros X; rewrite X in Hp; discriminate).
    eexists; eexists. split; [reflexivity|].
    split; [reflexivity|]. split; [simpl; exact Hh1|].
    right; left. split; [exact Hok|]. split; [exact Hs|].
    split; [reflexivity|]. split; [exact Hnn|].
    cbn [stableKeyRef with_heap].
    destruct Hstable as [E|(a & i & g & d & E & _)]; [congruence|].
    rewrite E. cbn [strict_eq ref_of]. apply N.eqb_refl.
  - (* changed by the data *)
    assert (Hns : ~ same_key_as host (stableKeyRef w) key (heap w)).
    { intros (_ & _ & _ & X). rewrite Edeep in X. discriminate. }
    eexists; eexists. split; [reflexivity|].
    apply (Hfresh h1); [exact Hh1|exact Hns].
Qed.

(** The ref cell keeps its shape from one render to the next. *)
Lemma useStableKey_keeps_stable_ref (key : JsVal) (w : World) :
  stable_ref w -> heap_monotone host ->
  stable_ref (snd (useStableKey host key w)).
Proof.
  intros Hstable Hmono.
  destruct (useStableKey_cases key Hstable Hmono)
    as (r & w' & E & Hr & Hh & Hc).
  rewrite E. simpl.
  destruct Hc as [[_ Hn]|[(_ & _ & Hp & _)|(Hok & _ & _ & _ & a & Ha & Hlt)]].
  - left. congruence.
  - destruct Hstable as [X|(a & i & g & d & X & Hi & Hd & Ha)].
    + left. congruence.
    + right. exists a, i, g, d. repeat split; try assumption; [congruence|lia].
  - right. eexists; eexists; eexists; eexists.
    split; [rewrite Hr; exact Ha|].
    unfold unusable in Hok.
    split; [|split; [|lia]].
    + destruct (truthy (opt_prop key (lit "id"))) eqn:X; [reflexivity|].
      exfalso; apply Hok; right; left; reflexivity.
    + destruct (truthy (opt_prop key (lit "data"))) eqn:X; [reflexivity|].
      exfalso; apply Hok; right; right; reflexivity.
Qed.

(** The stabilizer in terms of its own test. *)
Lemma useStableKey_decision (key : JsVal) (w : World) :
  stable_ref w ->
  heap_monotone host ->
  exists r w',
    useStableKey host key w = (Ok r, w')
    /\ (same_key_as host (stableKeyRef w) key (heap w)
        <-> r = stableKeyRef w /\ stableKeyRef w <> JNull)
    /\ (same_key_as host (stableKeyRef w) key (heap w)
        -> strict_eq r (stableKeyRef w) = true)
    /\ (unusable key -> r = JNull)
    /\ (~ unusable key ->
        ~ same_key_as host (stableKeyRef w) key (heap w) ->
        strict_eq r (stableKeyRef w) = false
        /\ exists a,
             r = JObj a (key_props (opt_prop key (lit "id"))
                                   (opt_prop key (lit "group"))
                                   (opt_prop key (lit "data")))
             /\ (heap w <= a < heap w')%N).
Proof.
  intros Hstable Hmono.
  pose proof (@same_key_usable w key (heap w) Hstable) as Husable.
  destruct (useStableKey_cases key Hstable Hmono)
    as (r & w' & E & Hr & Hh & Hc).
  exists r, w'. split; [exact E|].
  destruct Hc as [[Hu Hn]
                 |[(Hok & Hs & Hp & Hnn & Heq)
                  |(Hok & Hns & Hne & Hneq & Hnew)]].
  - split; [split; [intros Hs; now apply Husable in Hs
                   |intros [X Y]; congruence]|].
    split; [intros Hs; now apply Husable in Hs|].
    split; [intros _; exact Hn|]. intros Hok; contradiction.
  - split; [split; [intros _; now split|intros _; exact Hs]|].
    split; [intros _; exact Heq|].
    split; [intros Hu; contradiction|]. intros _ Hns; contradiction.
  - split; [split; [intros Hs; contradiction|intros [X _]; contradiction]|].
    split; [intros Hs; contradiction|].
    split; [intros Hu; contradiction|]. intros _ _. now split.
Qed.

(** The test of the stabilizer is the condition of the specification. *)
Lemma same_key_as_same_key previous key h :
  same_key_as host previous key h <-> same_key host previous key h.
Proof.
  unfold same_key_as, same_key. rewrite (deepEqual_decides host).
  reflexivity.
Qed.

(** C4. The stabilizer, on a key and the previous stabilized key held by
    its ref cell: it returns the previous object itself exactly when
    that object exists and has strictly equal id and group and deep-equal
    data, deep equality being the relation the specification defines;
    it returns null when the key is null or its id or data is falsy; in
    every other case it returns a newly allocated object with the id,
    group and data of the key. *)
Theorem useStableKey_spec (key : JsVal) (w : World) :
  stable_ref w ->
  heap_monotone host ->
  exists r w',
    useStableKey host key w = (Ok r, w')
    /\ (same_key host (stableKeyRef w) key (heap w)
        <-> r = stableKeyRef w /\ stableKeyRef w <> JNull)
    /\ (same_key host (stableKeyRef w) key (heap w)
        -> strict_eq r (stableKeyRef w) = true)
    /\ (unusable key -> r = JNull)
    /\ (~ unusable key ->
        ~ same_key host (stableKeyRef w) key (heap w) ->
        strict_eq r (stableKeyRef w) = false
        /\ exists a,
             r = JObj a (key_props (opt_prop key (lit "id"))
                                   (opt_prop key (lit "group"))
                                   (opt_prop key (lit "data")))
             /\ (heap w <= a < heap w')%N).
Proof.
  intros Hstable Hmono.
  destruct (useStableKey_decision key Hstable Hmono)
    as (r & w' & E & Hiff & Hsame & Hnull & Hnew).
  exists r, w'. rewrite <- same_key_as_same_key.
  split; [exact E|]. split; [exact Hiff|]. split; [exact Hsame|].
  split; [exact Hnull|exact Hnew].
Qed.

End StabilizerTheorem.

(* ----------------------------------------------------------------- *)
(** ** MutationError.getUserMessage *)

(** C7, as stated, fails: with the empty string as id the method falls
    back to the word resource, where the specification's [??] keeps the
    empty id. *)
Lemma getUserMessage_empty_id :
  fst (getUserMessage empty_id_error 4%N)
    = Ok (JStr (lit "Failed to add resource. Please try again."))
  /\ spec_user_message OpCreate empty_id_key
     = lit "Failed to add . Please try again."
  /\ fst (getUserMessage empty_id_error 4%N)
     <> Ok (JStr (spec_user_message OpCreate empty_id_key)).
Proof.
  split; [vm_compute; reflexivity|].
  split; [vm_compute; reflexivity|].
  vm_compute. discriminate.
Qed.

(** C7, amended. For a MutationError whose context names the operation
    create, update or delete, getUserMessage returns the sentence made of
    the verb add, update or delete and of the id of the context's key
    when that id is truthy, of the word resource otherwise (the key is
    null, or its id is null, undefined, empty or otherwise falsy). *)
Theorem getUserMessage_spec (r : Ref) (message : jsstring)
        (context originalError : JsVal) (op : MutationOperation) (h : Ref) :
  get_prop context (lit "operation") = JStr (operation_name op) ->
  getUserMessage (JMutationError r message context originalError) h
  = (Ok (JStr (lit "Failed to " ++ user_verb op ++ lit " "
               ++ resource_text (get_prop context (lit "key"))
               ++ lit ". Please try again.")),
     N.succ h).
Proof.
  intros Hop. unfold getUserMessage.
  change (get_prop (JMutationError r message context originalError)
                   (lit "context")) with context.
  assert (Hn : is_nullish context = false).
  { destruct context; try reflexivity; simpl in Hop; discriminate. }
  rewrite Hn, Hop. unfold resource_text, js_or.
  destruct (truthy (opt_prop (get_prop context (lit "key")) (lit "id")));
    destruct op; reflexivity.
Qed.

(* ----------------------------------------------------------------- *)
(** ** to *)

(** C10. [to(p)] never rejects: it resolves to the pair of the value and
    null when [p] fulfils, and to the pair of null and the reason when
    [p] rejects. *)
Theorem to_never_rejects (promise : M JsVal) (w : World) :
  (exists pair w', to promise w = (Ok pair, w'))
  /\
  match promise w with
  | (Ok v, w1) =>
      to promise w
      = (Ok (JArr (heap w1) [v; JNull]), with_heap (N.succ (heap w1)) w1)
  | (Throw e, w1) =>
      to promise w
      = (Ok (JArr (heap w1) [JNull; e]), with_heap (N.succ (heap w1)) w1)
  end.
Proof.
  unfold to, try_catch, bind, liftH, alloc, ret.
  destruct (promise w) as [[v|e] w1];
    (split; [eexists; eexists; reflexivity|reflexivity]).
Qed.

(* ----------------------------------------------------------------- *)
(** ** The batch invalidators: the call they make *)

Section BatchCall.

Variable host : Host.

(** Every call of the cache's [mutate] is recorded, whatever comes of
    it. *)
Lemma mutate_log call w :
  mutateLog (snd (mutate host call w)) = mutateLog w ++ [call].
Proof.
  unfold mutate. rewrite bind_modify, bind_gets.
  cbn [mutateFault with_mutateLog].
  destruct (mutateFault w call) as [e|]; [reflexivity|].
  destruct (mc_target call) as [k|matcher].
  - destruct (unstable_serialize host k); [reflexivity|].
    destruct (populates (mc_options call)); reflexivity.
  - unfold bind at 1. rewrite bind_gets.
    unfold bind, liftH.
    destruct (write_matching matcher _ _ _ _) as [[c'|e] h']; reflexivity.
Qed.

Lemma batchError_run op message extra cause w :
  batchError op message extra cause w
  = (Ok (JMutationError (N.succ (heap w)) message
           (JObj (heap w)
                 ([(lit "operation", JStr (operation_name op));
                   (lit "key", JNull)] ++ extra
                  ++ [(lit "timestamp", JNum (clock w))]))
           cause),
     with_heap (N.succ (N.succ (heap w))) w).
Proof. reflexivity. Qed.

(** A batch function: the options object is built, [mutate] is called
    once, and a rejection of that call is wrapped. *)
Lemma batch_run op target newData options message extra w :
  let call := {| mc_target := target; mc_data := updaterFor newData;
                 mc_options := JObj (heap w)
                   (spread [(lit "revalidate",
                             js_nullish_or (opt_prop options (lit "revalidate"))
                               (JBool (negb (truthy newData))))] options) |} in
  let started := with_heap (N.succ (heap w)) w in
  try_catch
    (opts <- liftH (batchOptions newData options) ;;
     mutate host {| mc_target := target; mc_data := updaterFor newData;
                    mc_options := opts |} ;;;
     ret JUndefined)
    (fun error => e <- batchError op (message error) extra error ;; throw e) w
  = match mutate host call started with
    | (Ok _, w1) => (Ok JUndefined, w1)
    | (Throw cause, w1) =>
        (Throw (JMutationError (N.succ (heap w1)) (message cause)
                  (JObj (heap w1)
                        ([(lit "operation", JStr (operation_name op));
                          (lit "key", JNull)] ++ extra
                         ++ [(lit "timestamp", JNum (clock w1))]))
                  cause),
         with_heap (N.succ (N.succ (heap w1))) w1)
    end.
Proof.
  intros call started. unfold try_catch.
  assert (E : liftH (batchOptions newData options) w
              = (Ok (mc_options call), started)) by reflexivity.
  rewrite (bind_ok _ _ _ E).
  change {| mc_target := target; mc_data := updaterFor newData;
            mc_options := mc_options call |} with call.
  unfold bind at 1.
  destruct (mutate host call started) as [[r|cause] w1]; [reflexivity|].
  unfold bind. rewrite batchError_run. reflexivity.
Qed.

End BatchCall.

Section BatchArguments.

Variable host : Host.

(** With a truthy new value and no options, the call carries a constant
    updater and turns revalidation off. *)
Lemma batch_arguments_truthy newData h :
  truthy newData = true ->
  is_constant_updater (updaterFor newData) newData
  /\ exists opts, batchOptions newData JUndefined h = (Ok opts, N.succ h)
                  /\ get_prop opts (lit "revalidate") = JBool false.
Proof.
  intros Ht. unfold updaterFor, batchOptions. rewrite Ht. split.
  - intros current. reflexivity.
  - eexists. split; reflexivity.
Qed.

(** With the new value omitted and no options, the call carries no
    updater and revalidates. *)
Lemma batch_arguments_omitted h :
  is_no_updater (updaterFor JUndefined)
  /\ exists opts, batchOptions JUndefined JUndefined h = (Ok opts, N.succ h)
                  /\ get_prop opts (lit "revalidate") = JBool true.
Proof. split; [exact I|]. eexists. split; reflexivity. Qed.

Lemma lookup_set_prop name v props :
  lookup name (set_prop name v props) = Some v.
Proof.
  induction props as [|[k x] props IH]; cbn [set_prop lookup].
  - now rewrite str_eqb_refl.
  - destruct (str_eqb k name) eqn:E; cbn [lookup]; rewrite E; [reflexivity|].
    exact IH.
Qed.

Lemma lookup_set_prop_other name other v props :
  str_eqb other name = false ->
  lookup name (set_prop other v props) = lookup name props.
Proof.
  intros Hne. induction props as [|[k x] props IH]; cbn [set_prop lookup].
  - destruct (str_eqb other name); [discriminate|reflexivity].
  - destruct (str_eqb k other) eqn:E; cbn [lookup].
    + apply str_eqb_eq in E. subst k. now rewrite Hne.
    + destruct (str_eqb k name); [reflexivity|exact IH].
Qed.

Lemma lookup_spread name extra : forall props,
  lookup name (fold_left (fun acc kv => set_prop (fst kv) (snd kv) acc)
                         extra props)
  = match lookup name (rev extra) with
    | Some v => Some v
    | None => lookup name props
    end.
Proof.
  induction extra as [|[k x] extra IH]; intros props; [reflexivity|].
  cbn [fold_left fst snd rev]. rewrite IH.
  assert (Happ : forall l1 l2,
             lookup name (l1 ++ l2)
             = match lookup name l1 with
               | Some v => Some v
               | None => lookup name l2
               end).
  { induction l1 as [|[k1 x1] l1 IH1]; intros l2; [reflexivity|].
    cbn [app lookup]. destruct (str_eqb k1 name); [reflexivity|apply IH1]. }
  rewrite Happ. destruct (lookup name (rev extra)); [reflexivity|].
  cbn [lookup]. destruct (str_eqb k name) eqn:E.
  - apply str_eqb_eq in E. subst k. apply lookup_set_prop.
  - now apply lookup_set_prop_other.
Qed.

(** An options object that has a [revalidate] property decides. *)
Lemma batch_arguments_explicit newData r props v h :
  lookup (lit "revalidate") (rev props) = Some v ->
  exists opts, batchOptions newData (JObj r props) h = (Ok opts, N.succ h)
               /\ get_prop opts (lit "revalidate") = v.
Proof.
  intros Hv. eexists. split; [reflexivity|].
  cbn [get_prop spread]. rewrite lookup_spread, Hv. reflexivity.
Qed.

End BatchArguments.

(** C5, at a new value that is provided and falsy. [mutateById] with the
    new value 0 and no options calls [mutate] once, with undefined in
    the place of the updater and with revalidation on: the entries are
    refetched, not set to 0. *)
Theorem mutateById_zero_revalidates :
  let run := mutateById SampleHost.host (inl (lit "unread-count"))
                        (JNum 0) JUndefined quiet_world in
  fst run = Ok JUndefined
  /\ call_arguments (snd run)
     = [(DataValue JUndefined,
         JObj 100%N [(lit "revalidate", JBool true)])].
Proof. cbv zeta. split; vm_compute; reflexivity. Qed.

(* ----------------------------------------------------------------- *)
(** ** resetCache *)

Section ResetCache.

Variable host : Host.

(** The decision of the matcher on one key, for every argument but the
    empty string: the key is cleared when it does not decode, or decodes
    to an id that is not preserved. *)
Lemma resetMatcher_decides preservedKeys key h :
  preservedKeys <> KeyString [] ->
  exists decoded h1 h2,
    extractSWRKey host key h = (Ok decoded, h1)
    /\ resetMatcher host (preservedList preservedKeys) key h
       = (Ok (negb (truthy decoded)
              || negb (includes (preserved_ids preservedKeys)
                                (get_prop decoded (lit "id")))), h2).
Proof.
  intros Hne.
  destruct (extractSWRKey_outcome host key h) as [(d & h1 & E) _].
  exists d, h1.
  assert (Hsome : forall l,
    resetMatcher host (Some l) key h
    = (Ok (negb (truthy d) || negb (includes l (get_prop d (lit "id")))),
       h1)).
  { intros l. unfold resetMatcher. rewrite (bind_ok _ _ _ E).
    destruct (truthy d); reflexivity. }
  destruct preservedKeys as [s|l| |]; cbn [preservedList preserved_ids].
  - destruct s as [|c s]; [now elim Hne|]. cbn [truthy].
    exists h1. split; [exact E|]. apply Hsome.
  - exists h1. split; [exact E|]. apply Hsome.
  - exists h. split; [exact E|]. cbn [resetMatcher includes existsb negb].
    now rewrite orb_true_r.
  - exists h1. split; [exact E|]. apply Hsome.
Qed.

(** The empty string given as the single id fails the truthiness test of
    the normalisation, as null does: no id is preserved and every key is
    selected. *)
Lemma resetMatcher_empty_string key h :
  preservedList (KeyString []) = preservedList KeyNull
  /\ resetMatcher host (preservedList (KeyString [])) key h = (Ok true, h).
Proof. split; reflexivity. Qed.

(** The matcher of resetCache answers on every key. *)
Lemma resetMatcher_total keys key h :
  exists b h', resetMatcher host keys key h = (Ok b, h').
Proof.
  destruct keys as [l|]; [|eexists; eexists; reflexivity].
  destruct (extractSWRKey_outcome host key h) as [(d & h1 & E) _].
  unfold resetMatcher. rewrite (bind_ok _ _ _ E).
  destruct (truthy d); eexists; eexists; reflexivity.
Qed.

Lemma write_matching_total matcher d :
  (forall k h, exists b h', matcher k h = (Ok b, h')) ->
  forall c h, exists c' h',
    write_matching matcher true d c h = (Ok c', h')
    /\ Forall2 (fun e e' =>
                  exists b h0, fst (matcher (ce_key e) h0) = Ok b
                    /\ e' = if negb (special_index (ce_index e)) && b
                            then {| ce_index := ce_index e;
                                    ce_key := ce_key e;
                                    ce_data := next_data d (ce_data e) |}
                            else e) c c'.
Proof.
  intros Htotal. induction c as [|e c IH]; intros h.
  - exists [], h. split; [reflexivity|constructor].
  - destruct (Htotal (ce_key e) h) as (b & h1 & Eb).
    cbn [write_matching].
    destruct (special_index (ce_index e)) eqn:Hsp.
    + destruct (IH h) as (c' & h2 & Ec & HF).
      rewrite bind_ret, (bind_ok _ _ _ Ec).
      eexists; eexists. split; [reflexivity|].
      constructor; [|exact HF].
      exists b, h. rewrite Eb, Hsp. split; reflexivity.
    + destruct (IH h1) as (c' & h2 & Ec & HF).
      rewrite (bind_ok _ _ _ Eb), (bind_ok _ _ _ Ec).
      eexists; eexists. split; [reflexivity|].
      constructor; [|exact HF].
      exists b, h. rewrite Eb, Hsp. split; [reflexivity|].
      now rewrite andb_true_r.
Qed.


(** For every argument but the empty string, resetCache does what the
    specification says: its matcher selects a key for clearing exactly
    when the key does not decode or decodes to an id outside the
    preserved ids; the one call made to [mutate] passes undefined as data
    and false as revalidate; and when the cache accepts that call, every
    entry the matcher selects is cleared and every other entry is left as
    it was (the entries of useSWRInfinite and useSWRSubscription are
    never offered to the matcher). *)
Lemma resetCache_selects (preservedKeys : CacheKeyInput) :
  preservedKeys <> KeyString [] ->
  (forall key h, exists decoded h1 h2,
      extractSWRKey host key h = (Ok decoded, h1)
      /\ resetMatcher host (preservedList preservedKeys) key h
         = (Ok (negb (truthy decoded)
                || negb (includes (preserved_ids preservedKeys)
                                  (get_prop decoded (lit "id")))), h2))
  /\ (forall w,
        mutateLog (snd (resetCache host preservedKeys w))
        = mutateLog w ++ [reset_call host preservedKeys])
  /\ (forall w,
        mutateFault w (reset_call host preservedKeys) = None ->
        exists w',
          resetCache host preservedKeys w = (Ok JUndefined, w')
          /\ Forall2
               (fun e e' =>
                  exists selected h,
                    fst (resetMatcher host (preservedList preservedKeys)
                                      (ce_key e) h) = Ok selected
                    /\ e' = if negb (special_index (ce_index e)) && selected
                            then cleared e else e)
               (cache w) (cache w')).
Proof.
  intros Hne.
  split; [intros key h; now apply resetMatcher_decides|].
  split.
  - intros w. unfold resetCache, try_catch.
    fold (reset_call host preservedKeys).
    pose proof (mutate_log host (reset_call host preservedKeys) w) as Hlog.
    unfold bind at 1.
    destruct (mutate host (reset_call host preservedKeys) w) as [[r|cause] w1];
      simpl in Hlog; [exact Hlog|].
    unfold bind. rewrite batchError_run. exact Hlog.
  - intros w Hfault. unfold resetCache, try_catch.
    fold (reset_call host preservedKeys).
    destruct (@write_matching_total _ (DataValue JUndefined)
                (resetMatcher_total (preservedList preservedKeys))
                (cache w) (heap w)) as (c' & h' & Ew & HF).
    assert (Em : mutate host (reset_call host preservedKeys) w
                 = (Ok JUndefined,
                    with_cache c'
                      (with_heap h'
                         (with_mutateLog
                            (mutateLog w ++ [reset_call host preservedKeys])
                            w)))).
    { unfold mutate. rewrite bind_modify, bind_gets.
      cbn [mutateFault with_mutateLog]. rewrite Hfault.
      cbn [reset_call mc_target mc_options mc_data populates].
      unfold bind at 1. rewrite bind_gets.
      cbn [cache with_mutateLog].
      erewrite bind_liftH_ok by (cbn [heap with_mutateLog]; exact Ew).
      reflexivity. }
    rewrite (bind_ok _ _ _ Em).
    eexists. split; [reflexivity|]. exact HF.
Qed.

End ResetCache.

(** C6, at the empty string. Called with the empty string as the single
    id to preserve, resetCache normalises it as it does null, hands every
    key to the cache for clearing, and the entry whose key has that id is
    cleared; the specification, and the same id given in an array, keep
    that entry.  The call made to [mutate] is the one the specification
    describes: undefined as data, false as revalidate. *)
Theorem resetCache_empty_string_clears :
  let single := resetCache SampleHost.host (KeyString []) empty_id_world in
  let array := resetCache SampleHost.host (KeyArray [[]]) empty_id_world in
  includes (preserved_ids (KeyString [])) (get_prop empty_id_key (lit "id"))
  = true
  /\ fst (resetMatcher SampleHost.host (preservedList (KeyString []))
                       empty_id_key 100%N) = Ok true
  /\ fst single = Ok JUndefined
  /\ cache (snd single) = [cleared empty_id_entry]
  /\ call_arguments (snd single) = [(DataValue JUndefined, JBool false)]
  /\ fst array = Ok JUndefined
  /\ cache (snd array) = [empty_id_entry].
Proof. cbv zeta. repeat split; vm_compute; reflexivity. Qed.

(* ----------------------------------------------------------------- *)
(** ** The mutation hooks *)

Section Hooks.

Variable host : Host.

Lemma useSWRCreate_trigger_body stableKey createFunction options data :
  useSWRCreate_trigger host stableKey createFunction options data
  = trigger_body host OpCreate stableKey createFunction [data] options
      (applyOptimisticUpdate host stableKey data) [(lit "data", data)].
Proof. reflexivity. Qed.

Lemma useSWRUpdate_trigger_body stableKey updateFunction options id data :
  useSWRUpdate_trigger host stableKey updateFunction options id data
  = trigger_body host OpUpdate stableKey updateFunction [id; data] options
      (fun f =>
         payload <- liftH (new_object [(lit "id", id); (lit "data", data)]) ;;
         applyOptimisticUpdate host stableKey payload f)
      [(lit "data", data); (lit "id", id)].
Proof. reflexivity. Qed.

Lemma useSWRDelete_trigger_body stableKey deleteFunction options id :
  useSWRDelete_trigger host stableKey deleteFunction options id
  = trigger_body host OpDelete stableKey deleteFunction [id] options
      (applyOptimisticUpdate host stableKey id) [(lit "id", id)].
Proof. reflexivity. Qed.

(** A keyed call of [mutate]: rejected by the environment, or recorded
    and applied to the store. *)
Lemma mutate_keyed_run key data options w :
  let call := {| mc_target := ByKey key; mc_data := data;
                 mc_options := options |} in
  mutate host call w
  = match mutateFault w call with
    | Some e => (Throw e, logged call w)
    | None =>
        (Ok JUndefined,
         with_cache (cache_after host key data options (cache w))
                    (logged call w))
    end.
Proof.
  intros call. unfold mutate. rewrite bind_modify, bind_gets.
  cbn [mutateFault with_mutateLog]. fold (logged call w).
  destruct (mutateFault w call) as [e|]; [reflexivity|].
  unfold cache_after. cbn [mc_target call mc_options mc_data].
  destruct (unstable_serialize host key) as [|c i]; [reflexivity|].
  destruct (populates options); reflexivity.
Qed.

Lemma createMutationError_run op stableKey err additionalContext w :
  exists message,
    createMutationError op stableKey err additionalContext w
    = (Ok (JMutationError (N.succ (heap w)) message
             (JObj (heap w)
                (set_prop (lit "timestamp") (JNum (clock w))
                   (spread [(lit "operation", JStr (operation_name op));
                            (lit "key", stableKey)] additionalContext)))
             err),
       with_heap (N.succ (N.succ (heap w))) w).
Proof. eexists. reflexivity. Qed.

End Hooks.

Section HookRuns.

Variable host : Host.

Lemma on_failure_run op stableKey options extra originalData err w :
  mutateFault w (write_call stableKey originalData) = None ->
  exists message w',
    on_failure host op stableKey options extra originalData err w
    = (Throw (JMutationError (N.succ (N.succ (heap w))) message
                (JObj (N.succ (heap w))
                      (hook_context op stableKey extra (heap w) (clock w)))
                err), w')
    /\ cache w'
       = (if rolls_back options
          then cache_after host stableKey (DataValue originalData)
                           (JBool false) (cache w)
          else cache w)
    /\ isMounted w' = isMounted w
    /\ remoteLog w' = remoteLog w.
Proof.
  intros Hfault. unfold on_failure. fold (rolls_back options).
  assert (Hstep :
    exists w1,
      when (rolls_back options)
           (rollbackOptimisticUpdate host stableKey originalData) w
      = (Ok tt, w1)
      /\ heap w1 = heap w /\ clock w1 = clock w
      /\ isMounted w1 = isMounted w /\ remoteLog w1 = remoteLog w
      /\ cache w1
         = (if rolls_back options
            then cache_after host stableKey (DataValue originalData)
                             (JBool false) (cache w)
            else cache w)).
  { destruct (rolls_back options); cbn [when].
    - pose proof (mutate_keyed_run host stableKey (DataValue originalData)
                    (JBool false) w) as Hm.
      cbv zeta in Hm. fold (write_call stableKey originalData) in Hm.
      rewrite Hfault in Hm.
      eexists. split.
      + unfold rollbackOptimisticUpdate, swrMutate.
        fold (write_call stableKey originalData).
        rewrite (bind_ok _ _ _ Hm). reflexivity.
      + repeat split.
    - eexists. split; [reflexivity|]. repeat split. }
  destruct Hstep as (w1 & Hw1 & Hheap & Hclock & Hmounted & Hlog & Hcache).
  rewrite (bind_ok _ _ _ Hw1).
  rewrite <- Hheap, <- Hclock, <- Hcache, <- Hmounted, <- Hlog.
  clear Hw1 Hheap Hclock Hmounted Hcache Hlog Hfault.
  destruct w1 as [hp ck ca mf ml rl mounted mu er sk].
  cbn [heap clock cache isMounted remoteLog].
  destruct mounted; eexists; eexists;
    (split; [reflexivity|split; [reflexivity|split; reflexivity]]).
Qed.

Lemma finally_run (w : World) :
  (mounted <- gets isMounted ;; when mounted (setIsMutating false)) w
  = (Ok tt, if isMounted w then with_isMutating false w else w).
Proof. rewrite bind_gets. destruct (isMounted w); reflexivity. Qed.

Lemma attempt_run op stableKey remote args options extra originalData w :
  writes_accepted w ->
  exists res w',
    attempt host op stableKey remote args options extra originalData w
    = (res, w')
    /\ remoteLog w' = remoteLog w ++ [args]
    /\ match res with
       | Ok v => reply (remote args) = Ok v
       | Throw t =>
           exists cause,
             raw_cause stableKey (remote args) w cause
             /\ wraps op stableKey extra t cause
             /\ cache w'
                = (if rolls_back options
                   then cache_after host stableKey (DataValue originalData)
                                    (JBool false) (cache w)
                   else cache w)
       end.
Proof.
  intros Hacc.
  change (attempt host op stableKey remote args options extra originalData)
    with (try_finally
            (try_catch
               (result <- call_remote remote args ;;
                mounted <- gets isMounted ;;
                if negb mounted then ret result
                else swrMutate host stableKey JUndefined JUndefined ;;;
                     ret result)
               (on_failure host op stableKey options extra originalData))
            (mounted <- gets isMounted ;; when mounted (setIsMutating false))).
  unfold try_finally, try_catch.
  set (w1 := with_remoteLog (remoteLog w ++ [args]) w).
  set (w3 := if unmounts (remote args) then with_isMounted false w1 else w1).
  assert (Hremote : call_remote remote args w = (reply (remote args), w3))
    by reflexivity.
  assert (Hw3 : mutateFault w3 = mutateFault w /\ cache w3 = cache w
                /\ remoteLog w3 = remoteLog w ++ [args])
    by (unfold w3, w1; destruct (unmounts (remote args)); repeat split).
  destruct Hw3 as (Hmf3 & Hca3 & Hrl3).
  (* the catch block, started in a world [wh] for a cause *)
  assert (Hfail : forall cause wh,
    mutateFault wh = mutateFault w -> cache wh = cache w ->
    remoteLog wh = remoteLog w ++ [args] ->
    raw_cause stableKey (remote args) w cause ->
    exists res w',
      (let (r, s') :=
         on_failure host op stableKey options extra originalData cause wh in
       let (o, s'') :=
         (mounted <- gets isMounted ;; when mounted (setIsMutating false)) s'
       in match o with
          | Ok _ => (r, s'')
          | Throw e => (Throw e, s'')
          end) = (res, w')
      /\ remoteLog w' = remoteLog w ++ [args]
      /\ match res with
         | Ok v => reply (remote args) = Ok v
         | Throw t =>
             exists cause0,
               raw_cause stableKey (remote args) w cause0
               /\ wraps op stableKey extra t cause0
               /\ cache w'
                  = (if rolls_back options
                     then cache_after host stableKey
                            (DataValue originalData) (JBool false) (cache w)
                     else cache w)
         end).
  { intros cause wh Hmf Hca Hrl Hraw.
    assert (Hf : mutateFault wh (write_call stableKey originalData) = None)
      by (rewrite Hmf; apply Hacc).
    destruct (on_failure_run op stableKey options extra originalData cause
                wh Hf) as (message & w' & E & Hc & Hm & Hl).
    rewrite E, finally_run.
    eexists; eexists. split; [reflexivity|].
    split; [destruct (isMounted w'); cbn [remoteLog with_isMutating];
            congruence|].
    exists cause. split; [exact Hraw|].
    split; [eexists; eexists; eexists; reflexivity|].
    rewrite <- Hca, <- Hc. destruct (isMounted w'); reflexivity. }
  destruct (reply (remote args)) as [v|cause] eqn:Hreply.
  - rewrite (bind_ok _ _ _ Hremote), bind_gets.
    destruct (isMounted w3) eqn:Hm3; cbn [negb].
    + pose proof (mutate_keyed_run host stableKey (DataValue JUndefined)
                    JUndefined w3) as Hmut.
      cbv zeta in Hmut. fold (revalidate_call stableKey) in Hmut.
      unfold swrMutate. fold (revalidate_call stableKey).
      destruct (mutateFault w3 (revalidate_call stableKey)) as [cause|] eqn:Hf.
      * rewrite (bind_throw _ _ _ Hmut).
        apply Hfail; try assumption.
        right. exists v. split; [exact Hreply|]. now rewrite <- Hmf3.
      * rewrite (bind_ok _ _ _ Hmut). unfold ret at 1.
        rewrite finally_run.
        eexists; eexists. split; [reflexivity|].
        split; [|reflexivity].
        rewrite <- Hrl3.
        destruct (isMounted _); reflexivity.
    + unfold ret at 1. rewrite finally_run, Hm3.
      eexists; eexists. split; [reflexivity|]. split; [exact Hrl3|reflexivity].
  - rewrite (bind_throw _ _ _ Hremote).
    apply Hfail; try assumption. left. exact Hreply.
Qed.

(** What swrGetCache answers depends on the store alone, and for a key
    that is not a string, as every structured key, it is undefined:
    the store is indexed by strings and the key is looked up as it is. *)
Lemma cached_same_cache w1 w2 key :
  cache w1 = cache w2 -> cached w1 key = cached w2 key.
Proof.
  intros Hc. unfold cached, swrGetCache, cache_get, gets, ret.
  destruct (truthy key); cbn [negb fst]; [|reflexivity].
  destruct key; try reflexivity. now rewrite Hc.
Qed.

Lemma cached_not_string w key :
  is_string_type key = false -> cached w key = JUndefined.
Proof.
  intros Hk. unfold cached, swrGetCache, cache_get, gets, ret.
  destruct (truthy key); cbn [negb fst]; [|reflexivity].
  destruct key; try reflexivity. discriminate Hk.
Qed.

(** For a string that the cache indexes as it is, swrGetCache answers
    what the store holds. *)
Lemma cached_string w s :
  truthy (JStr s) = true -> unstable_serialize host (JStr s) = s ->
  cached w (JStr s) = cached_in host (cache w) (JStr s).
Proof.
  intros Ht Hs. unfold cached, cached_in, swrGetCache, cache_get, gets.
  rewrite Ht, Hs. reflexivity.
Qed.

Lemma find_entry_write i d c :
  exists e, find_entry i (write_entry i (DataValue d) c) = Some e
            /\ ce_data e = d.
Proof.
  unfold find_entry.
  induction c as [|e0 c IH]; cbn [write_entry find].
  - cbn [ce_index]. rewrite str_eqb_refl. eexists; split; reflexivity.
  - destruct (str_eqb (ce_index e0) i) eqn:E; cbn [find ce_index].
    + rewrite str_eqb_refl. eexists; split; reflexivity.
    + rewrite E. exact IH.
Qed.

Lemma applyOptimisticUpdate_run stableKey data f w :
  writes_accepted w ->
  applyOptimisticUpdate host stableKey data f w
  = (Ok (cached w stableKey),
     with_cache
       (cache_after host stableKey
          (DataValue (f (cached w stableKey) data)) (JBool false)
          (cache w))
       (logged (write_call stableKey (f (cached w stableKey) data)) w)).
Proof.
  intros Hacc. unfold applyOptimisticUpdate.
  assert (Hget : swrGetCache stableKey w
                 = (fst (swrGetCache stableKey w), w)).
  { unfold swrGetCache. destruct (truthy stableKey); reflexivity. }
  destruct (fst (swrGetCache stableKey w)) as [entry|e] eqn:Hfst.
  2:{ unfold swrGetCache in Hfst.
      destruct (truthy stableKey); discriminate. }
  rewrite (bind_ok _ _ _ Hget).
  assert (Horig : match entry with
                  | Some e => ce_data e
                  | None => JUndefined
                  end = cached w stableKey).
  { unfold cached. rewrite Hfst. reflexivity. }
  rewrite Horig.
  pose proof (mutate_keyed_run host stableKey
                (DataValue (f (cached w stableKey) data))
                (JBool false) w) as Hm.
  cbv zeta in Hm.
  fold (write_call stableKey (f (cached w stableKey) data)) in Hm.
  rewrite (Hacc stableKey (f (cached w stableKey) data)) in Hm.
  unfold swrMutate.
  fold (write_call stableKey (f (cached w stableKey) data)).
  rewrite (bind_ok _ _ _ Hm). reflexivity.
Qed.

Lemma optimistic_step_apply stableKey data :
  optimistic_step host stableKey (applyOptimisticUpdate host stableKey data).
Proof.
  intros f w Hacc. eexists; eexists.
  split; [apply applyOptimisticUpdate_run; exact Hacc|].
  repeat split.
Qed.

Lemma optimistic_step_update stableKey id data :
  optimistic_step host stableKey
    (fun f =>
       payload <- liftH (new_object [(lit "id", id); (lit "data", data)]) ;;
       applyOptimisticUpdate host stableKey payload f).
Proof.
  intros f w Hacc.
  assert (Hobj : liftH (new_object [(lit "id", id); (lit "data", data)]) w
                 = (Ok (JObj (heap w) [(lit "id", id); (lit "data", data)]),
                    with_heap (N.succ (heap w)) w)) by reflexivity.
  rewrite (bind_ok _ _ _ Hobj).
  assert (Hacc' : writes_accepted (with_heap (N.succ (heap w)) w))
    by (intros k d; apply Hacc).
  rewrite (applyOptimisticUpdate_run _ _ _ Hacc').
  assert (Hc : cached (with_heap (N.succ (heap w)) w) stableKey
               = cached w stableKey)
    by (now apply cached_same_cache).
  rewrite Hc. eexists; eexists. split; [reflexivity|]. repeat split.
Qed.

(** A trigger, from its call to its settlement. *)
Lemma trigger_body_run op stableKey remote args options optimistic extra w :
  writes_accepted w ->
  optimistic_step host stableKey optimistic ->
  (isMounted w = false ->
   trigger_body host op stableKey remote args options optimistic extra w
   = (Ok JUndefined, w))
  /\ (isMounted w = true ->
      exists res w',
        trigger_body host op stableKey remote args options optimistic extra w
        = (res, w')
        /\ remoteLog w' = remoteLog w ++ [args]
        /\ match res with
           | Ok v => reply (remote args) = Ok v
           | Throw t =>
               exists cause,
                 raw_cause stableKey (remote args) w cause
                 /\ wraps op stableKey extra t cause
           end).
Proof.
  intros Hacc Hopt. unfold trigger_body. rewrite bind_gets.
  split; intros Hm; rewrite Hm; cbn [negb]; [reflexivity|].
  unfold setIsMutating, setError. rewrite !bind_modify.
  set (w0 := with_error JNull (with_isMutating true w)).
  assert (Hacc0 : writes_accepted w0) by (intros k d; apply Hacc).
  assert (Htransfer : forall originalData w1,
    mutateFault w1 = mutateFault w -> remoteLog w1 = remoteLog w ->
    exists res w',
      attempt host op stableKey remote args options extra originalData w1
      = (res, w')
      /\ remoteLog w' = remoteLog w ++ [args]
      /\ match res with
         | Ok v => reply (remote args) = Ok v
         | Throw t =>
             exists cause,
               raw_cause stableKey (remote args) w cause
               /\ wraps op stableKey extra t cause
         end).
  { intros originalData w1 Hmf Hrl.
    assert (Hacc1 : writes_accepted w1)
      by (intros k d; rewrite Hmf; apply Hacc).
    destruct (attempt_run op stableKey remote args options extra
                originalData Hacc1) as (res & w' & E & Hl & Hres).
    exists res, w'. split; [exact E|]. split; [congruence|].
    destruct res as [v|t]; [exact Hres|].
    destruct Hres as (cause & Hraw & Hwraps & Hcache).
    exists cause. split; [|exact Hwraps].
    destruct Hraw as [Hr|(v & Hr & Hf)]; [left; exact Hr|].
    right. exists v. split; [exact Hr|]. now rewrite <- Hmf. }
  destruct (optimisticUpdate options) as [f|] eqn:Hf.
  - destruct (Hopt f w0 Hacc0) as (optimisticData & w1 & E & Hmf & Hrl & Hc).
    rewrite (bind_ok _ _ _ E).
    apply Htransfer; [exact Hmf|exact Hrl].
  - rewrite bind_ret.
    apply Htransfer; reflexivity.
Qed.

Lemma wraps_name op stableKey extra t cause :
  wraps op stableKey extra t cause ->
  get_prop t (lit "name") = JStr (lit "MutationError")
  /\ get_prop t (lit "originalError") = cause.
Proof. intros (a & now & message & ->). split; reflexivity. Qed.

End HookRuns.

(** C1, at the example of the specification: the cache holds a list of
    two items for the key, the transform removes the item of the given
    id, rollback on error is left at its default, and the remote delete
    function rejects.  The trigger throws a MutationError around the
    rejection, as the specification says; but the cache does not get its
    list back.  swrGetCache hands the key object to the store, which is
    indexed by strings and finds nothing, so that the value saved for the
    rollback is undefined: the transform is applied to undefined, and the
    rollback writes undefined over the entry. *)
Theorem delete_rollback_clears_entry :
  let run := useSWRDelete_trigger SampleHost.host todos_key delete_fails
               optimistic_delete (JNum 1) todos_world in
  cached_in SampleHost.host (cache todos_world) todos_key
  = ce_data todos_entry
  /\ cached todos_world todos_key = JUndefined
  /\ (exists t, fst run = Throw t
                /\ get_prop t (lit "name") = JStr (lit "MutationError")
                /\ get_prop t (lit "originalError") = delete_cause)
  /\ mutateLog (snd run)
     = [write_call todos_key (remove_item JUndefined (JNum 1));
        write_call todos_key JUndefined]
  /\ cached_in SampleHost.host (cache (snd run)) todos_key = JUndefined
  /\ cached_in SampleHost.host (cache (snd run)) todos_key
     <> ce_data todos_entry.
Proof.
  cbv zeta. split; [vm_compute; reflexivity|].
  split; [vm_compute; reflexivity|].
  split; [eexists; split; [vm_compute; reflexivity|split; reflexivity]|].
  split; [vm_compute; reflexivity|].
  split; [vm_compute; reflexivity|].
  vm_compute. discriminate.
Qed.

(* ----------------------------------------------------------------- *)
(** ** Every entry point and its failures *)

(** C8, as stated, fails: when the rollback write is rejected, the
    trigger throws that rejection as it is, an Error that is not a
    MutationError and does not carry the rejection of the remote
    function. *)
Lemma rollback_rejection_is_not_wrapped :
  fst (run_call SampleHost.host
         (CallDelete todos_key delete_fails optimistic_delete (JNum 1))
         rollback_refused)
  = Throw write_error
  /\ ~ (exists cause,
          delivers (CallDelete todos_key delete_fails optimistic_delete
                               (JNum 1))
                   write_error cause).
Proof.
  split; [vm_compute; reflexivity|].
  intros (cause & r & message & context & E & _). discriminate E.
Qed.

Section Failures.

Variable host : Host.

Lemma hook_failure c op stableKey remote args options optimistic extra
      w t w' :
  call_operation c = op -> call_key c = stableKey ->
  lookup (lit "operation") (rev extra) = None ->
  lookup (lit "key") (rev extra) = None ->
  writes_accepted w ->
  optimistic_step host stableKey optimistic ->
  trigger_body host op stableKey remote args options optimistic extra w
  = (Throw t, w') ->
  exists cause, raw_cause stableKey (remote args) w cause
                /\ delivers c t cause.
Proof.
  intros Hop Hkey Hno Hnk Hacc Hopt Hrun.
  destruct (@trigger_body_run host op stableKey remote args options
              optimistic extra w Hacc Hopt) as [Hun Hmo].
  destruct (isMounted w).
  2:{ rewrite (Hun eq_refl) in Hrun. discriminate. }
  destruct (Hmo eq_refl) as (res & w1 & E & _ & Hres).
  rewrite E in Hrun. inversion Hrun; subst res w1.
  destruct Hres as (cause & Hraw & (a & now & message & Ht)).
  exists cause. split; [exact Hraw|].
  eexists; eexists; eexists. split; [exact Ht|].
  rewrite Hop, Hkey. unfold hook_context.
  cbn [get_prop spread].
  rewrite !lookup_set_prop_other by reflexivity.
  rewrite !lookup_spread, Hno, Hnk. split; reflexivity.
Qed.

Lemma batch_failure c target newData options message w t w' :
  call_operation c = OpUpdate -> call_key c = JNull ->
  try_catch
    (opts <- liftH (batchOptions newData options) ;;
     mutate host {| mc_target := target; mc_data := updaterFor newData;
                    mc_options := opts |} ;;;
     ret JUndefined)
    (fun error =>
       e <- batchError OpUpdate (message error) [(lit "data", newData)]
              error ;;
       throw e) w
  = (Throw t, w') ->
  exists cause,
    fst (mutate host (fst (batch_call host target newData options w))
                (snd (batch_call host target newData options w)))
    = Throw cause
    /\ delivers c t cause.
Proof.
  intros Hop Hkey Hrun. rewrite batch_run in Hrun. cbv zeta in Hrun.
  cbn [batch_call fst snd].
  destruct (mutate host _ (with_heap (N.succ (heap w)) w))
    as [[r|cause] w1]; [discriminate|].
  inversion Hrun; subst t w'.
  exists cause. split; [reflexivity|].
  eexists; eexists; eexists. split; [reflexivity|].
  rewrite Hop, Hkey. split; reflexivity.
Qed.

(** C8, amended. When a hook trigger fails because its remote function
    rejects, or because the revalidation after it is rejected, and when
    a batch function fails because its call to the cache's mutate is
    rejected, the error delivered is a MutationError with the operation
    and the key in its context and that rejection as originalError. The
    statement is made for a cache that accepts the optimistic write and
    the rollback write of the hooks. *)
Theorem failures_are_wrapped (c : ApiCall) (w : World) (t : JsVal)
        (w' : World) :
  writes_accepted w ->
  run_call host c w = (Throw t, w') ->
  exists cause, failure_cause host c w cause /\ delivers c t cause.
Proof.
  intros Hacc Hrun.
  destruct c as [k f o d|k f o i d|k f o i|ids d o|g d o|p];
    cbn [run_call failure_cause] in *.
  - rewrite useSWRCreate_trigger_body in Hrun.
    eapply hook_failure; try exact Hrun; try reflexivity; try exact Hacc.
    apply optimistic_step_apply.
  - rewrite useSWRUpdate_trigger_body in Hrun.
    eapply hook_failure; try exact Hrun; try reflexivity; try exact Hacc.
    apply optimistic_step_update.
  - rewrite useSWRDelete_trigger_body in Hrun.
    eapply hook_failure; try exact Hrun; try reflexivity; try exact Hacc.
    apply optimistic_step_apply.
  - eapply (batch_failure (CallMutateById ids d o)); try reflexivity.
    exact Hrun.
  - eapply (batch_failure (CallMutateByGroup g d o)); try reflexivity.
    exact Hrun.
  - unfold resetCache, try_catch in Hrun.
    fold (reset_call host p) in Hrun. unfold bind at 1 in Hrun.
    cbn [fst snd].
    destruct (mutate host (reset_call host p) w) as [[r|cause] w1];
      [discriminate|].
    unfold bind in Hrun. rewrite batchError_run in Hrun.
    inversion Hrun; subst t w'.
    exists cause. split; [reflexivity|].
    eexists; eexists; eexists. split; [reflexivity|]. split; reflexivity.
Qed.

End Failures.

(* ----------------------------------------------------------------- *)
(** ** The theorems at concrete inputs *)

Lemma sample_host_monotone : heap_monotone SampleHost.host.
Proof. intros v h. exact (N.le_refl h). Qed.

Lemma quiet_writes_accepted : writes_accepted todos_world.
Proof. intros key data. reflexivity. Qed.

Lemma extractSWRKey_passthrough_witness :
  extractSWRKey SampleHost.host todos_key 10%N = (Ok todos_key, 10%N)
  /\ (forall r, fst (extractSWRKey SampleHost.host todos_key 10%N) = Ok r ->
                strict_eq r todos_key = true).
Proof.
  apply (@extractSWRKey_passthrough SampleHost.host todos_key 10%N);
    reflexivity.
Defined.

Lemma legacy_roundtrip_witness :
  extractSWRKey SampleHost.host
    (JStr (encodeLegacy (lit "user1") (Some (lit "users")) None)) 10%N
  = (Ok (JObj 10%N (key_props (JStr (lit "user1")) (JStr (lit "users"))
                              JUndefined)),
     11%N).
Proof.
  apply (@legacy_roundtrip SampleHost.host (lit "user1")
           (Some (lit "users")) None 10%N).
  - repeat constructor.
  - repeat constructor.
  - exact I.
Defined.

Lemma useStableKey_spec_witness :
  exists r w',
    useStableKey SampleHost.host rerender_key render_world = (Ok r, w')
    /\ (same_key SampleHost.host (stableKeyRef render_world) rerender_key
                 (heap render_world)
        <-> r = stableKeyRef render_world
            /\ stableKeyRef render_world <> JNull)
    /\ (same_key SampleHost.host (stableKeyRef render_world) rerender_key
                 (heap render_world)
        -> strict_eq r (stableKeyRef render_world) = true)
    /\ (unusable rerender_key -> r = JNull)
    /\ (~ unusable rerender_key ->
        ~ same_key SampleHost.host (stableKeyRef render_world)
                   rerender_key (heap render_world) ->
        strict_eq r (stableKeyRef render_world) = false
        /\ exists a,
             r = JObj a (key_props (opt_prop rerender_key (lit "id"))
                                   (opt_prop rerender_key (lit "group"))
                                   (opt_prop rerender_key (lit "data")))
             /\ (heap render_world <= a < heap w')%N).
Proof.
  apply (@useStableKey_spec SampleHost.host rerender_key render_world).
  - right. exists 1%N, (JStr (lit "t")), JUndefined,
             (JObj 2%N [(lit "u", JNum 1)]).
    repeat split.
  - exact sample_host_monotone.
Defined.

(** On the reference host, whose serialization does not show the
    address of an object, two objects with the same properties are
    deep-equal for deepEqual wherever they are allocated. *)
Lemma deepEqual_same_content r1 r2 props h :
  deepEqual SampleHost.host (JObj r1 props) (JObj r2 props) h = (Ok true, h).
Proof.
  unfold deepEqual.
  destruct (strict_eq (JObj r1 props) (JObj r2 props)); [reflexivity|].
  cbn [is_nullish orb is_object_type typeof negb].
  change (JSON_stringify SampleHost.host) with SampleHost.JSON_stringify.
  unfold SampleHost.JSON_stringify, try_catch, bind, ret.
  set (t := SampleHost.stringify (S (SampleHost.depth (JObj r1 props)))
                                 (JObj r1 props)).
  change (SampleHost.stringify (S (SampleHost.depth (JObj r2 props)))
                               (JObj r2 props)) with t.
  cbv beta iota.
  destruct t; cbn [strict_eq]; [now rewrite str_eqb_refl|reflexivity].
Qed.

(** The example of the specification: the second render brings a new
    object with the same values, at another address; its data and the
    data of the previous key are deep-equal, deepEqual says so, and the
    stabilizer returns the previous key and leaves the ref cell alone.
    Data with another value is not deep-equal. *)
Lemma deepEqual_distinct_objects :
  deep_equal SampleHost.host (JObj 2%N [(lit "u", JNum 1)])
             (JObj 4%N [(lit "u", JNum 1)]) 100%N
  /\ deepEqual SampleHost.host (JObj 2%N [(lit "u", JNum 1)])
               (JObj 4%N [(lit "u", JNum 1)]) 100%N = (Ok true, 100%N)
  /\ deepEqual SampleHost.host (JObj 2%N [(lit "u", JNum 1)])
               (JObj 4%N [(lit "u", JNum 2)]) 100%N = (Ok false, 100%N)
  /\ ~ deep_equal SampleHost.host (JObj 2%N [(lit "u", JNum 1)])
                  (JObj 4%N [(lit "u", JNum 2)]) 100%N
  /\ useStableKey SampleHost.host rerender_key render_world
     = (Ok (stableKeyRef render_world), render_world).
Proof.
  split.
  { right. repeat (split; [reflexivity|]).
    eexists; eexists; eexists; eexists.
    split; [vm_compute; reflexivity|].
    split; [vm_compute; reflexivity|]. vm_compute. reflexivity. }
  split; [vm_compute; reflexivity|].
  split; [vm_compute; reflexivity|].
  split; [|vm_compute; reflexivity].
  intros Hd. apply (deepEqual_decides SampleHost.host) in Hd.
  vm_compute in Hd. discriminate Hd.
Qed.

Lemma getUserMessage_spec_witness :
  getUserMessage
    (JMutationError 3%N (lit "Failed to delete resource")
       delete_error_context (JError 7%N (lit "Error") (lit "Delete failed")))
    10%N
  = (Ok (JStr (lit "Failed to delete todos. Please try again.")), 11%N).
Proof.
  apply (@getUserMessage_spec 3%N (lit "Failed to delete resource")
           delete_error_context
           (JError 7%N (lit "Error") (lit "Delete failed")) OpDelete 10%N).
  reflexivity.
Defined.

Lemma failures_are_wrapped_witness :
  exists cause,
    failure_cause SampleHost.host delete_call todos_world cause
    /\ delivers delete_call delete_error cause.
Proof.
  apply (@failures_are_wrapped SampleHost.host delete_call todos_world
           delete_error
           (snd (run_call SampleHost.host delete_call todos_world))).
  - exact quiet_writes_accepted.
  - vm_compute. reflexivity.
Defined.

Lemma extractSWRKey_total_witness :
  exists h',
    extractSWRKey SampleHost.host (JStr (lit "simple-key")) 10%N
    = (Ok JNull, h').
Proof.
  apply (proj2 (@extractSWRKey_total SampleHost.host
                  (JStr (lit "simple-key")) 10%N)).
  - intros (H & _). discriminate H.
  - intros (s & E & Hs & _). inversion E; subst s.
    vm_compute in Hs. discriminate Hs.
  - intros (s & h & o & h' & E & Hp & _). inversion E; subst s.
    vm_compute in Hp. discriminate Hp.
Defined.

(* ================================================================= *)
(** * Further properties of the code *)

(* ----------------------------------------------------------------- *)
(** ** unescapeString and the key forms *)

Lemma replace_loop_nil fuel r : replace_loop fuel r [] = [].
Proof. destruct fuel; reflexivity. Qed.

Lemma match_escape_miss c s :
  N.eqb c bslash = false -> match_here ESCAPE_PATTERN (c :: s) = None.
Proof.
  intros Hc. apply match_here_lit_fail. cbn [strip_prefix].
  rewrite N.eqb_sym. now rewrite Hc.
Qed.

Lemma match_escape_hit d s :
  dot d = true ->
  match_here ESCAPE_PATTERN (bslash :: d :: s) = Some (s, Some [d]).
Proof.
  intros Hd. unfold match_here, ESCAPE_PATTERN.
  cbn [rmatch strip_prefix]. rewrite N.eqb_refl. rewrite Hd.
  replace (length (d :: s) - length s)%nat with 1%nat
    by (cbn [length]; lia).
  reflexivity.
Qed.

Lemma match_escape_break d s :
  dot d = false -> match_here ESCAPE_PATTERN (bslash :: d :: s) = None.
Proof.
  intros Hd. unfold match_here, ESCAPE_PATTERN.
  cbn [rmatch strip_prefix]. rewrite N.eqb_refl. now rewrite Hd.
Qed.

Lemma replace_loop_dropEscapes fuel : forall s,
  (length s <= fuel)%nat ->
  replace_loop fuel ESCAPE_PATTERN s = dropEscapes s.
Proof.
  induction fuel as [|fuel IH]; intros s Hs.
  - destruct s; [reflexivity|simpl in Hs; lia].
  - destruct s as [|c s]; [reflexivity|].
    cbn [replace_loop dropEscapes].
    destruct (N.eqb c bslash) eqn:Hc.
    + apply N.eqb_eq in Hc. subst c.
      destruct s as [|d s].
      * change (match_here ESCAPE_PATTERN [bslash])
          with (@None (jsstring * option jsstring)).
        now rewrite replace_loop_nil.
      * destruct (dot d) eqn:Hd.
        -- rewrite (match_escape_hit d s Hd).
           assert (Hlt : (length s <? length (bslash :: d :: s))%nat = true)
             by (apply Nat.ltb_lt; simpl; lia).
           rewrite Hlt. cbn [app]. rewrite IH by (cbn [length] in *; lia).
           reflexivity.
        -- rewrite (match_escape_break d s Hd).
           rewrite IH by (cbn [length] in *; lia). reflexivity.
    + rewrite (match_escape_miss c s Hc).
      rewrite IH by (cbn [length] in *; lia). reflexivity.
Qed.

Lemma unescapeString_dropEscapes s : unescapeString s = dropEscapes s.
Proof. apply replace_loop_dropEscapes. apply Nat.le_refl. Qed.

Lemma special_dot c : not_quote_or_backslash c = false -> dot c = true.
Proof.
  unfold not_quote_or_backslash, dot, dq, bslash. intros Hc.
  apply andb_false_iff in Hc.
  destruct Hc as [Hc|Hc]; apply negb_false_iff, N.eqb_eq in Hc; subst c;
    reflexivity.
Qed.

Lemma plain_not_backslash c :
  not_quote_or_backslash c = true -> N.eqb c bslash = false.
Proof.
  unfold not_quote_or_backslash. intros Hc.
  apply andb_true_iff in Hc. destruct Hc as [_ Hc].
  now apply negb_true_iff in Hc.
Qed.

Lemma unescape_escaped s : unescapeString (escapeQuoted s) = s.
Proof.
  rewrite unescapeString_dropEscapes.
  induction s as [|c s IH]; [reflexivity|].
  cbn [escapeQuoted].
  destruct (not_quote_or_backslash c) eqn:Hc.
  - cbn [dropEscapes]. rewrite (plain_not_backslash _ Hc). now rewrite IH.
  - cbn [dropEscapes]. rewrite N.eqb_refl.
    rewrite (special_dot _ Hc). now rewrite IH.
Qed.

Lemma dropEscapes_length : forall n t,
  (length t <= n)%nat -> (length (dropEscapes t) <= length t)%nat.
Proof.
  induction n as [|n IHn]; intros [|c u] Hu; cbn [length] in Hu;
    try (cbn [dropEscapes length]; lia).
  cbn [dropEscapes].
  destruct (N.eqb c bslash).
  - destruct u as [|d u]; [cbn [length]; lia|].
    cbn [length] in Hu.
    destruct (dot d); cbn [length].
    + specialize (IHn u). lia.
    + specialize (IHn (d :: u)). cbn [length] in IHn. lia.
  - specialize (IHn u). cbn [length]. lia.
Qed.

(** X1. unescapeString undoes the escaping of quotes and backslashes: a
    text in which a backslash was put before every quote and every
    backslash comes back as it was; and the result of unescapeString is
    never longer than its argument. *)
Theorem unescapeString_inverts_escaping (s : jsstring) :
  unescapeString (escapeQuoted s) = s
  /\ (length (unescapeString s) <= length s)%nat.
Proof.
  split; [apply unescape_escaped|].
  rewrite unescapeString_dropEscapes.
  exact (@dropEscapes_length (length s) s (Nat.le_refl _)).
Qed.

(** X2. unescapeString leaves a text as it is exactly when the text has
    no backslash followed by a character other than a line terminator:
    a backslash at the end of the text and a backslash before a line
    break are kept. *)
Theorem unescapeString_identity (s : jsstring) :
  unescapeString s = s <-> has_escape s = false.
Proof.
  rewrite unescapeString_dropEscapes.
  induction s as [|c s IH]; [split; reflexivity|].
  cbn [dropEscapes has_escape].
  destruct (N.eqb c bslash) eqn:Hc; cbn [andb orb].
  - destruct s as [|d s]; [split; reflexivity|].
    destruct (dot d) eqn:Hd; cbn [orb].
    + split; [|discriminate]. intros E. exfalso.
      apply (f_equal (@length N)) in E. cbn [length] in E.
      pose proof (@dropEscapes_length (length s) s (Nat.le_refl _)). lia.
    + rewrite <- IH. split; [now intros [= E]|now intros ->].
  - rewrite <- IH. split; [now intros [= E]|now intros ->].
Qed.

(** The repetition of the quoted segment consumes an escaped text up to
    the bare quote that closes it. *)
Lemma star_escaped {R} (k : Cont R) (x : R) rest cap :
  k (dq :: rest) cap = Some x ->
  forall s fuel, (length (escapeQuoted s) <= fuel)%nat ->
    star_loop (rmatch (RAlt (RClass not_quote_or_backslash)
                            (RSeq (RLit [bslash]) (RClass dot))))
              k fuel (escapeQuoted s ++ dq :: rest) cap = Some x.
Proof.
  intros Hk. induction s as [|c s IH]; intros fuel Hf.
  - destruct fuel; simpl; exact Hk.
  - cbn [escapeQuoted] in *.
    destruct (not_quote_or_backslash c) eqn:Hc.
    + destruct fuel as [|fuel]; [cbn [length] in Hf; lia|].
      cbn [star_loop rmatch app]. rewrite Hc.
      assert (Hlt : (length (escapeQuoted s ++ dq :: rest)
                     <? length (c :: escapeQuoted s ++ dq :: rest))%nat
                    = true)
        by (apply Nat.ltb_lt; cbn [length]; lia).
      rewrite Hlt. rewrite IH by (cbn [length] in Hf; lia). reflexivity.
    + destruct fuel as [|fuel]; [cbn [length] in Hf; lia|].
      cbn [star_loop rmatch app strip_prefix].
      change (not_quote_or_backslash bslash) with false. cbv iota.
      rewrite N.eqb_refl. rewrite (special_dot _ Hc).
      assert (Hlt :
        (length (escapeQuoted s ++ dq :: rest)
         <? length (bslash :: c :: escapeQuoted s ++ dq :: rest))%nat
        = true)
        by (apply Nat.ltb_lt; cbn [length]; lia).
      rewrite Hlt. rewrite IH by (cbn [length] in Hf; lia). reflexivity.
Qed.

Lemma match_quoted_escaped l s rest :
  match_here (RSeq (RLit l) quoted_body) (l ++ escapeQuoted s ++ dq :: rest)
  = Some (rest, Some (escapeQuoted s)).
Proof.
  unfold match_here, quoted_body.
  cbn [rmatch]. rewrite strip_prefix_app.
  apply star_escaped; [|rewrite length_app; lia].
  cbn [strip_prefix]. unfold dq at 1 2. simpl N.eqb. cbv iota.
  now rewrite firstn_run.
Qed.

Lemma escapeQuoted_colon_free s : colon_free s -> colon_free (escapeQuoted s).
Proof.
  induction 1 as [|c s Hc Hs IH]; cbn [escapeQuoted]; [constructor|].
  destruct (not_quote_or_backslash c); repeat constructor; assumption.
Qed.

(** A literal made of a word of letters, a colon and more cannot start
    inside a text without a colon that a quote closes. *)
Lemma strip_prefix_colon_free w z t rest :
  alnum_string w -> colon_free t ->
  strip_prefix (w ++ 58%N :: z) (t ++ dq :: rest) = None.
Proof.
  intros Hw. revert t. induction Hw as [|a w Ha Hw IH]; intros t Ht.
  - destruct Ht as [|c t Hc Ht]; cbn [strip_prefix app]; [reflexivity|].
    rewrite N.eqb_sym. now rewrite Hc.
  - destruct Ht as [|c t Hc Ht]; cbn [strip_prefix app].
    + apply alnum_plain in Ha. destruct Ha as [Ha _].
      unfold not_quote_or_backslash in Ha.
      apply andb_true_iff in Ha. destruct Ha as [Ha _].
      apply negb_true_iff in Ha. now rewrite Ha.
    + destruct (a =? c)%N; [|reflexivity]. now apply IH.
Qed.

Lemma js_match_colon_free l body w z t rest :
  l = w ++ 58%N :: z -> alnum_string w -> colon_free t ->
  js_match (RSeq (RLit l) body) (t ++ dq :: rest)
  = js_match (RSeq (RLit l) body) (dq :: rest).
Proof.
  intros Hl Hw Ht. induction Ht as [|c t Hc Ht IH]; [reflexivity|].
  rewrite <- IH. change ((c :: t) ++ dq :: rest) with (c :: (t ++ dq :: rest)).
  apply js_match_skip, match_here_lit_fail.
  rewrite Hl.
  change (c :: t ++ dq :: rest) with ((c :: t) ++ dq :: rest).
  apply strip_prefix_colon_free; [assumption|now constructor].
Qed.

(** In an escaped text every quote follows a backslash: a word, a colon
    and a quote can only end at the quote that closes the text. *)
Lemma strip_prefix_escaped w : alnum_string w ->
  forall s rest,
    strip_prefix (w ++ [58%N; dq]) (escapeQuoted s ++ [dq]) = Some rest ->
    rest = [].
Proof.
  induction 1 as [|a w Ha Hw IH]; intros s rest.
  - destruct s as [|c s]; cbn [escapeQuoted app strip_prefix].
    + discriminate.
    + destruct (not_quote_or_backslash c) eqn:Hc; cbn [app strip_prefix].
      * destruct (58 =? c)%N; [|discriminate].
        destruct s as [|e s]; cbn [escapeQuoted app strip_prefix].
        -- rewrite N.eqb_refl. now intros [= <-].
        -- destruct (not_quote_or_backslash e) eqn:He; cbn [app strip_prefix].
           ++ unfold not_quote_or_backslash in He.
              apply andb_true_iff in He. destruct He as [He _].
              apply negb_true_iff in He. rewrite N.eqb_sym, He. discriminate.
           ++ discriminate.
      * discriminate.
  - apply alnum_plain in Ha. destruct Ha as [Ha _].
    unfold not_quote_or_backslash in Ha.
    apply andb_true_iff in Ha. destruct Ha as [Hq Hb].
    apply negb_true_iff in Hq. apply negb_true_iff in Hb.
    destruct s as [|c s]; cbn [escapeQuoted app strip_prefix].
    + rewrite Hq. discriminate.
    + destruct (not_quote_or_backslash c) eqn:Hc; cbn [app strip_prefix].
      * destruct (a =? c)%N; [|discriminate]. apply IH.
      * rewrite Hb. discriminate.
Qed.

Lemma match_here_escaped_tail w s :
  alnum_string w ->
  match_here (RSeq (RLit (w ++ [58%N; dq])) quoted_body)
             (escapeQuoted s ++ [dq]) = None.
Proof.
  intros Hw. unfold match_here. cbn [rmatch].
  destruct (strip_prefix (w ++ [58%N; dq]) (escapeQuoted s ++ [dq]))
    as [rest|] eqn:E; [|reflexivity].
  apply (strip_prefix_escaped Hw) in E. subst rest. reflexivity.
Qed.

Lemma js_match_escaped_tail w s :
  alnum_string w ->
  js_match (RSeq (RLit (w ++ [58%N; dq])) quoted_body)
           (escapeQuoted s ++ [dq]) = None.
Proof.
  intros Hw.
  assert (Hend : js_match (RSeq (RLit (w ++ [58%N; dq])) quoted_body) [dq]
                 = None).
  { pose proof (match_here_escaped_tail [] Hw) as Hm.
    cbn [escapeQuoted app] in Hm.
    rewrite js_match_skip by exact Hm.
    apply js_match_end. destruct w; reflexivity. }
  induction s as [|c s IH]; [exact Hend|].
  pose proof (match_here_escaped_tail (c :: s) Hw) as Hm.
  cbn [escapeQuoted] in *.
  destruct (not_quote_or_backslash c) eqn:Hc.
  - cbn [app] in *. rewrite js_match_skip by exact Hm. exact IH.
  - cbn [app] in *. rewrite js_match_skip by exact Hm.
    rewrite js_match_skip; [exact IH|].
    apply match_here_lit_fail.
    destruct w as [|a w]; cbn [app strip_prefix].
    + apply andb_false_iff in Hc.
      destruct Hc as [Hc|Hc]; apply negb_false_iff, N.eqb_eq in Hc; subst c;
        reflexivity.
    + inversion Hw as [|a' w' Ha Hw']. subst.
      apply alnum_plain in Ha. destruct Ha as [Ha _].
      rewrite N.eqb_sym.
      destruct (N.eqb c a) eqn:Eca; [|reflexivity].
      apply N.eqb_eq in Eca. subst c. congruence.
Qed.

Section EscapedRoundtrip.

Variables (id : jsstring) (group data : option jsstring).
Hypothesis Hid : colon_free id.
Hypothesis Hgroup : colon_free_segment group.

Ltac skip_pre p := rewrite (js_match_skip_pre _ _ p) by reflexivity.
Ltac skip_quote :=
  rewrite js_match_skip by (apply match_here_lit_fail; reflexivity).

Lemma escaped_starts :
  startsWith (encodeQuoted id group data) (lit "#id:") = true.
Proof.
  unfold startsWith, encodeQuoted, encodeLegacy. now rewrite strip_prefix_app.
Qed.

Lemma escaped_id_match :
  js_match ID_PATTERN (encodeQuoted id group data)
  = Some (Some (escapeQuoted id)).
Proof.
  eapply js_match_hit.
  exact (match_quoted_escaped (lit "#id:" ++ [dq]) id
           (segment (lit "group") (option_map escapeQuoted group)
              (segment (lit "data") (option_map escapeQuoted data) []))).
Qed.

Lemma escaped_group_match :
  js_match GROUP_PATTERN (encodeQuoted id group data)
  = match group with
    | Some g => Some (Some (escapeQuoted g))
    | None => None
    end.
Proof.
  unfold GROUP_PATTERN, encodeQuoted, encodeLegacy.
  skip_pre (lit "#id:"). skip_pre [dq].
  rewrite (js_match_colon_free _ [dq] _ eq_refl alnum_lit_group
             (escapeQuoted_colon_free Hid)).
  skip_quote.
  destruct group as [g|]; cbn [segment option_map].
  - skip_pre (lit ",").
    eapply js_match_hit.
    exact (match_quoted_escaped (lit "group:" ++ [dq]) g
             (segment (lit "data") (option_map escapeQuoted data) [])).
  - destruct data as [d|]; cbn [segment option_map].
    + skip_pre (lit ","). skip_pre (lit "data"). skip_pre (lit ":").
      skip_pre [dq].
      exact (js_match_escaped_tail d alnum_lit_group).
    + now apply js_match_end.
Qed.

Lemma escaped_data_match :
  js_match DATA_PATTERN (encodeQuoted id group data)
  = match data with
    | Some d => Some (Some (escapeQuoted d))
    | None => None
    end.
Proof.
  unfold DATA_PATTERN, encodeQuoted, encodeLegacy.
  skip_pre (lit "#id:"). skip_pre [dq].
  rewrite (js_match_colon_free _ [dq] _ eq_refl alnum_lit_data
             (escapeQuoted_colon_free Hid)).
  skip_quote.
  assert (Htail : js_match (RSeq (RLit (lit "data:" ++ [dq])) quoted_body)
                    (segment (lit "data") (option_map escapeQuoted data) [])
                  = match data with
                    | Some d => Some (Some (escapeQuoted d))
                    | None => None
                    end).
  { destruct data as [d|]; cbn [segment option_map].
    - skip_pre (lit ",").
      eapply js_match_hit.
      exact (match_quoted_escaped (lit "data:" ++ [dq]) d []).
    - now apply js_match_end. }
  destruct group as [g|]; cbn [segment option_map]; [|exact Htail].
  skip_pre (lit ","). skip_pre (lit "group"). skip_pre (lit ":").
  skip_pre [dq].
  cbn [colon_free_segment] in Hgroup.
  rewrite (js_match_colon_free _ [dq] _ eq_refl alnum_lit_data
             (escapeQuoted_colon_free Hgroup)).
  skip_quote. exact Htail.
Qed.

End EscapedRoundtrip.

Section EscapedRoundtripTheorem.

Variable host : Host.

(** X3. A key in the legacy string form whose id and group hold no colon
    and whose texts are written with their quotes and backslashes
    escaped is decoded by extractSWRKey to a new object with that id,
    group and data, whatever other characters the three texts hold; an
    absent segment decodes to undefined. *)
Theorem quoted_roundtrip (id : jsstring) (group data : option jsstring)
        (h : Ref) :
  colon_free id -> colon_free_segment group ->
  extractSWRKey host (JStr (encodeQuoted id group data)) h
  = (Ok (JObj h (key_props (JStr id) (segment_value group)
                           (segment_value data))),
     N.succ h).
Proof.
  intros Hid Hgroup.
  assert (E : tryCurrentFormat (encodeQuoted id group data) h
              = (Ok (JObj h (key_props (JStr id) (segment_value group)
                                       (segment_value data))), N.succ h)).
  { unfold tryCurrentFormat.
    rewrite (escaped_starts id group data).
    rewrite (escaped_id_match id group data).
    rewrite (@escaped_group_match id group data Hid Hgroup).
    rewrite (@escaped_data_match id group data Hid Hgroup).
    cbn [negb unescape_capture]. rewrite unescape_escaped.
    rewrite bind_ret.
    destruct group as [g|], data as [d|]; cbn [unescape_capture];
      rewrite ?unescape_escaped; reflexivity. }
  unfold extractSWRKey.
  change (is_object_type (JStr (encodeQuoted id group data))) with false.
  cbn [andb]. rewrite bind_ret.
  rewrite (bind_ok _ _ _ E). reflexivity.
Qed.

End EscapedRoundtripTheorem.

Section MoreCodec.

Variable host : Host.

(** X4. For a string that the legacy strategy does not accept,
    extractSWRKey answers through JSON.parse alone: the parsed value when
    it is a non-null object with an id property, and null when the value
    is anything else or when JSON.parse throws. *)
Theorem extractSWRKey_json_fallback (s : jsstring) (h : Ref) :
  ~ legacy_strategy (JStr s) ->
  extractSWRKey host (JStr s) h
  = match JSON_parse host s h with
    | (Ok parsed, h') => (Ok (json_key parsed), h')
    | (Throw _, h') => (Ok JNull, h')
    end.
Proof.
  intros Hleg. unfold extractSWRKey.
  change (is_object_type (JStr s)) with false. cbn [andb].
  rewrite bind_ret.
  destruct (tryCurrentFormat_result s h) as [[Hno E]|[[Hs Hid] _]].
  2:{ exfalso. apply Hleg. exists s. now repeat split. }
  rewrite (bind_ok _ _ _ E). cbv beta.
  change (truthy JNull) with false. cbv iota.
  assert (Ej : tryJSONFormat host s h
               = match JSON_parse host s h with
                 | (Ok parsed, h') => (Ok (json_key parsed), h')
                 | (Throw _, h') => (Ok JNull, h')
                 end).
  { unfold tryJSONFormat, try_catch, json_key. unfold bind at 1.
    destruct (JSON_parse host s h) as [[o|e] h1]; [|reflexivity].
    destruct (truthy o && is_object_type o) eqn:Hto; [|reflexivity].
    apply andb_prop in Hto. destruct Hto as [Hto Hoo].
    assert (Hon : strict_eq o JNull = false)
      by (destruct o; simpl in *; try discriminate; reflexivity).
    destruct (js_in_object (lit "id") o h1 Hoo Hon) as [b Hb].
    pose proof (js_in_heap_independent (lit "id") o 0%N h1 Hoo Hon) as Hind.
    rewrite Hb in Hind. cbn [fst] in Hind. rewrite Hind.
    rewrite (bind_ok _ _ _ Hb). destruct b; reflexivity. }
  destruct (JSON_parse host s h) as [[o|e] h1];
    rewrite (bind_ok _ _ _ Ej); [|reflexivity].
  destruct (truthy (json_key o)) eqn:Ht; [reflexivity|].
  unfold json_key in *.
  destruct (truthy o && is_object_type o) eqn:Hto; [|reflexivity].
  destruct (fst (js_in (lit "id") o 0%N)) as [[|]|]; try reflexivity.
  apply andb_prop in Hto. destruct Hto as [Hto _]. congruence.
Qed.

(** X5. When one of the two values is not an object (undefined, null, a
    boolean, a number or a string), deepEqual is strict equality and
    never calls JSON.stringify. *)
Theorem deepEqual_primitive (a b : JsVal) (h : Ref) :
  primitive a = true \/ primitive b = true ->
  deepEqual host a b h = (Ok (strict_eq a b), h).
Proof.
  unfold primitive, deepEqual. intros Hp.
  destruct (strict_eq a b) eqn:Hs; [reflexivity|].
  destruct (is_nullish a || is_nullish b) eqn:Hn; [reflexivity|].
  apply orb_false_iff in Hn. destruct Hn as [Hna Hnb].
  rewrite Hna, Hnb in Hp. cbn [orb] in Hp.
  destruct Hp as [-> | ->]; [reflexivity|].
  now rewrite orb_true_r.
Qed.

End MoreCodec.

(* ----------------------------------------------------------------- *)
(** ** The stable key across renders *)

Section Rerender.

Variable host : Host.

(** X6. Once useStableKey has built a key object for a usable key, a
    render with a key that has strictly equal id, group and data (even
    another object) returns the very same object and changes nothing:
    the reference is stable from render to render. *)
Theorem useStableKey_rerender (key key' : JsVal) (w : World) :
  stable_ref w ->
  heap_monotone host ->
  ~ unusable key ->
  ~ same_key_as host (stableKeyRef w) key (heap w) ->
  strict_eq (opt_prop key (lit "id")) (opt_prop key' (lit "id")) = true ->
  strict_eq (opt_prop key (lit "group")) (opt_prop key' (lit "group")) = true ->
  strict_eq (opt_prop key (lit "data")) (opt_prop key' (lit "data")) = true ->
  exists r w1,
    useStableKey host key w = (Ok r, w1)
    /\ useStableKey host key' w1 = (Ok r, w1)
    /\ r <> JNull.
Proof.
  intros Hst Hmono Hus Hns Hid Hgr Hda.
  destruct (@useStableKey_cases host key w Hst Hmono)
    as (r & w1 & E & Href & _ & [[Hu _]|[(_ & Hsame & _)|Hnew]]);
    [contradiction|contradiction|].
  destruct Hnew as (_ & _ & _ & _ & a & -> & _).
  exists (JObj a (key_props (opt_prop key (lit "id"))
                            (opt_prop key (lit "group"))
                            (opt_prop key (lit "data")))), w1.
  split; [exact E|]. split; [|discriminate].
  assert (Hti : truthy (opt_prop key (lit "id")) = true).
  { destruct (truthy (opt_prop key (lit "id"))) eqn:Ht; [reflexivity|].
    exfalso. apply Hus. right. left. exact Ht. }
  assert (Htd : truthy (opt_prop key (lit "data")) = true).
  { destruct (truthy (opt_prop key (lit "data"))) eqn:Ht; [reflexivity|].
    exfalso. apply Hus. right. right. exact Ht. }
  pose proof (@strict_eq_truthy _ _ Hid Hti) as Hti'.
  pose proof (@strict_eq_truthy _ _ Hda Htd) as Htd'.
  assert (Htk : truthy key' = true).
  { destruct (truthy key') eqn:Ht; [reflexivity|].
    rewrite (@opt_prop_falsy key' (lit "id") Ht) in Hti'. discriminate. }
  clear E.
  destruct w1 as [hp ck ca mf ml rl mounted mu er sk].
  cbn [stableKeyRef] in Href. subst sk.
  unfold useStableKey. rewrite Htk. cbn [negb].
  rewrite truthy_js_and, Hti', Htd'. cbn [andb negb].
  rewrite bind_gets. cbn [stableKeyRef truthy negb].
  rewrite key_props_id, key_props_group, key_props_data.
  rewrite Hid, Hgr. cbn [negb].
  unfold deepEqual. rewrite Hda.
  reflexivity.
Qed.

End Rerender.

(* ----------------------------------------------------------------- *)
(** ** The triggers, step by step *)

Section TriggerRuns.

Variable host : Host.

Lemma attempt_rejected op key remote args options extra originalData w1 cause :
  reply (remote args) = Throw cause ->
  (rolls_back options = true ->
   mutateFault w1 (write_call key originalData) = None) ->
  exists t w',
    attempt host op key remote args options extra originalData w1
    = (Throw t, w')
    /\ wraps op key extra t cause
    /\ isMutating w'
       = (if isMounted w1 && negb (unmounts (remote args)) then false
          else isMutating w1)
    /\ error w'
       = (if isMounted w1 && negb (unmounts (remote args)) then t
          else error w1)
    /\ mutateLog w'
       = mutateLog w1
         ++ (if rolls_back options then [write_call key originalData]
             else [])
    /\ cache w'
       = (if rolls_back options
          then cache_after host key (DataValue originalData) (JBool false)
                           (cache w1)
          else cache w1)
    /\ remoteLog w' = remoteLog w1 ++ [args]
    /\ mutateFault w' = mutateFault w1.
Proof.
  intros Hreply Hfault.
  unfold attempt, try_finally, try_catch.
  fold (rolls_back options).
  destruct w1 as [hp ck ca mf ml rl mounted mu er sk].
  cbn [mutateFault isMounted isMutating error mutateLog cache remoteLog]
    in *.
  unfold write_call in Hfault.
  unfold wraps, hook_context.
  unfold call_remote, rollbackOptimisticUpdate, swrMutate, mutate,
    createMutationError, setError, setIsMutating, Date_now, liftH,
    new_object, new_MutationError, alloc, bind, gets, modify, ret, throw.
  rewrite Hreply.
  destruct (unmounts (remote args)), mounted, (rolls_back options);
    cbn [when with_isMounted with_remoteLog with_mutateLog with_cache
         with_heap with_error with_isMutating heap clock cache mutateFault
         mutateLog remoteLog isMounted isMutating error stableKeyRef
         mc_target mc_data mc_options andb negb];
    try rewrite (Hfault eq_refl);
    unfold cache_after;
    destruct (unstable_serialize host key);
    cbn [when populates with_cache with_heap
         with_error with_isMutating with_mutateLog with_isMounted
         with_remoteLog heap clock cache mutateFault mutateLog remoteLog
         isMounted isMutating error stableKeyRef];
    (eexists; eexists; split; [reflexivity|]);
    (split; [eexists; eexists; eexists; reflexivity|]);
    cbn [heap clock cache mutateFault mutateLog remoteLog isMounted
         isMutating error stableKeyRef];
    rewrite ?app_nil_r; repeat split.
Qed.

Lemma attempt_fulfilled op key remote args options extra originalData w1 v :
  reply (remote args) = Ok v ->
  (isMounted w1 && negb (unmounts (remote args)) = true ->
   mutateFault w1 (revalidate_call key) = None) ->
  exists w',
    attempt host op key remote args options extra originalData w1
    = (Ok v, w')
    /\ isMutating w'
       = (if isMounted w1 && negb (unmounts (remote args)) then false
          else isMutating w1)
    /\ error w' = error w1
    /\ mutateLog w'
       = mutateLog w1
         ++ (if isMounted w1 && negb (unmounts (remote args))
             then [revalidate_call key] else [])
    /\ cache w'
       = (if isMounted w1 && negb (unmounts (remote args))
          then cache_after host key (DataValue JUndefined) JUndefined
                           (cache w1)
          else cache w1)
    /\ remoteLog w' = remoteLog w1 ++ [args]
    /\ isMounted w' = isMounted w1 && negb (unmounts (remote args)).
Proof.
  intros Hreply Hfault.
  unfold attempt, try_finally, try_catch.
  destruct w1 as [hp ck ca mf ml rl mounted mu er sk].
  cbn [mutateFault isMounted isMutating error mutateLog cache remoteLog]
    in *.
  unfold revalidate_call in *.
  unfold call_remote, swrMutate, mutate, setIsMutating, bind, gets, modify,
    ret, throw.
  rewrite Hreply.
  destruct (unmounts (remote args)), mounted;
    cbn [when with_isMounted with_remoteLog with_mutateLog with_cache
         with_heap with_error with_isMutating heap clock cache mutateFault
         mutateLog remoteLog isMounted isMutating error stableKeyRef
         mc_target mc_data mc_options andb negb] in *;
    try rewrite (Hfault eq_refl);
    unfold cache_after;
    try destruct (unstable_serialize host key);
    cbn [when populates with_cache with_heap
         with_error with_isMutating with_mutateLog with_isMounted
         with_remoteLog heap clock cache mutateFault mutateLog remoteLog
         isMounted isMutating error stableKeyRef];
    (eexists; split; [reflexivity|]);
    cbn [heap clock cache mutateFault mutateLog remoteLog isMounted
         isMutating error stableKeyRef];
    rewrite ?app_nil_r; repeat split.
Qed.

Lemma applyOptimisticUpdate_exact key data f w :
  applyOptimisticUpdate host key data f w
  = match mutateFault w (write_call key (f (cached w key) data)) with
    | Some e =>
        (Throw e, logged (write_call key (f (cached w key) data)) w)
    | None =>
        (Ok (cached w key),
         with_cache
           (cache_after host key
              (DataValue (f (cached w key) data)) (JBool false)
              (cache w))
           (logged (write_call key (f (cached w key) data)) w))
    end.
Proof.
  unfold applyOptimisticUpdate.
  assert (Hget : swrGetCache key w
                 = (fst (swrGetCache key w), w)).
  { unfold swrGetCache. destruct (truthy key); reflexivity. }
  destruct (fst (swrGetCache key w)) as [entry|e] eqn:Hfst.
  2:{ unfold swrGetCache in Hfst. destruct (truthy key); discriminate. }
  rewrite (bind_ok _ _ _ Hget).
  assert (Horig : match entry with
                  | Some e => ce_data e
                  | None => JUndefined
                  end = cached w key).
  { unfold cached. rewrite Hfst. reflexivity. }
  rewrite Horig.
  pose proof (mutate_keyed_run host key
                (DataValue (f (cached w key) data))
                (JBool false) w) as Hm.
  cbv zeta in Hm.
  fold (write_call key (f (cached w key) data)) in Hm.
  unfold swrMutate.
  fold (write_call key (f (cached w key) data)).
  destruct (mutateFault w (write_call key (f (cached w key) data))).
  - now rewrite (bind_throw _ _ _ Hm).
  - now rewrite (bind_ok _ _ _ Hm).
Qed.

Lemma run_call_hook c key remote args options w :
  hook_call c = Some (key, remote, args, options) ->
  isMounted w = true ->
  match optimistic_value c w with
  | Some v =>
      match mutateFault w (write_call key v) with
      | Some e =>
          exists w',
            run_call host c w = (Throw e, w')
            /\ in_flight w w'
            /\ mutateLog w' = mutateLog w ++ [write_call key v]
            /\ cache w' = cache w
      | None =>
          exists w1,
            run_call host c w
            = attempt host (call_operation c) key remote args options
                (hook_extra c) (cached w key) w1
            /\ in_flight w w1
            /\ mutateLog w1 = mutateLog w ++ [write_call key v]
            /\ cache w1
               = cache_after host key (DataValue v) (JBool false) (cache w)
      end
  | None =>
      exists w1,
        run_call host c w
        = attempt host (call_operation c) key remote args options
            (hook_extra c) JUndefined w1
        /\ in_flight w w1
        /\ mutateLog w1 = mutateLog w
        /\ cache w1 = cache w
  end.
Proof.
  intros Hc Hm. unfold optimistic_value. rewrite Hc.
  set (w0 := with_error JNull (with_isMutating true w)).
  assert (Hstart : forall body : M JsVal,
    (mounted <- gets isMounted ;;
     if negb mounted then ret JUndefined
     else setIsMutating true ;;; setError JNull ;;; body) w = body w0).
  { intros body. rewrite bind_gets, Hm. reflexivity. }
  assert (Hw0 : in_flight w w0 /\ mutateLog w0 = mutateLog w
                /\ cache w0 = cache w)
    by (repeat split; exact Hm).
  assert (Hplain : forall payload f ws,
    in_flight w ws /\ mutateLog ws = mutateLog w /\ cache ws = cache w ->
    match mutateFault w (write_call key (f (cached w key) payload)) with
    | Some e =>
        exists w',
          applyOptimisticUpdate host key payload f ws = (Throw e, w')
          /\ in_flight w w'
          /\ mutateLog w'
             = mutateLog w ++ [write_call key (f (cached w key) payload)]
          /\ cache w' = cache w
    | None =>
        exists w1,
          applyOptimisticUpdate host key payload f ws
          = (Ok (cached w key), w1)
          /\ in_flight w w1
          /\ mutateLog w1
             = mutateLog w ++ [write_call key (f (cached w key) payload)]
          /\ cache w1
             = cache_after host key
                 (DataValue (f (cached w key) payload)) (JBool false)
                 (cache w)
    end).
  { intros payload f ws ((Hmu & Her & Hmo & Hrl & Hmf) & Hml & Hca).
    pose proof (applyOptimisticUpdate_exact key payload f ws) as E.
    assert (Hcw : cached ws key = cached w key)
      by (now apply cached_same_cache).
    rewrite Hcw, Hmf in E.
    destruct (mutateFault w (write_call key (f (cached w key) payload)));
      eexists; (split; [exact E|]); unfold in_flight;
      cbn [logged with_cache with_mutateLog
           isMutating error isMounted remoteLog mutateFault mutateLog cache];
      rewrite ?Hml, ?Hca; repeat split; assumption. }
  destruct c as [k r o d|k r o i d|k r o i|ids d o|g d o|p];
    try discriminate Hc; cbn [hook_call] in Hc;
    injection Hc as <- <- <- <-;
    cbn [run_call call_operation hook_extra optimistic_payload].
  - rewrite useSWRCreate_trigger_body. unfold trigger_body.
    rewrite Hstart.
    destruct (optimisticUpdate o) as [f|].
    + specialize (Hplain d f w0 Hw0).
      destruct (mutateFault w (write_call k (f (cached w k) d)));
        destruct Hplain as (w1 & E & Hs & Hl & Hca).
      * rewrite (bind_throw _ _ _ E). now exists w1.
      * rewrite (bind_ok _ _ _ E). now exists w1.
    + rewrite bind_ret. exists w0. split; [reflexivity|exact Hw0].
  - rewrite useSWRUpdate_trigger_body. unfold trigger_body.
    rewrite Hstart.
    destruct (optimisticUpdate o) as [f|].
    + assert (Hobj : liftH (new_object [(lit "id", i); (lit "data", d)]) w0
                     = (Ok (JObj (heap w) [(lit "id", i); (lit "data", d)]),
                        with_heap (N.succ (heap w)) w0)) by reflexivity.
      assert (Hw1 : in_flight w (with_heap (N.succ (heap w)) w0)
                    /\ mutateLog (with_heap (N.succ (heap w)) w0)
                       = mutateLog w
                    /\ cache (with_heap (N.succ (heap w)) w0) = cache w)
        by (repeat split; exact Hm).
      specialize (Hplain (JObj (heap w) [(lit "id", i); (lit "data", d)]) f
                    _ Hw1).
      assert (Einner :
        (payload <- liftH (new_object [(lit "id", i); (lit "data", d)]) ;;
         applyOptimisticUpdate host k payload f) w0
        = applyOptimisticUpdate host k
            (JObj (heap w) [(lit "id", i); (lit "data", d)]) f
            (with_heap (N.succ (heap w)) w0))
        by (now rewrite (bind_ok _ _ _ Hobj)).
      destruct (mutateFault w
                  (write_call k
                     (f (cached w k)
                        (JObj (heap w) [(lit "id", i); (lit "data", d)]))));
        destruct Hplain as (w1 & E & Hs & Hl & Hca);
        rewrite <- Einner in E.
      * rewrite (bind_throw _ _ _ E). now exists w1.
      * rewrite (bind_ok _ _ _ E). now exists w1.
    + rewrite bind_ret. exists w0. split; [reflexivity|exact Hw0].
  - rewrite useSWRDelete_trigger_body. unfold trigger_body.
    rewrite Hstart.
    destruct (optimisticUpdate o) as [f|].
    + specialize (Hplain i f w0 Hw0).
      destruct (mutateFault w (write_call k (f (cached w k) i)));
        destruct Hplain as (w1 & E & Hs & Hl & Hca).
      * rewrite (bind_throw _ _ _ E). now exists w1.
      * rewrite (bind_ok _ _ _ E). now exists w1.
    + rewrite bind_ret. exists w0. split; [reflexivity|exact Hw0].
Qed.

End TriggerRuns.

Section HookBehaviour.

Variable host : Host.

Lemma hook_call_key c key remote args options :
  hook_call c = Some (key, remote, args, options) -> call_key c = key.
Proof. destruct c; intros [= <- <- <- <-] || discriminate; reflexivity. Qed.

(** The start of a trigger, and then its attempt. *)
Lemma hook_started c key remote args options w :
  hook_call c = Some (key, remote, args, options) ->
  isMounted w = true ->
  writes_accepted w ->
  exists w1,
    run_call host c w
    = attempt host (call_operation c) key remote args options (hook_extra c)
        (match optimisticUpdate options with
         | Some _ => cached w key
         | None => JUndefined
         end) w1
    /\ in_flight w w1
    /\ mutateLog w1 = mutateLog w ++ optimistic_calls c w
    /\ cache w1
       = match optimistic_value c w with
         | Some v => cache_after host key (DataValue v) (JBool false) (cache w)
         | None => cache w
         end.
Proof.
  intros Hc Hm Hacc.
  pose proof (@run_call_hook host c key remote args options w Hc Hm) as Hrun.
  unfold optimistic_calls.
  rewrite (@hook_call_key c key remote args options Hc).
  unfold optimistic_value in *. rewrite Hc in *.
  destruct (optimisticUpdate options) as [f|].
  - rewrite (Hacc key _) in Hrun. exact Hrun.
  - destruct Hrun as (w1 & E & Hs & Hl & Hca).
    exists w1. rewrite app_nil_r.
    split; [exact E|]. split; [exact Hs|]. split; assumption.
Qed.

(** X7. A trigger of any of the three hooks called after the component
    has been unmounted returns undefined and does nothing: no state
    update, no call of the remote function, no call to the cache. *)
Theorem trigger_unmounted (c : ApiCall) (w : World) :
  hook_call c <> None ->
  isMounted w = false ->
  run_call host c w = (Ok JUndefined, w).
Proof.
  intros Hc Hm.
  destruct c; try (exfalso; apply Hc; reflexivity); cbn [run_call];
    [rewrite useSWRCreate_trigger_body
    |rewrite useSWRUpdate_trigger_body
    |rewrite useSWRDelete_trigger_body];
    unfold trigger_body; rewrite bind_gets, Hm; reflexivity.
Qed.

(** X8. When the remote function fulfils and the component stays
    mounted, a trigger returns the value of the remote function, leaves
    isMutating false and error null, has called the remote function once
    with its arguments, and has made to the cache the optimistic write
    (when a transform is configured) followed by one revalidation of the
    key, and nothing else. *)
Theorem trigger_success (c : ApiCall) (key : JsVal) (remote : Remote)
        (args : list JsVal) (options : MutateOptions) (w : World)
        (v : JsVal) :
  hook_call c = Some (key, remote, args, options) ->
  isMounted w = true ->
  writes_accepted w ->
  mutateFault w (revalidate_call key) = None ->
  reply (remote args) = Ok v ->
  unmounts (remote args) = false ->
  exists w',
    run_call host c w = (Ok v, w')
    /\ isMutating w' = false
    /\ error w' = JNull
    /\ remoteLog w' = remoteLog w ++ [args]
    /\ mutateLog w'
       = mutateLog w ++ optimistic_calls c w ++ [revalidate_call key].
Proof.
  intros Hc Hm Hacc Hrev Hreply Hun.
  destruct (@hook_started c key remote args options w Hc Hm Hacc)
    as (w1 & E & (Hmu & Her & Hmo & Hrl & Hmf) & Hml & Hca).
  destruct (@attempt_fulfilled host (call_operation c) key remote args
              options (hook_extra c)
              (match optimisticUpdate options with
               | Some _ => cached w key
               | None => JUndefined
               end) w1 v Hreply)
    as (w' & E' & Hmu' & Her' & Hml' & Hca' & Hrl' & Hmo').
  { intros _. now rewrite Hmf. }
  exists w'. rewrite E, E'. rewrite Hmo, Hun in *. cbn [andb negb] in *.
  split; [reflexivity|]. split; [exact Hmu'|].
  split; [congruence|]. split; [congruence|].
  rewrite Hml', Hml. now rewrite <- app_assoc.
Qed.

(** The failure of the remote function, from a mounted component. *)
Lemma hook_rejected c key remote args options w cause :
  hook_call c = Some (key, remote, args, options) ->
  isMounted w = true ->
  writes_accepted w ->
  reply (remote args) = Throw cause ->
  exists t w',
    run_call host c w = (Throw t, w')
    /\ wraps (call_operation c) key (hook_extra c) t cause
    /\ isMutating w' = unmounts (remote args)
    /\ error w' = (if unmounts (remote args) then JNull else t)
    /\ mutateLog w'
       = mutateLog w ++ optimistic_calls c w ++ rollback_calls c w
    /\ cache w'
       = (if rolls_back options
          then cache_after host key (DataValue (cached w key))
                 (JBool false)
                 (match optimistic_value c w with
                  | Some v =>
                      cache_after host key (DataValue v) (JBool false)
                                  (cache w)
                  | None => cache w
                  end)
          else match optimistic_value c w with
               | Some v =>
                   cache_after host key (DataValue v) (JBool false) (cache w)
               | None => cache w
               end)
    /\ remoteLog w' = remoteLog w ++ [args].
Proof.
  intros Hc Hm Hacc Hreply.
  destruct (@hook_started c key remote args options w Hc Hm Hacc)
    as (w1 & E & (Hmu & Her & Hmo & Hrl & Hmf) & Hml & Hca).
  assert (Horig : rolls_back options = true ->
                  match optimisticUpdate options with
                  | Some _ => cached w key
                  | None => JUndefined
                  end = cached w key).
  { unfold rolls_back. destruct (optimisticUpdate options); [reflexivity|].
    cbn [is_some]. rewrite andb_false_r. discriminate. }
  destruct (@attempt_rejected host (call_operation c) key remote args options
              (hook_extra c)
              (match optimisticUpdate options with
               | Some _ => cached w key
               | None => JUndefined
               end) w1 cause Hreply)
    as (t & w' & E' & Hwr & Hmu' & Her' & Hml' & Hca' & Hrl' & Hmf').
  { intros _. rewrite Hmf. apply Hacc. }
  exists t, w'. rewrite E, E'. rewrite Hmo, Hmu, Her in *.
  cbn [andb] in *.
  split; [reflexivity|]. split; [exact Hwr|].
  split; [rewrite Hmu'; now destruct (unmounts (remote args))|].
  split; [rewrite Her'; now destruct (unmounts (remote args))|].
  split.
  { rewrite Hml', Hml, <- app_assoc. f_equal. f_equal.
    unfold rollback_calls. rewrite Hc.
    destruct (rolls_back options) eqn:Hrb; [|reflexivity].
    now rewrite (Horig eq_refl). }
  split; [|congruence].
  rewrite Hca', Hca.
  destruct (rolls_back options) eqn:Hrb; [|reflexivity].
  now rewrite (Horig eq_refl).
Qed.

Lemma cached_in_written c key v :
  storable host key ->
  cached_in host (cache_after host key (DataValue v) (JBool false) c) key = v.
Proof.
  intros [_ Hs]. unfold cached_in, cache_after.
  destruct (unstable_serialize host key) as [|ch i]; [now elim Hs|].
  cbn [populates].
  destruct (find_entry_write (ch :: i) v c) as (e & Ee & Hd).
  now rewrite Ee.
Qed.

(** X9. When the remote function rejects and the component stays
    mounted, the trigger throws a MutationError around the rejection,
    stores that same error in the error state, leaves isMutating false,
    and has made to the cache exactly the optimistic write (when a
    transform is configured) and the rollback write (when rollback is
    also enabled): no revalidation. *)
Theorem trigger_failure_state (c : ApiCall) (key : JsVal) (remote : Remote)
        (args : list JsVal) (options : MutateOptions) (w : World)
        (cause : JsVal) :
  hook_call c = Some (key, remote, args, options) ->
  isMounted w = true ->
  writes_accepted w ->
  reply (remote args) = Throw cause ->
  unmounts (remote args) = false ->
  exists t w',
    run_call host c w = (Throw t, w')
    /\ get_prop t (lit "name") = JStr (lit "MutationError")
    /\ get_prop t (lit "originalError") = cause
    /\ error w' = t
    /\ isMutating w' = false
    /\ remoteLog w' = remoteLog w ++ [args]
    /\ mutateLog w'
       = mutateLog w ++ optimistic_calls c w ++ rollback_calls c w.
Proof.
  intros Hc Hm Hacc Hreply Hun.
  destruct (@hook_rejected c key remote args options w cause Hc Hm Hacc
              Hreply)
    as (t & w' & E & Hwr & Hmu & Her & Hml & Hca & Hrl).
  rewrite Hun in *.
  destruct (wraps_name Hwr) as [Hname Horig].
  exists t, w'. repeat split; assumption.
Qed.

(** X10. When the component is unmounted while the remote function is
    pending, the trigger sets no state afterwards (isMutating and error
    stay as the trigger set them at its start) and does not revalidate;
    it still returns the value of the remote function, or on a rejection
    still makes the rollback write and throws the MutationError. *)
Theorem trigger_detached (c : ApiCall) (key : JsVal) (remote : Remote)
        (args : list JsVal) (options : MutateOptions) (w : World) :
  hook_call c = Some (key, remote, args, options) ->
  isMounted w = true ->
  writes_accepted w ->
  unmounts (remote args) = true ->
  exists res w',
    run_call host c w = (res, w')
    /\ isMutating w' = true
    /\ error w' = JNull
    /\ match reply (remote args) with
       | Ok v =>
           res = Ok v
           /\ mutateLog w' = mutateLog w ++ optimistic_calls c w
       | Throw cause =>
           (exists t, res = Throw t
                      /\ get_prop t (lit "name") = JStr (lit "MutationError")
                      /\ get_prop t (lit "originalError") = cause)
           /\ mutateLog w'
              = mutateLog w ++ optimistic_calls c w
                ++ rollback_calls c w
       end.
Proof.
  intros Hc Hm Hacc Hun.
  destruct (reply (remote args)) as [v|cause] eqn:Hreply.
  - destruct (@hook_started c key remote args options w Hc Hm Hacc)
      as (w1 & E & (Hmu & Her & Hmo & Hrl & Hmf) & Hml & Hca).
    destruct (@attempt_fulfilled host (call_operation c) key remote args
                options (hook_extra c)
                (match optimisticUpdate options with
                 | Some _ => cached w key
                 | None => JUndefined
                 end) w1 v Hreply)
      as (w' & E' & Hmu' & Her' & Hml' & Hca' & Hrl' & Hmo').
    { rewrite Hun, andb_false_r. discriminate. }
    rewrite Hun, andb_false_r in *.
    exists (Ok v), w'. rewrite E, E'.
    split; [reflexivity|]. split; [congruence|]. split; [congruence|].
    split; [reflexivity|]. rewrite Hml', Hml. now rewrite app_nil_r.
  - destruct (@hook_rejected c key remote args options w cause Hc Hm Hacc
                Hreply)
      as (t & w' & E & Hwr & Hmu & Her & Hml & Hca & Hrl).
    rewrite Hun in *.
    destruct (wraps_name Hwr) as [Hname Horig].
    exists (Throw t), w'.
    split; [exact E|]. split; [exact Hmu|]. split; [exact Her|].
    split; [|exact Hml]. exists t. repeat split; assumption.
Qed.

(** X11. For each of the three hooks, with a transform configured and
    rollback enabled: when the remote function rejects, the rollback
    leaves in the store, under the key, the value that swrGetCache had
    answered before the optimistic write, also when the component was
    unmounted in the meantime.  For a structured key, which is an object
    and not a string, that value is undefined whatever the entry held:
    the entry is cleared, it does not get back the data it had. *)
Theorem trigger_rollback (c : ApiCall) (key : JsVal) (remote : Remote)
        (args : list JsVal) (options : MutateOptions) (w : World)
        (cause : JsVal) :
  hook_call c = Some (key, remote, args, options) ->
  isMounted w = true ->
  writes_accepted w ->
  storable host key ->
  reply (remote args) = Throw cause ->
  rolls_back options = true ->
  exists t w',
    run_call host c w = (Throw t, w')
    /\ get_prop t (lit "originalError") = cause
    /\ cached_in host (cache w') key = cached w key
    /\ (is_string_type key = false ->
        cached_in host (cache w') key = JUndefined).
Proof.
  intros Hc Hm Hacc Hst Hreply Hrb.
  destruct (@hook_rejected c key remote args options w cause Hc Hm Hacc
              Hreply)
    as (t & w' & E & Hwr & Hmu & Her & Hml & Hca & Hrl).
  destruct (wraps_name Hwr) as [Hname Horig].
  exists t, w'. split; [exact E|]. split; [exact Horig|].
  rewrite Hrb in Hca.
  assert (Hheld : cached_in host (cache w') key = cached w key)
    by (rewrite Hca; now apply cached_in_written).
  split; [exact Hheld|].
  intros Hk. rewrite Hheld. now apply cached_not_string.
Qed.

(** X12. With rollbackOnError set to false, a rejection of the remote
    function leaves the optimistic value in the store under the key (the
    transform applied to what swrGetCache had answered), and the
    optimistic write is the only call the trigger has made to the
    cache. *)
Theorem trigger_keeps_optimistic (c : ApiCall) (key : JsVal)
        (remote : Remote) (args : list JsVal) (options : MutateOptions)
        (w : World) (cause v : JsVal) :
  hook_call c = Some (key, remote, args, options) ->
  isMounted w = true ->
  writes_accepted w ->
  storable host key ->
  reply (remote args) = Throw cause ->
  rollbackOnError options = Some false ->
  optimistic_value c w = Some v ->
  exists t w',
    run_call host c w = (Throw t, w')
    /\ cached_in host (cache w') key = v
    /\ mutateLog w' = mutateLog w ++ [write_call key v].
Proof.
  intros Hc Hm Hacc Hst Hreply Hro Hv.
  destruct (@hook_rejected c key remote args options w cause Hc Hm Hacc
              Hreply)
    as (t & w' & E & Hwr & Hmu & Her & Hml & Hca & Hrl).
  assert (Hrb : rolls_back options = false)
    by (unfold rolls_back, rollback_enabled; now rewrite Hro).
  exists t, w'. split; [exact E|].
  rewrite Hrb, Hv in Hca. split.
  - rewrite Hca. now apply cached_in_written.
  - rewrite Hml. unfold optimistic_calls, rollback_calls.
    rewrite Hv, Hc, Hrb, (@hook_call_key c key remote args options Hc).
    now rewrite app_nil_r.
Qed.

(** X13. When the cache rejects the optimistic write, the trigger
    rejects with that raw error before the remote function is called,
    and isMutating stays true: the write is awaited outside the try
    block, so neither the catch nor the finally block runs. *)
Theorem optimistic_write_refused (c : ApiCall) (key : JsVal)
        (remote : Remote) (args : list JsVal) (options : MutateOptions)
        (w : World) (v e : JsVal) :
  hook_call c = Some (key, remote, args, options) ->
  isMounted w = true ->
  optimistic_value c w = Some v ->
  mutateFault w (write_call key v) = Some e ->
  exists w',
    run_call host c w = (Throw e, w')
    /\ remoteLog w' = remoteLog w
    /\ isMutating w' = true
    /\ error w' = JNull
    /\ cache w' = cache w.
Proof.
  intros Hc Hm Hv Hf.
  pose proof (@run_call_hook host c key remote args options w Hc Hm) as Hrun.
  rewrite Hv, Hf in Hrun.
  destruct Hrun as (w' & E & (Hmu & Her & Hmo & Hrl & Hmf) & Hml & Hca).
  exists w'. repeat split; assumption.
Qed.

End HookBehaviour.

Section RevalidationFailure.

Variable host : Host.

Lemma attempt_revalidation_rejected op key remote args options extra
      originalData w1 v cause :
  reply (remote args) = Ok v ->
  unmounts (remote args) = false ->
  isMounted w1 = true ->
  mutateFault w1 (revalidate_call key) = Some cause ->
  (rolls_back options = true ->
   mutateFault w1 (write_call key originalData) = None) ->
  exists t w',
    attempt host op key remote args options extra originalData w1
    = (Throw t, w')
    /\ wraps op key extra t cause
    /\ isMutating w' = false
    /\ error w' = t
    /\ mutateLog w'
       = mutateLog w1 ++ [revalidate_call key]
         ++ (if rolls_back options then [write_call key originalData]
             else [])
    /\ cache w'
       = (if rolls_back options
          then cache_after host key (DataValue originalData) (JBool false)
                           (cache w1)
          else cache w1)
    /\ remoteLog w' = remoteLog w1 ++ [args].
Proof.
  intros Hreply Hun Hmounted Hrev Hfault.
  unfold attempt, try_finally, try_catch.
  fold (rolls_back options).
  destruct w1 as [hp ck ca mf ml rl mounted mu er sk].
  cbn [mutateFault isMounted isMutating error mutateLog cache remoteLog]
    in *.
  subst mounted.
  unfold write_call in Hfault. unfold revalidate_call in *.
  unfold wraps, hook_context.
  unfold call_remote, rollbackOptimisticUpdate, swrMutate, mutate,
    createMutationError, setError, setIsMutating, Date_now, liftH,
    new_object, new_MutationError, alloc, bind, gets, modify, ret, throw.
  rewrite Hreply, Hun.
  cbn [when with_isMounted with_remoteLog with_mutateLog with_cache
       with_heap with_error with_isMutating heap clock cache mutateFault
       mutateLog remoteLog isMounted isMutating error stableKeyRef
       mc_target mc_data mc_options andb negb].
  rewrite Hrev.
  destruct (rolls_back options);
    cbn [when with_isMounted with_remoteLog with_mutateLog with_cache
         with_heap with_error with_isMutating heap clock cache mutateFault
         mutateLog remoteLog isMounted isMutating error stableKeyRef
         mc_target mc_data mc_options andb negb];
    try rewrite (Hfault eq_refl);
    unfold cache_after;
    destruct (unstable_serialize host key);
    cbn [when populates with_cache with_heap
         with_error with_isMutating with_mutateLog with_isMounted
         with_remoteLog heap clock cache mutateFault mutateLog remoteLog
         isMounted isMutating error stableKeyRef];
    (eexists; eexists; split; [reflexivity|]);
    (split; [eexists; eexists; eexists; reflexivity|]);
    cbn [heap clock cache mutateFault mutateLog remoteLog isMounted
         isMutating error stableKeyRef];
    rewrite <- ?app_assoc; repeat split.
Qed.

(** X14. When the remote function fulfils but the revalidation that
    follows is rejected, the trigger treats the call as failed: it makes
    the rollback write (when rollback is enabled), which leaves in the
    store under the key what swrGetCache had answered before the
    optimistic write, throws a MutationError around the rejection of
    the revalidation, stores it in the error state and leaves isMutating
    false; the value the remote function returned is lost. *)
Theorem trigger_revalidation_failure (c : ApiCall) (key : JsVal)
        (remote : Remote) (args : list JsVal) (options : MutateOptions)
        (w : World) (v cause : JsVal) :
  hook_call c = Some (key, remote, args, options) ->
  isMounted w = true ->
  writes_accepted w ->
  reply (remote args) = Ok v ->
  unmounts (remote args) = false ->
  mutateFault w (revalidate_call key) = Some cause ->
  exists t w',
    run_call host c w = (Throw t, w')
    /\ get_prop t (lit "name") = JStr (lit "MutationError")
    /\ get_prop t (lit "originalError") = cause
    /\ error w' = t
    /\ isMutating w' = false
    /\ mutateLog w'
       = mutateLog w ++ optimistic_calls c w
         ++ [revalidate_call key] ++ rollback_calls c w
    /\ (rolls_back options = true -> storable host key ->
        cached_in host (cache w') key = cached w key).
Proof.
  intros Hc Hm Hacc Hreply Hun Hrev.
  destruct (@hook_started host c key remote args options w Hc Hm Hacc)
    as (w1 & E & (Hmu & Her & Hmo & Hrl & Hmf) & Hml & Hca).
  assert (Horig : rolls_back options = true ->
                  match optimisticUpdate options with
                  | Some _ => cached w key
                  | None => JUndefined
                  end = cached w key).
  { unfold rolls_back. destruct (optimisticUpdate options); [reflexivity|].
    cbn [is_some]. rewrite andb_false_r. discriminate. }
  destruct (@attempt_revalidation_rejected (call_operation c) key remote
              args options (hook_extra c)
              (match optimisticUpdate options with
               | Some _ => cached w key
               | None => JUndefined
               end) w1 v cause Hreply Hun Hmo)
    as (t & w' & E' & Hwr & Hmu' & Her' & Hml' & Hca' & Hrl').
  { now rewrite Hmf. }
  { intros _. rewrite Hmf. apply Hacc. }
  destruct (wraps_name Hwr) as [Hname Hcause].
  exists t, w'. rewrite E, E'.
  split; [reflexivity|]. split; [exact Hname|]. split; [exact Hcause|].
  split; [exact Her'|]. split; [exact Hmu'|]. split.
  - rewrite Hml', Hml, <- app_assoc. f_equal. f_equal. f_equal.
    unfold rollback_calls. rewrite Hc.
    destruct (rolls_back options) eqn:Hrb; [|reflexivity].
    now rewrite (Horig eq_refl).
  - intros Hrb Hst. rewrite Hrb in Hca'. rewrite (Horig Hrb) in Hca'.
    rewrite Hca'. now apply cached_in_written.
Qed.

End RevalidationFailure.

Section UserMessages.

Variable host : Host.

Lemma hook_extra_plain c :
  lookup (lit "operation") (rev (hook_extra c)) = None
  /\ lookup (lit "key") (rev (hook_extra c)) = None.
Proof. destruct c; split; reflexivity. Qed.

Lemma user_message_run r message props cause op key h :
  lookup (lit "operation") props = Some (JStr (operation_name op)) ->
  lookup (lit "key") props = Some key ->
  forall a,
    getUserMessage (JMutationError r message (JObj a props) cause) h
    = (Ok (JStr (lit "Failed to " ++ user_verb op ++ lit " "
                 ++ resource_text key ++ lit ". Please try again.")),
       N.succ h).
Proof.
  intros Hop Hkey a. unfold getUserMessage.
  change (get_prop (JMutationError r message (JObj a props) cause)
                   (lit "context")) with (JObj a props).
  cbn [is_nullish get_prop]. rewrite Hop, Hkey.
  unfold resource_text, js_or.
  destruct (truthy (opt_prop key (lit "id"))); destruct op; reflexivity.
Qed.

(** X15. The error a trigger throws when the remote function rejects
    gives, through getUserMessage, the sentence made of the verb of the
    hook (add, update, delete) and the id of the key (resource when the
    id is falsy). *)
Theorem trigger_user_message (c : ApiCall) (key : JsVal) (remote : Remote)
        (args : list JsVal) (options : MutateOptions) (w : World)
        (cause : JsVal) (h : Ref) :
  hook_call c = Some (key, remote, args, options) ->
  isMounted w = true ->
  writes_accepted w ->
  reply (remote args) = Throw cause ->
  exists t w',
    run_call host c w = (Throw t, w')
    /\ getUserMessage t h
       = (Ok (JStr (lit "Failed to " ++ user_verb (call_operation c)
                    ++ lit " " ++ resource_text key
                    ++ lit ". Please try again.")),
          N.succ h).
Proof.
  intros Hc Hm Hacc Hreply.
  destruct (@hook_rejected host c key remote args options w cause Hc Hm Hacc
              Hreply)
    as (t & w' & E & (a & now & message & ->) & _).
  eexists; eexists. split; [exact E|].
  destruct (hook_extra_plain c) as [Hno Hnk].
  apply user_message_run; unfold hook_context; cbn [spread].
  - rewrite lookup_set_prop_other by reflexivity.
    now rewrite lookup_spread, Hno.
  - rewrite lookup_set_prop_other by reflexivity.
    now rewrite lookup_spread, Hnk.
Qed.

End UserMessages.

(* ----------------------------------------------------------------- *)
(** ** The optimistic helpers and executeMutation *)

Section ApplyRollback.

Variable host : Host.

Lemma find_entry_write_other i j d c :
  str_eqb i j = false ->
  find_entry j (write_entry i d c) = find_entry j c.
Proof.
  intros Hij. unfold find_entry.
  induction c as [|e c IH]; cbn [write_entry find ce_index].
  - now rewrite Hij.
  - destruct (str_eqb (ce_index e) i) eqn:Hei; cbn [find ce_index].
    + apply str_eqb_eq in Hei. rewrite Hei, Hij. reflexivity.
    + destruct (str_eqb (ce_index e) j); [reflexivity|exact IH].
Qed.

(** A write to a key, seen from a key with another serialized form. *)
Lemma cached_in_other c key d options k :
  unstable_serialize host k <> unstable_serialize host key ->
  cached_in host (cache_after host key d options c) k = cached_in host c k.
Proof.
  intros Hne. unfold cached_in, cache_after.
  destruct (unstable_serialize host key) as [|ch i] eqn:Hs; [reflexivity|].
  destruct (populates options); [|reflexivity].
  rewrite find_entry_write_other; [reflexivity|].
  destruct (str_eqb (ch :: i) (unstable_serialize host k)) eqn:Hik;
    [|reflexivity].
  apply str_eqb_eq in Hik. now elim Hne.
Qed.

(** X16. applyOptimisticUpdate followed by rollbackOptimisticUpdate with
    the value it returned makes exactly two writes to the key, the
    optimistic value and then the value swrGetCache had answered, which
    is what the store then holds under the key; the entries of the
    other keys are left as they were.  For a structured key, which is an
    object and not a string, swrGetCache answers undefined: the
    transform is applied to undefined and the entry ends up cleared.
    Only for a string that the cache indexes as it is does the entry get
    its data back. *)
Theorem apply_then_rollback (key data : JsVal)
        (f : JsVal -> JsVal -> JsVal) (w : World) :
  storable host key ->
  writes_accepted w ->
  exists w',
    (originalData <- applyOptimisticUpdate host key data f ;;
     rollbackOptimisticUpdate host key originalData) w
    = (Ok tt, w')
    /\ cached_in host (cache w') key = cached w key
    /\ (is_string_type key = false ->
        cached_in host (cache w') key = JUndefined
        /\ mutateLog w'
           = mutateLog w ++ [write_call key (f JUndefined data);
                             write_call key JUndefined])
    /\ (forall s, key = JStr s -> unstable_serialize host key = s ->
        cached_in host (cache w') key = cached_in host (cache w) key)
    /\ (forall k,
          unstable_serialize host k <> unstable_serialize host key ->
          cached_in host (cache w') k = cached_in host (cache w) k)
    /\ mutateLog w'
       = mutateLog w ++ [write_call key (f (cached w key) data);
                         write_call key (cached w key)].
Proof.
  intros Hst Hacc.
  rewrite (bind_ok _ _ _ (applyOptimisticUpdate_run host key data f Hacc)).
  set (v := f (cached w key) data).
  set (w1 := with_cache
               (cache_after host key (DataValue v) (JBool false) (cache w))
               (logged (write_call key v) w)).
  pose proof (mutate_keyed_run host key (DataValue (cached w key))
                (JBool false) w1) as Hm.
  cbv zeta in Hm. fold (write_call key (cached w key)) in Hm.
  change (mutateFault w1) with (mutateFault w) in Hm.
  rewrite (Hacc key (cached w key)) in Hm.
  unfold rollbackOptimisticUpdate, swrMutate.
  fold (write_call key (cached w key)).
  rewrite (bind_ok _ _ _ Hm).
  eexists. split; [reflexivity|].
  cbn [cache with_cache logged with_mutateLog mutateLog w1].
  assert (Hlog : (mutateLog w ++ [write_call key v])
                 ++ [write_call key (cached w key)]
                 = mutateLog w ++ [write_call key v;
                                   write_call key (cached w key)])
    by (now rewrite <- app_assoc).
  split; [now apply cached_in_written|].
  split.
  { intros Hk. split.
    - rewrite cached_in_written by exact Hst. now apply cached_not_string.
    - rewrite Hlog. unfold v. now rewrite (cached_not_string w key Hk). }
  split.
  { intros s -> Hs. rewrite cached_in_written by exact Hst.
    apply cached_string; [exact (proj1 Hst)|exact Hs]. }
  split; [|exact Hlog].
  intros k Hne. now rewrite !cached_in_other.
Qed.

End ApplyRollback.

Section Execute.

Variable host : Host.

(** The catch block of executeMutation. *)
Lemma executeMutation_catch (key : JsVal) (shouldRollback : bool)
      (originalData : JsVal) (onError : JsVal -> M unit) (err : JsVal)
      (w1 : World) :
  (restores shouldRollback originalData = true ->
   mutateFault w1 (write_call key originalData) = None) ->
  exists w2,
    (when (shouldRollback && negb (strict_eq originalData JUndefined))
          (rollbackOptimisticUpdate host key originalData) ;;;
     onError err ;;;
     (throw err : M JsVal)) w1
    = match onError err w2 with
      | (Ok _, w') => (Throw err, w')
      | (Throw e, w') => (Throw e, w')
      end
    /\ mutateLog w2
       = mutateLog w1
         ++ (if restores shouldRollback originalData
             then [write_call key originalData] else [])
    /\ cache w2
       = (if restores shouldRollback originalData
          then cache_after host key (DataValue originalData) (JBool false)
                           (cache w1)
          else cache w1)
    /\ remoteLog w2 = remoteLog w1 /\ error w2 = error w1
    /\ mutateFault w2 = mutateFault w1.
Proof.
  intros Hfault. fold (restores shouldRollback originalData).
  destruct (restores shouldRollback originalData); cbn [when].
  - pose proof (mutate_keyed_run host key (DataValue originalData)
                  (JBool false) w1) as Hm.
    cbv zeta in Hm. fold (write_call key originalData) in Hm.
    rewrite (Hfault eq_refl) in Hm.
    assert (Hr : rollbackOptimisticUpdate host key originalData w1
                 = (Ok tt,
                    with_cache
                      (cache_after host key (DataValue originalData)
                         (JBool false) (cache w1))
                      (logged (write_call key originalData) w1))).
    { unfold rollbackOptimisticUpdate, swrMutate.
      fold (write_call key originalData).
      now rewrite (bind_ok _ _ _ Hm). }
    set (w2 := with_cache
                 (cache_after host key (DataValue originalData)
                    (JBool false) (cache w1))
                 (logged (write_call key originalData) w1)) in *.
    exists w2. split.
    + rewrite (bind_ok _ _ _ Hr). unfold bind, throw.
      destruct (onError err w2) as [[u|e] w']; reflexivity.
    + repeat split.
  - exists w1. split.
    + rewrite bind_ret. unfold bind, throw.
      destruct (onError err w1) as [[u|e] w']; reflexivity.
    + rewrite app_nil_r. repeat split.
Qed.

(** X17. When the mutation function rejects, executeMutation writes the
    original data back only if rollback is asked for and the original
    data is not undefined, then calls onError with the error, and
    rejects with that same error, unwrapped (or with what onError itself
    throws). *)
Theorem executeMutation_rethrows (mutationFn : M JsVal) (key : JsVal)
        (shouldRollback : bool) (originalData : JsVal)
        (onError : JsVal -> M unit) (w w1 : World) (err : JsVal) :
  mutationFn w = (Throw err, w1) ->
  (restores shouldRollback originalData = true ->
   mutateFault w1 (write_call key originalData) = None) ->
  exists w2,
    executeMutation host mutationFn key shouldRollback originalData onError w
    = match onError err w2 with
      | (Ok _, w') => (Throw err, w')
      | (Throw e, w') => (Throw e, w')
      end
    /\ mutateLog w2
       = mutateLog w1
         ++ (if restores shouldRollback originalData
             then [write_call key originalData] else [])
    /\ cache w2
       = (if restores shouldRollback originalData
          then cache_after host key (DataValue originalData) (JBool false)
                           (cache w1)
          else cache w1).
Proof.
  intros Hfn Hfault.
  destruct (@executeMutation_catch key shouldRollback originalData onError
              err w1 Hfault) as (w2 & E & Hml & Hca & _).
  exists w2. split; [|split; assumption].
  unfold executeMutation, try_catch.
  rewrite (bind_throw _ _ _ Hfn). exact E.
Qed.

(** X18. When the mutation function fulfils and the revalidation is
    accepted, executeMutation returns the value of the mutation function
    after one call to the cache, and onError is not called.  That call
    asks for the revalidation with undefined in the place of the data,
    which the cache takes as the data to write: when executeMutation
    returns, the entry of the key holds undefined, and the entries of
    the other keys are as the mutation function left them. *)
Theorem executeMutation_success (mutationFn : M JsVal) (key : JsVal)
        (shouldRollback : bool) (originalData : JsVal)
        (onError : JsVal -> M unit) (w w1 : World) (v : JsVal) :
  mutationFn w = (Ok v, w1) ->
  mutateFault w1 (revalidate_call key) = None ->
  storable host key ->
  exists w',
    executeMutation host mutationFn key shouldRollback originalData
                    onError w
    = (Ok v, w')
    /\ mutateLog w' = mutateLog w1 ++ [revalidate_call key]
    /\ cached_in host (cache w') key = JUndefined
    /\ (forall k,
          unstable_serialize host k <> unstable_serialize host key ->
          cached_in host (cache w') k = cached_in host (cache w1) k)
    /\ error w' = error w1
    /\ remoteLog w' = remoteLog w1.
Proof.
  intros Hfn Hrev [_ Hs].
  pose proof (mutate_keyed_run host key (DataValue JUndefined) JUndefined w1)
    as Hm.
  cbv zeta in Hm. fold (revalidate_call key) in Hm.
  rewrite Hrev in Hm.
  unfold executeMutation, try_catch, swrMutate.
  fold (revalidate_call key).
  rewrite (bind_ok _ _ _ Hfn), (bind_ok _ _ _ Hm).
  eexists. split; [reflexivity|].
  cbn [cache with_cache logged with_mutateLog mutateLog error remoteLog].
  split; [reflexivity|]. split.
  { unfold cached_in, cache_after.
    destruct (unstable_serialize host key) as [|ch i]; [now elim Hs|].
    cbn [populates].
    destruct (find_entry_write (ch :: i) JUndefined (cache w1))
      as (e & Ee & Hd).
    now rewrite Ee. }
  split; [|split; reflexivity].
  intros k Hne. now apply cached_in_other.
Qed.

(** X19. In executeMutation a rejection of the revalidation that follows
    a fulfilled mutation is handled as a failure of the mutation: the
    rollback rule applies, onError is called with the rejection and the
    rejection is thrown; the value of the mutation function is lost. *)
Theorem executeMutation_revalidation_failure (mutationFn : M JsVal)
        (key : JsVal) (shouldRollback : bool) (originalData : JsVal)
        (onError : JsVal -> M unit) (w w1 : World) (v e : JsVal) :
  mutationFn w = (Ok v, w1) ->
  mutateFault w1 (revalidate_call key) = Some e ->
  (restores shouldRollback originalData = true ->
   mutateFault w1 (write_call key originalData) = None) ->
  exists w2,
    executeMutation host mutationFn key shouldRollback originalData onError w
    = match onError e w2 with
      | (Ok _, w') => (Throw e, w')
      | (Throw e', w') => (Throw e', w')
      end
    /\ mutateLog w2
       = mutateLog w1 ++ [revalidate_call key]
         ++ (if restores shouldRollback originalData
             then [write_call key originalData] else [])
    /\ cache w2
       = (if restores shouldRollback originalData
          then cache_after host key (DataValue originalData) (JBool false)
                           (cache w1)
          else cache w1).
Proof.
  intros Hfn Hrev Hfault.
  pose proof (mutate_keyed_run host key (DataValue JUndefined) JUndefined w1)
    as Hm.
  cbv zeta in Hm. fold (revalidate_call key) in Hm.
  rewrite Hrev in Hm.
  destruct (@executeMutation_catch key shouldRollback originalData onError
              e (logged (revalidate_call key) w1) Hfault)
    as (w2 & E & Hml & Hca & _).
  exists w2. split; [|split].
  - unfold executeMutation, try_catch, swrMutate.
    fold (revalidate_call key).
    rewrite (bind_ok _ _ _ Hfn), (bind_throw _ _ _ Hm). exact E.
  - rewrite Hml. cbn [logged with_mutateLog mutateLog].
    now rewrite <- app_assoc.
  - exact Hca.
Qed.

End Execute.

Section ExecuteOptimistic.

Variable host : Host.

Lemma strict_eq_undefined v : strict_eq v JUndefined = true -> v = JUndefined.
Proof. destruct v; cbn; try discriminate; reflexivity. Qed.

(** X20. executeMutation after applyOptimisticUpdate, with the value
    that one returned as original data: on a rejection of the remote
    function the store gets back, under the key, what swrGetCache had
    answered, unless that was undefined, which is not written back, so
    that the optimistic value stays.  For a structured key, which is an
    object and not a string, swrGetCache answers undefined: the
    optimistic value always stays.  The error reaches the error state
    and the caller as the raw rejection. *)
Theorem executeMutation_after_optimistic (key data : JsVal)
        (f : JsVal -> JsVal -> JsVal) (remote : Remote) (args : list JsVal)
        (w : World) (cause : JsVal) :
  storable host key ->
  writes_accepted w ->
  reply (remote args) = Throw cause ->
  exists w',
    (originalData <- applyOptimisticUpdate host key data f ;;
     executeMutation host (call_remote remote args) key true originalData
                     setError) w
    = (Throw cause, w')
    /\ error w' = cause
    /\ cached_in host (cache w') key
       = (if strict_eq (cached w key) JUndefined
          then f JUndefined data
          else cached w key)
    /\ (is_string_type key = false ->
        cached_in host (cache w') key = f JUndefined data
        /\ mutateLog w' = mutateLog w ++ [write_call key (f JUndefined data)]).
Proof.
  intros Hst Hacc Hreply.
  rewrite (bind_ok _ _ _ (applyOptimisticUpdate_run host key data f Hacc)).
  set (v := f (cached w key) data).
  set (w1 := with_cache
               (cache_after host key (DataValue v) (JBool false) (cache w))
               (logged (write_call key v) w)).
  set (w2 := if unmounts (remote args)
             then with_isMounted false
                    (with_remoteLog (remoteLog w1 ++ [args]) w1)
             else with_remoteLog (remoteLog w1 ++ [args]) w1).
  assert (Hremote : call_remote remote args w1 = (Throw cause, w2))
    by (unfold call_remote; now rewrite Hreply).
  assert (Hw2 : mutateFault w2 = mutateFault w /\ cache w2 = cache w1
                /\ mutateLog w2 = mutateLog w ++ [write_call key v])
    by (unfold w2; destruct (unmounts (remote args)); repeat split).
  destruct Hw2 as (Hmf2 & Hca2 & Hml2).
  destruct (@executeMutation_catch host key true (cached w key)
              setError cause w2)
    as (w3 & E & Hml & Hca & _).
  { intros _. rewrite Hmf2. apply Hacc. }
  exists (with_error cause w3).
  split.
  { unfold executeMutation, try_catch.
    rewrite (bind_throw _ _ _ Hremote). rewrite E. reflexivity. }
  split; [reflexivity|].
  cbn [cache mutateLog with_error]. rewrite Hca, Hca2, Hml, Hml2.
  unfold restores. cbn [andb].
  assert (Hheld :
    cached_in host
      (if negb (strict_eq (cached w key) JUndefined)
       then cache_after host key (DataValue (cached w key)) (JBool false)
                        (cache w1)
       else cache w1) key
    = (if strict_eq (cached w key) JUndefined
       then f JUndefined data
       else cached w key)).
  { destruct (strict_eq (cached w key) JUndefined) eqn:Hu; cbn [negb].
    - apply strict_eq_undefined in Hu. unfold w1, v. rewrite Hu.
      cbn [cache with_cache]. now apply cached_in_written.
    - now apply cached_in_written. }
  split; [exact Hheld|].
  intros Hk. rewrite Hheld. unfold v.
  rewrite (cached_not_string w key Hk). cbn [strict_eq negb].
  split; [reflexivity|]. now rewrite app_nil_r.
Qed.

End ExecuteOptimistic.

(* ----------------------------------------------------------------- *)
(** ** What the batch functions write *)

Section BatchEffects.

Variable host : Host.










(** X24. mutateById and mutateByGroup make exactly one call to the
    cache, and an explicit revalidate option reaches that call unchanged,
    whatever the new data is. *)
Theorem batch_revalidate_option (r : Ref) (props : list (jsstring * JsVal))
        (v newData : JsVal) (x : jsstring + list jsstring) (w : World) :
  lookup (lit "revalidate") (rev props) = Some v ->
  (exists call,
     mutateLog (snd (mutateById host x newData (JObj r props) w))
     = mutateLog w ++ [call]
     /\ get_prop (mc_options call) (lit "revalidate") = v
     /\ mc_data call = updaterFor newData)
  /\ (exists call,
        mutateLog (snd (mutateByGroup host x newData (JObj r props) w))
        = mutateLog w ++ [call]
        /\ get_prop (mc_options call) (lit "revalidate") = v
        /\ mc_data call = updaterFor newData).
Proof.
  intros Hv.
  assert (Hopt : get_prop
                   (JObj (heap w)
                      (spread [(lit "revalidate",
                                js_nullish_or
                                  (opt_prop (JObj r props) (lit "revalidate"))
                                  (JBool (negb (truthy newData))))]
                              (JObj r props)))
                   (lit "revalidate") = v).
  { cbn [get_prop spread]. rewrite lookup_spread, Hv. reflexivity. }
  assert (Hgen : forall target message,
    exists call,
      mutateLog
        (snd (try_catch
                (opts <- liftH (batchOptions newData (JObj r props)) ;;
                 mutate host {| mc_target := target;
                                mc_data := updaterFor newData;
                                mc_options := opts |} ;;;
                 ret JUndefined)
                (fun error =>
                   e <- batchError OpUpdate (message error)
                          [(lit "data", newData)] error ;;
                   throw e) w))
      = mutateLog w ++ [call]
      /\ get_prop (mc_options call) (lit "revalidate") = v
      /\ mc_data call = updaterFor newData).
  { intros target message.
    rewrite (batch_run host OpUpdate target newData (JObj r props) message
               [(lit "data", newData)] w).
    cbv zeta.
    match goal with
    | |- context [mutate host ?c ?s] =>
        pose proof (mutate_log host c s) as Hlog;
        exists c; destruct (mutate host c s) as [[u|cause] w1]
    end; cbn [snd] in *;
      (split; [exact Hlog|split; [exact Hopt|reflexivity]]). }
  split; [apply (Hgen _ (fun error => _))|apply (Hgen _ (fun error => _))].
Qed.

(** X25. When the cache rejects the call of mutateById, the function
    throws a MutationError whose message names the ids, joined by a comma
    and a space, and ends with the text of the cause; the context holds
    the new data and the time of the call, the cache is as it was, and
    getUserMessage speaks of an update of a resource. *)
Theorem mutateById_failure (ids : jsstring + list jsstring)
        (newData options : JsVal) (w : World) (cause : JsVal) (h : Ref) :
  mutateFault w
    (fst (batch_call host (ByFilter (idMatcher host (one_or_many ids)))
                     newData options w)) = Some cause ->
  exists r context w',
    mutateById host ids newData options w
    = (Throw (JMutationError r
                (lit "Failed to mutate cache by ID(s): "
                 ++ join (lit ", ") (one_or_many ids) ++ lit ". "
                 ++ error_text cause)
                context cause), w')
    /\ get_prop context (lit "data") = newData
    /\ get_prop context (lit "timestamp") = JNum (clock w)
    /\ cache w' = cache w
    /\ fst (getUserMessage
              (JMutationError r
                 (lit "Failed to mutate cache by ID(s): "
                  ++ join (lit ", ") (one_or_many ids) ++ lit ". "
                  ++ error_text cause)
                 context cause) h)
       = Ok (JStr (lit "Failed to update resource. Please try again.")).
Proof.
  intros Hfault.
  unfold mutateById. fold (one_or_many ids).
  rewrite (batch_run host OpUpdate
             (ByFilter (idMatcher host (one_or_many ids))) newData options
             (fun error => lit "Failed to mutate cache by ID(s): "
                           ++ join (lit ", ") (one_or_many ids) ++ lit ". "
                           ++ error_text error)
             [(lit "data", newData)] w).
  cbv zeta. unfold batch_call in Hfault. cbn [fst] in Hfault.
  unfold mutate at 1. rewrite bind_modify, bind_gets.
  cbn [mutateFault with_mutateLog with_heap]. rewrite Hfault.
  unfold throw.
  eexists; eexists; eexists. split; [reflexivity|].
  repeat split.
Qed.

End BatchEffects.

(* ----------------------------------------------------------------- *)
(** ** The further properties on concrete inputs *)

Lemma quoted_roundtrip_witness :
  extractSWRKey SampleHost.host
    (JStr (encodeQuoted quoted_id None (Some quoted_data))) 10%N
  = (Ok (JObj 10%N (key_props (JStr quoted_id) JUndefined
                              (JStr quoted_data))),
     11%N).
Proof.
  apply (@quoted_roundtrip SampleHost.host quoted_id None
           (Some quoted_data) 10%N).
  - repeat constructor.
  - exact I.
Defined.

Lemma extractSWRKey_json_fallback_witness :
  extractSWRKey SampleHost.host (JStr json_text) 10%N
  = (Ok (JObj 10%N [(lit "id", JStr (lit "todos"))]), 11%N).
Proof.
  apply (@extractSWRKey_json_fallback SampleHost.host json_text 10%N).
  intros (s & E & Hs & _). injection E as <-. discriminate Hs.
Defined.

Lemma deepEqual_primitive_witness :
  deepEqual SampleHost.host (JStr (lit "a")) (JObj 1%N []) 10%N
  = (Ok false, 10%N).
Proof.
  apply (@deepEqual_primitive SampleHost.host (JStr (lit "a")) (JObj 1%N [])
           10%N).
  left. reflexivity.
Defined.

Lemma useStableKey_rerender_witness :
  exists r w1,
    useStableKey SampleHost.host todos_key quiet_world = (Ok r, w1)
    /\ useStableKey SampleHost.host todos_key_again w1 = (Ok r, w1)
    /\ r <> JNull.
Proof.
  apply (@useStableKey_rerender SampleHost.host todos_key todos_key_again
           quiet_world).
  - left. reflexivity.
  - exact sample_host_monotone.
  - intros [Hu|[Hu|Hu]]; discriminate Hu.
  - intros (Hp & _). discriminate Hp.
  - reflexivity.
  - reflexivity.
  - reflexivity.
Defined.

Lemma trigger_unmounted_witness :
  run_call SampleHost.host delete_call unmounted_world
  = (Ok JUndefined, unmounted_world).
Proof.
  apply (@trigger_unmounted SampleHost.host delete_call unmounted_world).
  - discriminate.
  - reflexivity.
Defined.

Lemma trigger_success_witness :
  exists w',
    run_call SampleHost.host create_call todos_world = (Ok saved_todo, w')
    /\ isMutating w' = false
    /\ error w' = JNull
    /\ remoteLog w' = remoteLog todos_world ++ [[new_todo]]
    /\ mutateLog w'
       = mutateLog todos_world
         ++ optimistic_calls create_call todos_world
         ++ [revalidate_call todos_key].
Proof.
  apply (@trigger_success SampleHost.host create_call todos_key
           request_succeeds [new_todo] optimistic_replace todos_world
           saved_todo).
  - reflexivity.
  - reflexivity.
  - exact quiet_writes_accepted.
  - reflexivity.
  - reflexivity.
  - reflexivity.
Defined.

Lemma trigger_detached_witness :
  exists res w',
    run_call SampleHost.host detached_call todos_world = (res, w')
    /\ isMutating w' = true
    /\ error w' = JNull
    /\ (res = Ok saved_todo
        /\ mutateLog w'
           = mutateLog todos_world
             ++ optimistic_calls detached_call todos_world).
Proof.
  apply (@trigger_detached SampleHost.host detached_call todos_key
           request_detaches [JNum 1] optimistic_delete todos_world).
  - reflexivity.
  - reflexivity.
  - exact quiet_writes_accepted.
  - reflexivity.
Defined.

Lemma trigger_failure_state_witness :
  exists t w',
    run_call SampleHost.host delete_call todos_world = (Throw t, w')
    /\ get_prop t (lit "name") = JStr (lit "MutationError")
    /\ get_prop t (lit "originalError") = delete_cause
    /\ error w' = t
    /\ isMutating w' = false
    /\ remoteLog w' = remoteLog todos_world ++ [[JNum 1]]
    /\ mutateLog w'
       = mutateLog todos_world
         ++ optimistic_calls delete_call todos_world
         ++ rollback_calls delete_call todos_world.
Proof.
  apply (@trigger_failure_state SampleHost.host delete_call todos_key
           delete_fails [JNum 1] optimistic_delete todos_world delete_cause).
  - reflexivity.
  - reflexivity.
  - exact quiet_writes_accepted.
  - reflexivity.
  - reflexivity.
Defined.

Lemma trigger_rollback_witness :
  exists t w',
    run_call SampleHost.host create_fails_call todos_world = (Throw t, w')
    /\ get_prop t (lit "originalError")
       = JError 7%N (lit "Error") (lit "Request failed")
    /\ cached_in SampleHost.host (cache w') todos_key
       = cached todos_world todos_key
    /\ (is_string_type todos_key = false ->
        cached_in SampleHost.host (cache w') todos_key = JUndefined).
Proof.
  apply (@trigger_rollback SampleHost.host create_fails_call todos_key
           request_fails [new_todo] optimistic_replace todos_world).
  - reflexivity.
  - reflexivity.
  - exact quiet_writes_accepted.
  - split; [reflexivity|vm_compute; discriminate].
  - reflexivity.
  - reflexivity.
Defined.

Lemma trigger_keeps_optimistic_witness :
  exists t w',
    run_call SampleHost.host update_fails_call todos_world = (Throw t, w')
    /\ cached_in SampleHost.host (cache w') todos_key = update_payload
    /\ mutateLog w'
       = mutateLog todos_world ++ [write_call todos_key update_payload].
Proof.
  apply (@trigger_keeps_optimistic SampleHost.host update_fails_call
           todos_key request_fails [JNum 1; new_todo] optimistic_keep
           todos_world
           (JError 7%N (lit "Error") (lit "Request failed")) update_payload).
  - reflexivity.
  - reflexivity.
  - exact quiet_writes_accepted.
  - split; [reflexivity|vm_compute; discriminate].
  - reflexivity.
  - reflexivity.
  - reflexivity.
Defined.

Lemma optimistic_write_refused_witness :
  exists w',
    run_call SampleHost.host delete_call write_refused
    = (Throw write_error, w')
    /\ remoteLog w' = remoteLog write_refused
    /\ isMutating w' = true
    /\ error w' = JNull
    /\ cache w' = cache write_refused.
Proof.
  apply (@optimistic_write_refused SampleHost.host delete_call todos_key
           delete_fails [JNum 1] optimistic_delete write_refused
           (remove_item JUndefined (JNum 1)) write_error).
  - reflexivity.
  - reflexivity.
  - reflexivity.
  - reflexivity.
Defined.

Lemma trigger_user_message_witness :
  exists t w',
    run_call SampleHost.host delete_call todos_world = (Throw t, w')
    /\ getUserMessage t 10%N
       = (Ok (JStr (lit "Failed to delete todos. Please try again.")),
          11%N).
Proof.
  apply (@trigger_user_message SampleHost.host delete_call todos_key
           delete_fails [JNum 1] optimistic_delete todos_world delete_cause
           10%N).
  - reflexivity.
  - reflexivity.
  - exact quiet_writes_accepted.
  - reflexivity.
Defined.

Lemma apply_then_rollback_witness :
  exists w',
    (originalData <- applyOptimisticUpdate SampleHost.host todos_key (JNum 1)
                       remove_item ;;
     rollbackOptimisticUpdate SampleHost.host todos_key originalData)
      todos_world
    = (Ok tt, w')
    /\ cached_in SampleHost.host (cache w') todos_key
       = cached todos_world todos_key
    /\ (is_string_type todos_key = false ->
        cached_in SampleHost.host (cache w') todos_key = JUndefined
        /\ mutateLog w'
           = mutateLog todos_world
             ++ [write_call todos_key (remove_item JUndefined (JNum 1));
                 write_call todos_key JUndefined])
    /\ (forall s, todos_key = JStr s ->
        unstable_serialize SampleHost.host todos_key = s ->
        cached_in SampleHost.host (cache w') todos_key
        = cached_in SampleHost.host (cache todos_world) todos_key)
    /\ (forall k,
          unstable_serialize SampleHost.host k
          <> unstable_serialize SampleHost.host todos_key ->
          cached_in SampleHost.host (cache w') k
          = cached_in SampleHost.host (cache todos_world) k)
    /\ mutateLog w'
       = mutateLog todos_world
         ++ [write_call todos_key
               (remove_item (cached todos_world todos_key) (JNum 1));
             write_call todos_key (cached todos_world todos_key)].
Proof.
  apply (@apply_then_rollback SampleHost.host todos_key (JNum 1) remove_item
           todos_world).
  - split; [reflexivity|vm_compute; discriminate].
  - exact quiet_writes_accepted.
Defined.

Lemma executeMutation_rethrows_witness :
  exists w2,
    executeMutation SampleHost.host (call_remote delete_fails [JNum 1])
      todos_key true (ce_data todos_entry) setError todos_world
    = match setError delete_cause w2 with
      | (Ok _, w') => (Throw delete_cause, w')
      | (Throw e, w') => (Throw e, w')
      end
    /\ mutateLog w2
       = mutateLog after_delete_fails
         ++ (if restores true (ce_data todos_entry)
             then [write_call todos_key (ce_data todos_entry)] else [])
    /\ cache w2
       = (if restores true (ce_data todos_entry)
          then cache_after SampleHost.host todos_key
                 (DataValue (ce_data todos_entry)) (JBool false)
                 (cache after_delete_fails)
          else cache after_delete_fails).
Proof.
  apply (@executeMutation_rethrows SampleHost.host
           (call_remote delete_fails [JNum 1]) todos_key true
           (ce_data todos_entry) setError todos_world after_delete_fails
           delete_cause).
  - reflexivity.
  - reflexivity.
Defined.

Lemma executeMutation_success_witness :
  exists w',
    executeMutation SampleHost.host (call_remote request_succeeds [new_todo])
      todos_key true JUndefined setError todos_world
    = (Ok saved_todo, w')
    /\ mutateLog w'
       = mutateLog after_request_succeeds ++ [revalidate_call todos_key]
    /\ cached_in SampleHost.host (cache w') todos_key = JUndefined
    /\ (forall k,
          unstable_serialize SampleHost.host k
          <> unstable_serialize SampleHost.host todos_key ->
          cached_in SampleHost.host (cache w') k
          = cached_in SampleHost.host (cache after_request_succeeds) k)
    /\ error w' = error after_request_succeeds
    /\ remoteLog w' = remoteLog after_request_succeeds.
Proof.
  apply (@executeMutation_success SampleHost.host
           (call_remote request_succeeds [new_todo]) todos_key true
           JUndefined setError todos_world after_request_succeeds
           saved_todo).
  - reflexivity.
  - reflexivity.
  - split; [reflexivity|vm_compute; discriminate].
Defined.

Lemma executeMutation_revalidation_failure_witness :
  exists w2,
    executeMutation SampleHost.host (call_remote request_succeeds [new_todo])
      todos_key true (ce_data todos_entry) setError revalidation_refused
    = match setError write_error w2 with
      | (Ok _, w') => (Throw write_error, w')
      | (Throw e', w') => (Throw e', w')
      end
    /\ mutateLog w2
       = mutateLog after_request_refused ++ [revalidate_call todos_key]
         ++ (if restores true (ce_data todos_entry)
             then [write_call todos_key (ce_data todos_entry)] else [])
    /\ cache w2
       = (if restores true (ce_data todos_entry)
          then cache_after SampleHost.host todos_key
                 (DataValue (ce_data todos_entry)) (JBool false)
                 (cache after_request_refused)
          else cache after_request_refused).
Proof.
  apply (@executeMutation_revalidation_failure SampleHost.host
           (call_remote request_succeeds [new_todo]) todos_key true
           (ce_data todos_entry) setError revalidation_refused
           after_request_refused saved_todo write_error).
  - reflexivity.
  - reflexivity.
  - reflexivity.
Defined.

Lemma executeMutation_after_optimistic_witness :
  exists w',
    (originalData <- applyOptimisticUpdate SampleHost.host todos_key (JNum 1)
                       remove_item ;;
     executeMutation SampleHost.host (call_remote delete_fails [JNum 1])
       todos_key true originalData setError) todos_world
    = (Throw delete_cause, w')
    /\ error w' = delete_cause
    /\ cached_in SampleHost.host (cache w') todos_key
       = (if strict_eq (cached todos_world todos_key) JUndefined
          then remove_item JUndefined (JNum 1)
          else cached todos_world todos_key)
    /\ (is_string_type todos_key = false ->
        cached_in SampleHost.host (cache w') todos_key
        = remove_item JUndefined (JNum 1)
        /\ mutateLog w'
           = mutateLog todos_world
             ++ [write_call todos_key (remove_item JUndefined (JNum 1))]).
Proof.
  apply (@executeMutation_after_optimistic SampleHost.host todos_key (JNum 1)
           remove_item delete_fails [JNum 1] todos_world delete_cause).
  - split; [reflexivity|vm_compute; discriminate].
  - exact quiet_writes_accepted.
  - reflexivity.
Defined.



Lemma batch_revalidate_option_witness :
  (exists call,
     mutateLog (snd (mutateById SampleHost.host (inl (lit "todos")) new_todo
                       (JObj 9%N [(lit "revalidate", JBool true)])
                       todos_world))
     = mutateLog todos_world ++ [call]
     /\ get_prop (mc_options call) (lit "revalidate") = JBool true
     /\ mc_data call = updaterFor new_todo)
  /\ (exists call,
        mutateLog (snd (mutateByGroup SampleHost.host (inl (lit "todos"))
                          new_todo
                          (JObj 9%N [(lit "revalidate", JBool true)])
                          todos_world))
        = mutateLog todos_world ++ [call]
        /\ get_prop (mc_options call) (lit "revalidate") = JBool true
        /\ mc_data call = updaterFor new_todo).
Proof.
  apply (@batch_revalidate_option SampleHost.host 9%N
           [(lit "revalidate", JBool true)] (JBool true) new_todo
           (inl (lit "todos")) todos_world).
  reflexivity.
Defined.

Lemma mutateById_failure_witness :
  exists r context w',
    mutateById SampleHost.host (inr [lit "todos"; lit "users"]) new_todo
               JUndefined filter_refused
    = (Throw (JMutationError r
                (lit "Failed to mutate cache by ID(s): "
                 ++ join (lit ", ")
                      (one_or_many (inr [lit "todos"; lit "users"]))
                 ++ lit ". " ++ error_text write_error)
                context write_error), w')
    /\ get_prop context (lit "data") = new_todo
    /\ get_prop context (lit "timestamp") = JNum (clock filter_refused)
    /\ cache w' = cache filter_refused
    /\ fst (getUserMessage
              (JMutationError r
                 (lit "Failed to mutate cache by ID(s): "
                  ++ join (lit ", ")
                       (one_or_many (inr [lit "todos"; lit "users"]))
                  ++ lit ". " ++ error_text write_error)
                 context write_error) 10%N)
       = Ok (JStr (lit "Failed to update resource. Please try again.")).
Proof.
  apply (@mutateById_failure SampleHost.host
           (inr [lit "todos"; lit "users"]) new_todo JUndefined
           filter_refused write_error 10%N).
  reflexivity.
Defined.

Lemma trigger_revalidation_failure_witness :
  exists t w',
    run_call SampleHost.host create_call revalidation_refused = (Throw t, w')
    /\ get_prop t (lit "name") = JStr (lit "MutationError")
    /\ get_prop t (lit "originalError") = write_error
    /\ error w' = t
    /\ isMutating w' = false
    /\ mutateLog w'
       = mutateLog revalidation_refused
         ++ optimistic_calls create_call revalidation_refused
         ++ [revalidate_call todos_key]
         ++ rollback_calls create_call revalidation_refused
    /\ (rolls_back optimistic_replace = true ->
        storable SampleHost.host todos_key ->
        cached_in SampleHost.host (cache w') todos_key
        = cached revalidation_refused todos_key).
Proof.
  apply (@trigger_revalidation_failure SampleHost.host create_call todos_key
           request_succeeds [new_todo] optimistic_replace
           revalidation_refused saved_todo write_error).
  - reflexivity.
  - reflexivity.
  - intros key data. reflexivity.
  - reflexivity.
  - reflexivity.
  - reflexivity.
Defined.
